(** * Agent-based SIR / SIS epidemic engine

    A shallow embedding of [sir.py] and [sis.py]: the population of agents,
    the spatial grid, the per-day [step], the movement [move_all], the body
    of [create_SIR_simulation] and [create_SIS_simulation] from the
    placement of the agents to the animation of the trajectories, and of
    interface_comparison.py the animated label.

    Modelling conventions.
    - An agent is the Python list [[state, x, y]].  All agents live in the
      list [people]; a reference to an agent (an element of [infected], of a
      grid cell, of [new_infected], of [recover]) is its index in [people].
      Mutating an agent through any reference updates the one store, which is
      what the aliasing of Python lists does.
    - Python integers are [Z]; [//] on integers is [Z.div] (both round to
      minus infinity) and raises [ZeroDivisionError] on a zero divisor.
    - Python floats are IEEE 754 binary64 numbers, with the operations of the
      Standard Library's [SpecFloat].  They come from three places:
      [random.random()], the quotient [num_infected / number_of_people], and
      the root [(x_diff ** 2 + y_diff ** 2) ** 0.5].  Comparing a float with a
      float or with an integer compares the exact values, as Python does.
    - The module-level generator of [random] is a tape of raw draws with a
      cursor; [random.random()] and [random.randint(a, b)] read one raw draw
      each.
    - [infect_rate] and [recover_rate] are kept by the exact value of the
      number passed, a rational; [infect_distance] is an integer, as in every
      default of the source.
    - Of pygame, imageio, numpy, scipy and matplotlib the model keeps what
      decides whether the run goes on: [pygame.display.set_mode] refuses a
      negative size, [imageio.mimsave] refuses an empty list of frames, and
      [odeint] converts the initial conditions to floats and evaluates the
      right-hand side [sir_model] / [sis_model], whose first line converts
      and divides.  The display, the file system and the memory are taken to
      be there; the pictures and the solution of the differential equations
      are not computed, and of the latter only the time grid is kept.  Of the
      animation of the trajectories the data given to the lines is
      modelled. *)

From Stdlib Require Import ZArith QArith Qpower Reals Lia Lra String.
From Stdlib Require SpecFloat.
From stdpp Require Import base option list gmap.

Local Open Scope Z_scope.

(** ** Exceptions and the error monad *)

Inductive exn : Type :=
  | ValueError          (* random.randint on an empty range, list.remove of an absent value *)
  | ZeroDivisionError   (* x // 0, x / 0, x / 0.0 *)
  | OverflowError       (* an integer or a quotient too large for a float *)
  | PygameError         (* pygame.error: a display of negative size *)
  | ImageioError        (* imageio.mimsave without a frame; the class of the exception
                           depends on the version of imageio *)
  | ConfigurationError. (* named by the specification; nothing in the source raises it *)

Inductive result (A : Type) : Type :=
  | Done (a : A)
  | Raise (e : exn).
Arguments Done {A} a.
Arguments Raise {A} e.

#[global] Instance result_ret : MRet result := fun A a => Done a.
#[global] Instance result_bind : MBind result := fun A B f m =>
  match m with
  | Done a => f a
  | Raise e => Raise e
  end.

Fixpoint foldM {A B : Type} (f : A -> B -> result A) (a : A) (l : list B) : result A :=
  match l with
  | [] => Done a
  | b :: l' => a' ← f a b; foldM f a' l'
  end.

(** ** The random generator *)

Record rng : Type := Rng { tape : nat -> Z; cursor : nat }.

Definition raw (g : rng) : Z := tape g (cursor g).
Definition advance (g : rng) : rng := Rng (tape g) (S (cursor g)).

(** [random.random()]: a multiple of 2^-53 in [0, 1). *)
Definition random (g : rng) : Q * rng :=
  (Qmake (raw g mod 2 ^ 53) (2 ^ 53), advance g).

(** [random.randint(a, b)]: an integer in [a, b], both ends included;
    [ValueError] when the range is empty. *)
Definition randint (a b : Z) (g : rng) : result (Z * rng) :=
  if b <? a then Raise ValueError
  else Done (a + raw g mod (b - a + 1), advance g).

Definition Qltb (p q : Q) : bool := negb (Qle_bool q p).

(** ** Floating-point numbers

    A float is a binary64 number: 53 bits of precision, exponents below
    1024.  Every operation rounds to the nearest float, ties to even.  Where
    IEEE 754 gives an infinity Python raises [OverflowError], so that every
    float of the engine is finite. *)

Definition float : Type := SpecFloat.spec_float.
Definition prec : Z := 53.
Definition emax : Z := 1024.

(** The number a finite float stands for. *)
Definition float_value (x : float) : Q :=
  match x with
  | SpecFloat.S754_finite s m e => (inject_Z (if s then Zneg m else Zpos m) * 2 ^ e)%Q
  | _ => 0%Q
  end.

Definition finite (x : float) : result float :=
  match x with
  | SpecFloat.S754_infinity _ => Raise OverflowError
  | _ => Done x
  end.

(** [float(n)], also applied to an integer operand of [**] with a float:
    the nearest float, [OverflowError] from 2^1024 - 2^970 on. *)
Definition float_of_int (n : Z) : result float :=
  finite (SpecFloat.binary_normalize prec emax n 0 false).

(** An integer as the operand of an exact operation. *)
Definition exact_int (n : Z) : float :=
  match n with
  | 0 => SpecFloat.S754_zero false
  | Zpos p => SpecFloat.S754_finite false p 0
  | Zneg p => SpecFloat.S754_finite true p 0
  end.

(** [a / b] on two integers: the float nearest to the quotient, whatever
    the size of [a] and [b]. *)
Definition true_divide (a b : Z) : result float :=
  if b =? 0 then Raise ZeroDivisionError
  else finite (SpecFloat.SFdiv prec emax (exact_int a) (exact_int b)).

(** [x ** 0.5] for a float [x] that is not negative.  Python hands the
    operation to [pow] of the C library, which is taken to round correctly:
    the result is the square root of IEEE 754. *)
Definition float_sqrt (x : float) : float := SpecFloat.SFsqrt prec emax x.

(** The exponent of the last place of a float of magnitude [2^e]. *)
Definition fexp64 (e : Z) : Z := Z.max (e - 53) (-1074).

(** The float [f] of sign [sx] is [m2] units of [2^e0], when it is finite;
    it is infinite only from the scale 971 on. *)
Definition stands_for (sx : bool) (f : float) (e0 m2 : Z) : Prop :=
  match f with
  | SpecFloat.S754_zero s => s = sx /\ m2 = 0
  | SpecFloat.S754_finite s m e => s = sx /\ e0 <= e <= 971 /\ Zpos m * 2 ^ (e - e0) = m2
  | SpecFloat.S754_infinity s => s = sx /\ 971 <= e0
  | SpecFloat.S754_nan => False
  end.

(** ** Agents *)

Inductive health : Type := St_S | St_I | St_R.

#[global] Instance health_eq_dec : EqDecision health.
Proof. solve_decision. Defined.

Record person : Type := Person { p_state : health; p_x : Z; p_y : Z }.

#[global] Instance person_eq_dec : EqDecision person.
Proof. solve_decision. Defined.

Definition set_state (s : health) (p : person) : person :=
  Person s (p_x p) (p_y p).

Definition is_state (s : health) (p : person) : bool :=
  bool_decide (p_state p = s).

(** The two variants differ in the state a recovering agent is given:
    [i[0] = 'R'] in sir.py, [i[0] = 'S'] in sis.py. *)
Inductive variant : Type := SIR | SIS.

Definition recovered_state (v : variant) : health :=
  match v with SIR => St_R | SIS => St_S end.

(** ** The nested functions of [create_SIR_simulation] / [create_SIS_simulation]

    The section variables are the variables the nested functions close
    over. *)

Section Engine.
Variable v : variant.
Variables width height : Z.
Variables infect_rate recover_rate : Q.
Variables infect_distance max_move : Z.

(** The number [find_distance] takes the square root of. *)
Definition find_distance_sq (p1 p2 : person) : Z :=
  let x_diff := p_x p1 - p_x p2 in
  let y_diff := p_y p1 - p_y p2 in
  x_diff ^ 2 + y_diff ^ 2.

(** The Euclidean distance between two agents, a real number. *)
Definition euclidean_distance (p1 p2 : person) : R :=
  sqrt (IZR (find_distance_sq p1 p2)).

(** What [find_distance] returns: the sum of the squares is an integer, it
    is converted to a float and its root is taken. *)
Definition find_distance (p1 p2 : person) : result float :=
  x ← float_of_int (find_distance_sq p1 p2);
  Done (float_sqrt x).

(** The test [find_distance(p1, p2) < d] of [step], [d] an integer. *)
Definition find_distance_lt (p1 p2 : person) (d : Z) : result bool :=
  r ← find_distance p1 p2;
  Done (Qltb (float_value r) (inject_Z d)).

Definition get_cell (x y cell_size : Z) : result (Z * Z) :=
  if cell_size =? 0 then Raise ZeroDivisionError
  else Done (x / cell_size, y / cell_size).

(** [grid[cell].append(p)], creating the cell when it is missing. *)
Definition grid_append (grid : gmap (Z * Z) (list nat)) (cell : Z * Z) (k : nat)
  : gmap (Z * Z) (list nat) :=
  <[cell := default [] (grid !! cell) ++ [k]]> grid.

Definition populate_grid (people : list person) (cell_size : Z)
  : result (gmap (Z * Z) (list nat)) :=
  foldM (fun grid '(k, p) =>
           cell ← get_cell (p_x p) (p_y p) cell_size;
           Done (grid_append grid cell k))
        ∅ (imap pair people).

(** The state threaded through the loops of [step]. *)
Record scan : Type := Scan {
  sc_people : list person;
  sc_new_infected : list nat;
  sc_recover : list nat;
  sc_rng : rng
}.

(** Body of [for p in grid[neighbor_cell]]; [and] calls [find_distance]
    only when [p] is susceptible.  A reference always points into [people];
    the last branch is there only to make the function total. *)
Definition contact (i p : nat) (st : scan) : result scan :=
  match sc_people st !! i, sc_people st !! p with
  | Some a, Some b =>
      if is_state St_S b then
        near ← find_distance_lt a b infect_distance;
        if near : bool then
          let (u, g) := random (sc_rng st) in
          if Qltb u infect_rate then
            Done (Scan (<[p := set_state St_I b]> (sc_people st))
                       (sc_new_infected st ++ [p]) (sc_recover st) g)
          else Done (Scan (sc_people st) (sc_new_infected st) (sc_recover st) g)
        else Done st
      else Done st
  | _, _ => Done st
  end.

Definition offsets : list Z := [-1; 0; 1].

(** The two loops [for dx in [-1, 0, 1]: for dy in [-1, 0, 1]:]. *)
Definition scan_block (grid : gmap (Z * Z) (list nat)) (i : nat) (cell : Z * Z)
    (st : scan) : result scan :=
  foldM (fun st dx =>
    foldM (fun st dy =>
      match grid !! (cell.1 + dx, cell.2 + dy) with
      | Some ps => foldM (fun st p => contact i p st) st ps
      | None => Done st
      end) st offsets) st offsets.

(** The recovery draw of agent [i]. *)
Definition recovery (i : nat) (st : scan) : scan :=
  let (u, g) := random (sc_rng st) in
  if Qltb u recover_rate then
    Scan (alter (set_state (recovered_state v)) i (sc_people st))
         (sc_new_infected st) (sc_recover st ++ [i]) g
  else Scan (sc_people st) (sc_new_infected st) (sc_recover st) g.

(** Body of [for i in infected]. *)
Definition visit (grid : gmap (Z * Z) (list nat)) (cell_size : Z)
    (st : scan) (i : nat) : result scan :=
  match sc_people st !! i with
  | Some a =>
      cell ← get_cell (p_x a) (p_y a) cell_size;
      st ← scan_block grid i cell st;
      Done (recovery i st)
  | None => Done st
  end.

(** [l.remove(r)]: delete the first element equal to [r].  Elements are
    agents, and two agents are equal when their three fields are. *)
Fixpoint list_remove (people : list person) (r : nat) (l : list nat)
  : result (list nat) :=
  match l with
  | [] => Raise ValueError
  | j :: l' =>
      if bool_decide (people !! j = people !! r) then Done l'
      else l'' ← list_remove people r l'; Done (j :: l'')
  end.

(** The first half of [step]: the grid and the loop [for i in infected]. *)
Definition scan_all (people : list person) (infected : list nat) (cell_size : Z)
    (g : rng) : result scan :=
  grid ← populate_grid people cell_size;
  foldM (visit grid cell_size) (Scan people [] [] g) infected.

(** The loop [for r in recover: infected.remove(r)]. *)
Definition remove_all (people : list person) (infected recover : list nat)
  : result (list nat) :=
  foldM (fun l r => list_remove people r l) infected recover.

Definition step (people : list person) (infected : list nat) (cell_size : Z)
    (g : rng) : result (list person * list nat * Z * rng) :=
  st ← scan_all people infected cell_size g;
  let recovered_num := Z.of_nat (length (sc_recover st)) in
  infected' ← remove_all (sc_people st) infected (sc_recover st);
  Done (sc_people st, infected' ++ sc_new_infected st, recovered_num, sc_rng st).

Definition clamp (c dimension : Z) : Z :=
  let c := if c <? 1 then 1 else c in
  if c >? dimension - 1 then dimension - 1 else c.

Definition move_one (p : person) (g : rng) : result (person * rng) :=
  '(ox, g) ← randint (max_move * -1) max_move g;
  let x := clamp (p_x p + ox) width in
  '(oy, g) ← randint (max_move * -1) max_move g;
  let y := clamp (p_y p + oy) height in
  Done (Person (p_state p) x y, g).

Definition move_all (people : list person) (g : rng) : result (list person * rng) :=
  foldM (fun '(moved, g) p =>
           '(p', g) ← move_one p g;
           Done (moved ++ [p'], g))
        ([], g) people.
End Engine.

(** ** Configuration and the run *)

Record config : Type := Config {
  cfg_width : Z;
  cfg_height : Z;
  number_of_people : Z;
  num_infected : Z;
  cfg_infect_rate : Q;
  cfg_recover_rate : Q;
  cfg_infect_distance : Z;
  cfg_max_move : Z;
  max_days : Z;
  simulation_name : string
}.

(** The variables of the body of [create_SIR_simulation] /
    [create_SIS_simulation] that the engine reads and writes.  sis.py keeps
    no [simulated_R]; there the field stays empty.  A frame is kept as the
    population it shows. *)
Record sim : Type := Sim {
  people : list person;
  infected : list nat;
  gen : rng;
  step_count : Z;
  simulated_S : list Z;
  simulated_I : list Z;
  simulated_R : list Z;
  frames : list (list person)
}.

(** One round of the placement loop [for _ in range(number_of_people)]. *)
Definition place (cfg : config) (st : list person * list nat * rng)
  : result (list person * list nat * rng) :=
  let '(people, infected, g) := st in
  let (u, g) := random g in
  ratio ← true_divide (num_infected cfg) (number_of_people cfg);
  let s := if Qltb u (float_value ratio) then St_I else St_S in
  '(x, g) ← randint 0 (cfg_width cfg) g;
  '(y, g) ← randint 0 (cfg_height cfg) g;
  let person := Person s x y in
  let infected := if bool_decide (p_state person = St_I)
                  then infected ++ [length people] else infected in
  Done (people ++ [person], infected, g).

Definition populate (cfg : config) (g : rng) : result (list person * list nat * rng) :=
  foldM (fun st _ => place cfg st) ([], [], g)
        (seq 0 (Z.to_nat (number_of_people cfg))).

(** [l[-1]] of a list that is never empty here. *)
Definition last_entry (l : list Z) : Z := List.last l 0.

Definition len {A : Type} (l : list A) : Z := Z.of_nat (length l).

(** The body of the [while] loop; [cfg] carries the values of the
    closed-over variables at that point.  The frame is captured after the
    movement. *)
Definition day (v : variant) (cfg : config) (s : sim) : result sim :=
  let step_count := step_count s + 1 in
  '(people, infected, recovered_amount, g) ←
     step v (cfg_infect_rate cfg) (cfg_recover_rate cfg) (cfg_infect_distance cfg)
          (people s) (infected s) (cfg_infect_distance cfg) (gen s);
  '(people, g) ← move_all (cfg_width cfg) (cfg_height cfg) (cfg_max_move cfg) people g;
  match v with
  | SIR =>
      let simulated_R := simulated_R s ++ [last_entry (simulated_R s) + recovered_amount] in
      let simulated_I := simulated_I s ++ [len infected] in
      let simulated_S := simulated_S s ++
        [number_of_people cfg - last_entry simulated_I - last_entry simulated_R] in
      Done (Sim people infected g step_count simulated_S simulated_I simulated_R
                (frames s ++ [people]))
  | SIS =>
      let simulated_I := simulated_I s ++ [len infected] in
      let simulated_S := simulated_S s ++ [number_of_people cfg - last_entry simulated_I] in
      Done (Sim people infected g step_count simulated_S simulated_I (simulated_R s)
                (frames s ++ [people]))
  end.

(** [len(infected) > 0 and step_count <= max_days] *)
Definition continue (cfg : config) (s : sim) : bool :=
  (len (infected s) >? 0) && (step_count s <=? max_days cfg).

(** The [while] loop, unrolled at most [fuel] times; [None] means that the
    loop condition still held when [fuel] ran out.  [day_loop_terminates]
    gives the number of rounds that always suffices. *)
Fixpoint day_loop (v : variant) (cfg : config) (fuel : nat) (s : sim)
  : option (result sim) :=
  if continue cfg s then
    match fuel with
    | O => None
    | S fuel' =>
        match day v cfg s with
        | Done s' => day_loop v cfg fuel' s'
        | Raise e => Some (Raise e)
        end
    end
  else Some (Done s).

(** [np.linspace(start, stop, num)] with exact arithmetic. *)
Definition linspace (start stop : Q) (num : nat) : list Q :=
  match num with
  | O => []
  | S O => [start]
  | S div =>
      let step := ((stop - start) / inject_Z (Z.of_nat div))%Q in
      map (fun k => (inject_Z (Z.of_nat k) * step + start)%Q) (seq 0 num)
  end.

(** What a run hands to the plotting code: the final state, the time grid
    [t] passed to [odeint] (which returns one row per entry of [t]) and the
    path of the saved animation. *)
Record output : Type := Output {
  final : sim;
  t : list Q;
  output_gif_path : string
}.

Definition initial (v : variant) (cfg : config) (people : list person)
    (infected : list nat) (g : rng) : sim :=
  Sim people infected g 0
      [number_of_people cfg - num_infected cfg] [num_infected cfg]
      (match v with SIR => [0] | SIS => [] end) [].

Definition time_grid (s : sim) : list Q :=
  linspace 0 (inject_Z (step_count s + 1)) (Z.to_nat (step_count s + 1)).

(** [pygame.display.set_mode((width, height))]: a negative size is refused
    with [pygame.error]; a size an [int] of C can hold is taken to open. *)
Definition set_mode (width height : Z) : result unit :=
  if (width <? 0) || (height <? 0) then Raise PygameError else Done ().

(** [imageio.mimsave(output_gif_path, frames, fps=10)] *)
Definition mimsave {A : Type} (frames : list A) : result unit :=
  match frames with
  | [] => Raise ImageioError
  | _ => Done ()
  end.

(** The first line of [sir_model] and of [sis_model],
    [(math.pi * float(radius) * float(radius)) / float(dimensions[0] *
    dimensions[1])], as far as it can fail: the two conversions of the
    radius, the conversion of the area, and the division.  The products of
    floats overflow to an infinity without an exception. *)
Definition circle_probability (radius : Z) (dimensions : Z * Z) : result unit :=
  _ ← float_of_int radius;
  _ ← float_of_int radius;
  area ← float_of_int (dimensions.1 * dimensions.2);
  match area with
  | SpecFloat.S754_zero _ => Raise ZeroDivisionError
  | _ => Done ()
  end.

(** [odeint(model, initial_conditions, t, args=(...))], as far as it can
    fail: the initial conditions are converted to floats, and the model is
    evaluated. *)
Definition odeint (initial_conditions : list Z) (radius : Z) (dimensions : Z * Z)
  : result unit :=
  _ ← foldM (fun _ y => _ ← float_of_int y; Done ()) () initial_conditions;
  circle_probability radius dimensions.

(** What follows the [while] loop. *)
Definition save_and_solve (v : variant) (suffix : string) (cfg : config) (s : sim)
  : result output :=
  let output_gif_path := ("simulations/" ++ simulation_name cfg ++ suffix)%string in
  _ ← mimsave (frames s);
  let S0 := number_of_people cfg - num_infected cfg in
  let I0 := num_infected cfg in
  let initial_conditions := match v with SIR => [S0; I0; 0] | SIS => [S0; I0] end in
  let t := time_grid s in
  _ ← odeint initial_conditions (cfg_infect_distance cfg) (cfg_width cfg, cfg_height cfg);
  Done (Output s t output_gif_path).

Definition simulate (v : variant) (suffix : string) (fuel : nat) (cfg : config) (g : rng)
  : option (result output) :=
  match populate cfg g with
  | Raise e => Some (Raise e)
  | Done (people, infected, g) =>
      match set_mode (cfg_width cfg) (cfg_height cfg) with
      | Raise e => Some (Raise e)
      | Done _ =>
          match day_loop v cfg fuel (initial v cfg people infected g) with
          | None => None
          | Some (Raise e) => Some (Raise e)
          | Some (Done s) => Some (save_and_solve v suffix cfg s)
          end
      end
  end.

Definition create_SIR_simulation (fuel : nat) (cfg : config) (g : rng)
  : option (result output) :=
  simulate SIR "_SIR.gif" fuel cfg g.

(** sis.py starts by overwriting three of its parameters:
    [simulation_name = 'simulation1'], [infect_distance = 10],
    [max_move = 5]. *)
Definition sis_overrides (cfg : config) : config :=
  Config (cfg_width cfg) (cfg_height cfg) (number_of_people cfg) (num_infected cfg)
         (cfg_infect_rate cfg) (cfg_recover_rate cfg) 10 5 (max_days cfg) "simulation1".

Definition create_SIS_simulation (fuel : nat) (cfg : config) (g : rng)
  : option (result output) :=
  simulate SIS "_SIS.gif" fuel (sis_overrides cfg) g.

(** The defaults of the two signatures. *)
Definition default_config : config :=
  Config 500 500 5000 400 (8 # 10) (15 # 100) 10 5 100 "simulation1".

(** A generator whose first raw draws are those of [l], then 0 for ever. *)
Definition tape_of (l : list Z) : rng := Rng (fun n => nth n l 0) 0.

(** The raw draw that makes [random.random()] return its largest value. *)
Definition raw_max : Z := 2 ^ 53 - 1.

(** ** Predicates used in the statements *)

(** The three lists have one entry per recorded day, days 0 to
    [step_count], and the entries of a day add up to [N]. *)
Definition conserved (v : variant) (N : Z) (s : sim) : Prop :=
  len (simulated_I s) = step_count s + 1 /\
  length (simulated_S s) = length (simulated_I s) /\
  match v with
  | SIR => length (simulated_R s) = length (simulated_I s)
  | SIS => simulated_R s = []
  end /\
  forall d S_d I_d,
    simulated_S s !! d = Some S_d -> simulated_I s !! d = Some I_d ->
    match v with
    | SIR => exists R_d, simulated_R s !! d = Some R_d /\ S_d + I_d + R_d = N
    | SIS => S_d + I_d = N
    end.


(** What the day loop keeps from round to round, [inf] being the infected
    list it starts with: [step_count] counts the rounds and stays within the
    cap; every round leaves a frame and an entry of [simulated_I]; a loop
    that has run started from a list that was not empty, and the last
    entry is the length of the list as it is; the lengths recorded before
    are positive. *)
Definition loop_record (cfg : config) (inf : list nat) (s : sim) : Prop :=
  0 <= step_count s <= Z.max 0 (max_days cfg + 1) /\
  len (frames s) = step_count s /\
  len (simulated_I s) = step_count s + 1 /\
  (step_count s = 0 -> infected s = inf) /\
  (1 <= step_count s ->
   inf <> [] /\
   simulated_I s !! Z.to_nat (step_count s) = Some (len (infected s))) /\
  forall d I_d, 1 <= Z.of_nat d < step_count s ->
    simulated_I s !! d = Some I_d -> 0 < I_d.

(** ** Small runs used in the examples *)

(** Ten by ten area, two agents, one requested seed, at most four days. *)
Definition small_config : config :=
  Config 10 10 2 1 (8 # 10) (15 # 100) 10 5 3 "demo".

(** Agent 0 is placed infected at (3, 4) and agent 1 susceptible at (5, 5);
    on day 1 agent 0 infects agent 1 and recovers, on day 2 agent 1
    recovers. *)
Definition small_rng : rng := tape_of [0; 3; 4; raw_max; 5; 5; 0; 1; 1; 1; 1; 1].

(** ** The infected subset *)

(** The references to the agents whose attribute [f] is [b], in the order
    of [people], each once. *)
Definition refs_with {B : Type} `{EqDecision B} (f : person -> B) (b : B)
    (people : list person) : list nat :=
  filter (fun k => f <$> people !! k = Some b) (seq 0 (length people)).

(** The agents in state ['I']. *)
Definition infected_refs (people : list person) : list nat :=
  refs_with p_state St_I people.

(** [infected] lists exactly the agents in state ['I'], each once. *)
Definition consistent (people : list person) (infected : list nat) : Prop :=
  infected ≡ₚ infected_refs people.

(** ** The seed *)

(** [num_infected / number_of_people] *)
Definition seed_ratio (cfg : config) : result float :=
  true_divide (num_infected cfg) (number_of_people cfg).

(** The value [random.random()] returns for the [k]-th agent placed: every
    placement reads three raw draws, the first of them for the state. *)
Definition seed_draw (g : rng) (k : nat) : Q :=
  fst (random (Rng (tape g) (cursor g + 3 * k))).

(** The state the [k]-th draw gives against the float [ratio]. *)
Definition seeded_state (ratio : float) (g : rng) (k : nat) : health :=
  if Qltb (seed_draw g k) (float_value ratio) then St_I else St_S.

(** What the placement loop builds: one agent per round, three raw draws
    per agent, the state of agent [k] decided by its own draw, coordinates
    in [0, width] and [0, height], and [infected] listing the agents placed
    in state ['I']. *)
Definition placed (cfg : config) (g : rng) (st : list person * list nat * rng) : Prop :=
  let '(ppl, inf, g') := st in
  tape g' = tape g /\ cursor g' = (cursor g + 3 * length ppl)%nat /\
  inf = infected_refs ppl /\
  forall k a, ppl !! k = Some a ->
    (exists ratio, seed_ratio cfg = Done ratio /\ p_state a = seeded_state ratio g k) /\
    0 <= p_x a <= cfg_width cfg /\ 0 <= p_y a <= cfg_height cfg.



(** Three agents, two requested seeds: the float [2 / 3] is
    6004799503160661 / 2^53, a little below two thirds.  The first draw of
    [thirds_rng] is that float, the second the float before it. *)
Definition thirds_config : config :=
  Config 10 10 3 2 (8 # 10) (15 # 100) 10 5 3 "thirds".
Definition thirds_rng : rng :=
  tape_of [6004799503160661; 3; 4; 6004799503160660; 5; 5; raw_max; 6; 6].

(** ** The spatial grid *)

(** The cell of an agent for a non-zero cell size. *)
Definition cell_of (cell_size : Z) (p : person) : Z * Z :=
  (p_x p / cell_size, p_y p / cell_size).

(** The candidates [step] goes through for an infected agent in [cell]: the
    contents of the nine cells of the block, in the order of the two loops
    over [dx] and [dy]. *)
Definition neighbors_of (grid : gmap (Z * Z) (list nat)) (cell : Z * Z) : list nat :=
  dx ← offsets; dy ← offsets; default [] (grid !! (cell.1 + dx, cell.2 + dy)).

(** ** The invariant of the loop [for i in infected] *)

(** The state of the agent a reference points to. *)
Definition state_at (people : list person) (k : nat) : option health :=
  p_state <$> people !! k.

(** [L] is the list the loop goes through, [done] the part already visited
    and [todo] the rest.  The agents in state ['I'] are those of [L] that
    did not recover, and those infected during this call; an agent that
    recovered and was not infected again is in the state recovery gives. *)
Record scan_inv (v : variant) (L done todo : list nat) (st : scan) : Prop := ScanInv {
  inv_recover : sc_recover st `sublist_of` done;
  inv_new_nodup : NoDup (sc_new_infected st);
  inv_new : forall k, k ∈ sc_new_infected st ->
    (k ∉ todo) /\ (k ∈ L -> k ∈ sc_recover st) /\ (v = SIR -> k ∉ L);
  inv_state : forall k,
    state_at (sc_people st) k = Some St_I <->
    (k ∈ L /\ k ∉ sc_recover st) \/ k ∈ sc_new_infected st;
  inv_recovered : forall k, k ∈ sc_recover st -> k ∉ sc_new_infected st ->
    state_at (sc_people st) k = Some (recovered_state v)
}.

(** ** The removal loop *)

(** The value of the agent a reference points to: what [==] compares. *)
Definition value_at (people : list person) (j : nat) : option person := people !! j.

(** The lists the removal loop goes through: [l] has no duplicates, the
    agents of [rs] left in the recovered state appear in [l] in the order
    of [rs], every agent of [l] in the recovered state is in [rs], and the
    values of [rs] are among those of [l]. *)
Record removal_pre (ppl : list person) (rc : health) (l rs : list nat) : Prop := RemovalPre {
  pre_nodup : NoDup l;
  pre_order : filter (fun r => state_at ppl r = Some rc) rs `sublist_of` l;
  pre_covered : forall e, e ∈ l -> state_at ppl e = Some rc -> e ∈ rs;
  pre_values : value_at ppl <$> rs ⊆+ value_at ppl <$> l
}.


(** ** Movement *)

(** [p'] is [p] after one movement: same state, each coordinate shifted by
    an offset of at most [max_move] and clamped. *)
Definition moved_from (width height max_move : Z) (p p' : person) : Prop :=
  p_state p' = p_state p /\
  exists ox oy,
    - max_move <= ox <= max_move /\ - max_move <= oy <= max_move /\
    p_x p' = clamp (p_x p + ox) width /\ p_y p' = clamp (p_y p + oy) height.

(** ** Configurations the specification calls invalid *)

Definition probability (q : Q) : bool := Qle_bool 0 q && Qle_bool q 1.

(** A probability outside [0, 1], a non-positive dimension, or more seeds
    than people. *)
Definition invalid_configuration (cfg : config) : bool :=
  negb (probability (cfg_infect_rate cfg)) || negb (probability (cfg_recover_rate cfg))
  || (cfg_width cfg <=? 0) || (cfg_height cfg <=? 0)
  || (number_of_people cfg <? num_infected cfg).

(** Two agents, five requested seeds, a transmission probability of 3/2. *)
Definition invalid_config : config :=
  Config 10 10 2 5 (3 # 2) (15 # 100) 10 5 3 "demo".

(** An area without width. *)
Definition flat_config : config :=
  Config 0 10 2 2 (8 # 10) (15 # 100) 10 5 3 "flat".

(** ** Populations and runs used in the examples *)

(** Two infected agents one unit apart.  With [pair_rng] agent 0 recovers
    and agent 1 then infects it again. *)
Definition pair_people : list person := [Person St_I 5 5; Person St_I 6 5].
Definition pair_rng : rng := tape_of [0; 0; raw_max].

(** Three infected agents, the first two at the same place.  With
    [trio_rng] agent 0 stays infected, agent 1 recovers and agent 2 infects
    it again. *)
Definition trio_people : list person :=
  [Person St_I 5 5; Person St_I 5 5; Person St_I 6 5].
Definition trio_rng : rng := tape_of [raw_max; 0; 0; raw_max].

(** A run of one day that starts from [trio_people]. *)
Definition trio_config : config :=
  Config 10 10 3 3 (8 # 10) (15 # 100) 10 5 0 "demo".
Definition trio_run_rng : rng :=
  tape_of [0; 5; 5; 0; 5; 5; 0; 6; 5; raw_max; 0; 0; raw_max].

(** The caller asks for a contact radius of 20 and no movement; agent 0 is
    placed infected at (10, 10) and agent 1 susceptible at (25, 10), fifteen
    units away; every contact transmits and nobody recovers. *)
Definition wide_config : config :=
  Config 100 100 2 1 1 0 20 0 0 "wide".
Definition wide_rng : rng := tape_of [0; 10; 10; raw_max; 25; 10].

(** [cfg] with other values for the three options sis.py overwrites. *)
Definition with_options (d m : Z) (name : string) (cfg : config) : config :=
  Config (cfg_width cfg) (cfg_height cfg) (number_of_people cfg) (num_infected cfg)
         (cfg_infect_rate cfg) (cfg_recover_rate cfg) d m (max_days cfg) name.

(** One agent, infected, placed by the largest draw of [random.randint];
    it recovers on the first day. *)
Definition edge_config : config :=
  Config 500 500 1 1 (8 # 10) (15 # 100) 10 5 100 "edge".
Definition edge_rng : rng := tape_of [0; 500; 500].

(** ** Further notions used in the properties of the engine *)

(** Every sum of squares [find_distance] can be given is below [bound]. *)
Definition squares_below (bound : Z) (people : list person) : Prop :=
  forall a b, a ∈ people -> b ∈ people -> find_distance_sq a b < bound.

(** Two agents are so far apart that the sum of the squares is 2^1023 or
    more. *)
Definition too_far_apart (people : list person) : Prop :=
  exists a b, a ∈ people /\ b ∈ people /\ 2 ^ 1023 <= find_distance_sq a b.

(** Two agents too far apart for [find_distance]: the square of their
    distance, 10^320, is no float. *)
Definition distant_people : list person :=
  [Person St_I 0 0; Person St_S (10 ^ 160) 0].

(** [p'] stands where [p] stands. *)
Definition same_place (p p' : person) : Prop :=
  p_x p' = p_x p /\ p_y p' = p_y p.

(** The stage of the disease: susceptible, then infected, then recovered. *)
Definition stage (s : health) : nat :=
  match s with St_S => 0 | St_I => 1 | St_R => 2 end.

(** The number of agents in state [s]. *)
Definition count_state (s : health) (people : list person) : Z :=
  len (refs_with p_state s people).

(** From entry [k] on, every entry of [l] is at most the next. *)
Definition nondecreasing_from (k : nat) (l : list Z) : Prop :=
  forall d x y, (k <= d)%nat -> l !! d = Some x -> l !! S d = Some y -> x <= y.

(** From entry [k] on, every entry of [l] is at least the next. *)
Definition nonincreasing_from (k : nat) (l : list Z) : Prop :=
  forall d x y, (k <= d)%nat -> l !! d = Some x -> l !! S d = Some y -> y <= x.

(** [p'] is at the same or a later stage than [p]. *)
Definition later_stage (p p' : person) : Prop :=
  (stage (p_state p) <= stage (p_state p'))%nat.

(** A population on which [step] is tried in the examples: an infected
    agent, a susceptible one three units away and a recovered one. *)
Definition mixed_people : list person :=
  [Person St_I 4 4; Person St_S 7 4; Person St_R 30 30].
Definition mixed_rng : rng := tape_of [0; 0].

(** A run in which nobody recovers: [small_config] with a recovery rate of
    zero. *)
Definition endless_config : config :=
  Config 10 10 2 1 (8 # 10) 0 10 5 3 "endless".

(** What the day loop of sir.py keeps about its last entries: the list is
    consistent, the last entry of [simulated_R] is the number of agents in
    state ['R'], and after the first day the last entries of [simulated_I]
    and [simulated_S] are set from the length of the infected list. *)
Definition sir_counts (cfg : config) (s : sim) : Prop :=
  consistent (people s) (infected s) /\
  length (people s) = Z.to_nat (number_of_people cfg) /\
  last_entry (simulated_R s) = count_state St_R (people s) /\
  (1 <= step_count s ->
   last_entry (simulated_I s) = len (infected s) /\
   last_entry (simulated_S s)
   = number_of_people cfg - last_entry (simulated_I s) - last_entry (simulated_R s)).

(** [small_config] with no requested seed, and with as many seeds as
    people. *)
Definition zero_seed_config : config :=
  Config 10 10 2 0 (8 # 10) (15 # 100) 10 5 3 "zero".
Definition full_seed_config : config :=
  Config 10 10 2 2 (8 # 10) (15 # 100) 10 5 3 "full".

(** Draws for a movement of [mixed_people]. *)
Definition move_rng : rng := tape_of [0; 10; 3; 4; 7; 7].

(** ** The animation of the two trajectories

    [animate_and_save_sir] and [animate_and_save_sis], as far as the data
    they draw goes. *)

(** [line.set_data(range(frame), data[:frame])]: the abscissas and the
    ordinates a line is given for a frame. *)
Definition set_data {A : Type} (frame : nat) (data : list A) : list nat * list A :=
  (seq 0 frame, take frame data).

(** [FuncAnimation(fig, update, frames=len(S_sim))] calls [update] with the
    frames 0, ..., [len(S_sim) - 1]. *)
Definition animation_frames (S_sim : list Z) : list nat := seq 0 (length S_sim).

(** [ax.set_ylim(0, S_sim[0] + I_sim[0] + R_sim[0])] of sir.py and
    [ax.set_ylim(0, S_sim[0] + I_sim[0])] of sis.py: the upper limit, when
    the lists have a first entry. *)
Definition ylim_top (v : variant) (S_sim I_sim R_sim : list Z) : option Z :=
  match v with
  | SIR => s ← S_sim !! 0%nat; i ← I_sim !! 0%nat; r ← R_sim !! 0%nat; Some (s + i + r)
  | SIS => s ← S_sim !! 0%nat; i ← I_sim !! 0%nat; Some (s + i)
  end.

(** ** The animated label of interface_comparison.py

    [AnimatedGIFLabel] plays the frames of a GIF with Tk timers.  A frame is
    known by its index.  Of Tk the model keeps the timers: [after] registers
    one and returns its identifier, [after_cancel] drops one, and a
    registered timer fires once, calling [_animate]. *)

Module AnimatedGIFLabel.

Inductive error : Type := RuntimeError | IndexError | ZeroDivisionError.

Record label : Type := Label {
  frames : nat;             (* len(self.frames) *)
  current_frame : nat;      (* self.current_frame *)
  image : nat;              (* the frame on display *)
  is_paused : bool;         (* self.is_paused *)
  after_id : option nat;    (* self.after_id *)
  timers : gset nat;        (* Tk: the timers registered and not yet fired or cancelled *)
  fresh : nat               (* Tk: the next timer identifier *)
}.

(** [self.config(image=self.frames[k])] *)
Definition config_image (k : nat) (l : label) : error + label :=
  if (k <? frames l)%nat
  then inr (Label (frames l) (current_frame l) k (is_paused l) (after_id l)
                  (timers l) (fresh l))
  else inl IndexError.

(** [self.after(self.delay, self._animate)] *)
Definition after (l : label) : nat * label :=
  (fresh l,
   Label (frames l) (current_frame l) (image l) (is_paused l) (after_id l)
         ({[fresh l]} ∪ timers l) (S (fresh l))).

(** [self.after_cancel(id)] *)
Definition after_cancel (id : nat) (l : label) : label :=
  Label (frames l) (current_frame l) (image l) (is_paused l) (after_id l)
        (timers l ∖ {[id]}) (fresh l).

Definition schedule_next_frame (l : label) : label :=
  if is_paused l then l
  else
    let (id, l) := after l in
    Label (frames l) (current_frame l) (image l) (is_paused l) (Some id)
          (timers l) (fresh l).

Definition animate (l : label) : error + label :=
  if (frames l =? 0)%nat then inl ZeroDivisionError
  else
    let k := ((current_frame l + 1) mod frames l)%nat in
    match config_image k (Label (frames l) k (image l) (is_paused l) (after_id l)
                                (timers l) (fresh l)) with
    | inr l => inr (schedule_next_frame l)
    | inl e => inl e
    end.

Definition pause (l : label) : label :=
  if is_paused l then l
  else
    let l := Label (frames l) (current_frame l) (image l) true (after_id l)
                   (timers l) (fresh l) in
    match after_id l with
    | Some id =>
        let l := after_cancel id l in
        Label (frames l) (current_frame l) (image l) (is_paused l) None
              (timers l) (fresh l)
    | None => l
    end.

Definition resume (l : label) : label :=
  if is_paused l
  then schedule_next_frame (Label (frames l) (current_frame l) (image l) false (after_id l)
                                  (timers l) (fresh l))
  else l.

Definition refresh (l : label) : error + label :=
  let l := pause l in
  match config_image 0 (Label (frames l) 0 (image l) (is_paused l) (after_id l)
                              (timers l) (fresh l)) with
  | inr l =>
      inr (schedule_next_frame (Label (frames l) (current_frame l) (image l) false
                                      (after_id l) (timers l) (fresh l)))
  | inl e => inl e
  end.

(** [__init__] on a GIF of [n] frames, in a Tk whose next timer is
    [first]. *)
Definition init (n first : nat) : error + label :=
  if (n =? 0)%nat then inl RuntimeError
  else
    match config_image 0 (Label n 0 0 false None ∅ first) with
    | inr l => inr (schedule_next_frame l)
    | inl e => inl e
    end.

(** What can happen to a label: one of its timers fires, or a button of the
    interface calls one of its methods. *)
Inductive event : Type := Fire (id : nat) | Pause | Resume | Refresh.

Definition handle (e : event) (l : label) : error + label :=
  match e with
  | Fire id =>
      if decide (id ∈ timers l) then animate (after_cancel id l) else inr l
  | Pause => inr (pause l)
  | Resume => inr (resume l)
  | Refresh => refresh l
  end.

Fixpoint handle_all (es : list event) (l : label) : error + label :=
  match es with
  | [] => inr l
  | e :: es =>
      match handle e l with
      | inr l => handle_all es l
      | inl e => inl e
      end
  end.

(** The timer the label waits for fires. *)
Definition tick (l : label) : error + label :=
  match after_id l with
  | Some id => handle (Fire id) l
  | None => inr l
  end.

Fixpoint ticks (k : nat) (l : label) : error + label :=
  match k with
  | O => inr l
  | S k =>
      match ticks k l with
      | inr l => tick l
      | inl e => inl e
      end
  end.

(** The state of a label between two events: the frame shown is
    [current_frame], a frame of the GIF; a playing label waits for exactly
    one timer, the one it remembers; a paused label waits for none. *)
Definition playing_or_paused (l : label) : Prop :=
  (current_frame l < frames l)%nat /\ image l = current_frame l /\
  if is_paused l
  then after_id l = None /\ timers l = ∅
  else exists id, after_id l = Some id /\ timers l = {[id]} /\ (id < fresh l)%nat.

End AnimatedGIFLabel.

(** * Properties *)

(** ** The error monad *)

Lemma bind_Done {A B : Type} (m : result A) (f : A -> result B) (b : B) :
  m ≫= f = Done b -> exists a, m = Done a /\ f a = Done b.
Proof. destruct m as [a|e]; simpl; [eauto | discriminate]. Qed.

Lemma bind_Raise {A B : Type} (m : result A) (f : A -> result B) (e : exn) :
  m ≫= f = Raise e -> m = Raise e \/ exists a, m = Done a /\ f a = Raise e.
Proof. destruct m as [a|e']; simpl; [eauto | intros [= ->]; auto]. Qed.

Lemma foldM_app {A B : Type} (f : A -> B -> result A) (a : A) (l1 l2 : list B) :
  foldM f a (l1 ++ l2) = foldM f a l1 ≫= fun a' => foldM f a' l2.
Proof.
  revert a. induction l1 as [|b l1 IH]; intros a; simpl; [reflexivity|].
  destruct (f a b) as [a'|e]; simpl; [apply IH | reflexivity].
Qed.

(** A fold raises only what one of its rounds raises. *)
Lemma foldM_raises {A B : Type} (E : exn -> Prop) (f : A -> B -> result A) (l : list B) :
  (forall a b e, f a b = Raise e -> E e) ->
  forall a e, foldM f a l = Raise e -> E e.
Proof.
  intros Hf. induction l as [|b l IH]; intros a e; simpl; [discriminate|].
  intros H. apply bind_Raise in H as [H | (a1 & _ & H)]; eauto.
Qed.

(** A fold keeps what each of its rounds keeps. *)
Lemma foldM_invariant {A B : Type} (P : A -> Prop) (f : A -> B -> result A) (l : list B) :
  (forall a b a', b ∈ l -> P a -> f a b = Done a' -> P a') ->
  forall a a', P a -> foldM f a l = Done a' -> P a'.
Proof.
  induction l as [|b l IH]; intros Hf a a' Ha; simpl.
  - by intros [= <-].
  - intros H. apply bind_Done in H as (a1 & H1 & H2).
    apply (IH (fun a0 b0 a0' Hin => Hf a0 b0 a0' (list_elem_of_further _ _ _ Hin)) a1);
      [|done].
    eapply Hf; [by left|exact Ha|exact H1].
Qed.

Lemma Qltb_true p q : Qltb p q = true <-> (p < q)%Q.
Proof.
  unfold Qltb. rewrite negb_true_iff. split.
  - intros H. apply Qnot_le_lt. intros Hle. apply Qle_bool_iff in Hle. congruence.
  - intros H. destruct (Qle_bool q p) eqn:E; [|done].
    apply Qle_bool_iff in E. by apply Qlt_not_le in H.
Qed.

(** ** Floating-point numbers *)

Section Floats.
Import SpecFloat.

Lemma Zdigits2_log2 z : 0 < z -> Zdigits2 z = Z.log2 z + 1.
Proof.
  destruct z as [|p|p]; try lia. intros _. simpl.
  induction p as [p IH|p IH|]; simpl.
  - rewrite Pos2Z.inj_succ, IH. destruct p; simpl; lia.
  - rewrite Pos2Z.inj_succ, IH. destruct p; simpl; lia.
  - reflexivity.
Qed.

Lemma shr_1_m mrs : 0 <= shr_m mrs -> shr_m (shr_1 mrs) = shr_m mrs / 2.
Proof.
  destruct mrs as [m r s]. simpl. intros Hm.
  rewrite <- Z.div2_div.
  destruct m as [|[p|p|]|p]; try reflexivity; lia.
Qed.

Lemma pow2_xI p : 2 ^ Zpos p~1 = 2 * (2 ^ Zpos p * 2 ^ Zpos p).
Proof.
  replace (Z.pos p~1) with (Z.succ (2 * Z.pos p)) by lia.
  rewrite Z.pow_succ_r by lia. by rewrite Z.pow_twice_r.
Qed.

Lemma pow2_xO p : 2 ^ Zpos p~0 = 2 ^ Zpos p * 2 ^ Zpos p.
Proof.
  replace (Z.pos p~0) with (2 * Z.pos p) by lia. by rewrite Z.pow_twice_r.
Qed.

Lemma iter_shr_1_m p : forall mrs,
  0 <= shr_m mrs -> shr_m (iter_pos shr_1 p mrs) = shr_m mrs / 2 ^ Zpos p.
Proof.
  induction p as [p IH|p IH|]; intros mrs Hm; simpl iter_pos.
  - assert (0 <= shr_m (shr_1 mrs)) as H1.
    { rewrite shr_1_m by done. apply Z.div_pos; lia. }
    assert (0 <= shr_m (iter_pos shr_1 p (shr_1 mrs))) as H2.
    { rewrite IH by done. apply Z.div_pos; [done|]. apply Z.pow_pos_nonneg; lia. }
    rewrite IH, IH, shr_1_m by done.
    assert (0 < 2 ^ Z.pos p) by (apply Z.pow_pos_nonneg; lia).
    rewrite !Z.div_div by lia.
    rewrite pow2_xI. f_equal; lia.
  - assert (0 <= shr_m (iter_pos shr_1 p mrs)) as H2.
    { rewrite IH by done. apply Z.div_pos; [done|]. apply Z.pow_pos_nonneg; lia. }
    rewrite IH, IH by done.
    assert (0 < 2 ^ Z.pos p) by (apply Z.pow_pos_nonneg; lia).
    rewrite !Z.div_div by lia.
    by rewrite pow2_xO.
  - rewrite shr_1_m by done. reflexivity.
Qed.

Lemma shr_record_of_loc_m m l : shr_m (shr_record_of_loc m l) = m.
Proof. by destruct l as [|[]]. Qed.

Lemma loc_of_shr_record_of_loc m l : loc_of_shr_record (shr_record_of_loc m l) = l.
Proof. by destruct l as [|[]]. Qed.

Lemma shr_spec mrs e n :
  0 <= shr_m mrs ->
  shr_m (shr mrs e n).1 = shr_m mrs / 2 ^ Z.max 0 n /\ (shr mrs e n).2 = e + Z.max 0 n /\
  (n <= 0 -> (shr mrs e n).1 = mrs).
Proof.
  intros Hm. destruct n as [|p|p]; simpl.
  - rewrite Z.div_1_r. repeat split; lia.
  - rewrite iter_shr_1_m by done. repeat split; lia.
  - rewrite Z.div_1_r. repeat split; lia.
Qed.

Lemma round_nearest_even_bounds m l : m <= round_nearest_even m l <= m + 1.
Proof. destruct l as [|[]]; simpl; try destruct (Z.even m); lia. Qed.

Lemma Zdigits2_succ m : 0 <= m ->
  Zdigits2 (m + 1) = Zdigits2 m \/
  (Zdigits2 (m + 1) = Zdigits2 m + 1 /\ m + 1 = 2 ^ Zdigits2 m).
Proof.
  intros Hm. destruct (decide (m = 0)) as [->|Hne]; [right; by simpl|].
  rewrite !Zdigits2_log2 by lia.
  pose proof (Z.log2_spec m ltac:(lia)) as [H1 H2].
  destruct (decide (m + 1 < 2 ^ (Z.log2 m + 1))) as [Hlt|Hge].
  - left. f_equal. apply Z.log2_unique; [apply Z.log2_nonneg|]. lia.
  - right. assert (m + 1 = 2 ^ (Z.log2 m + 1)) as E by lia. split; [|done].
    rewrite E. rewrite Z.log2_pow2; [done|]. pose proof (Z.log2_nonneg m). lia.
Qed.

Lemma Zdigits2_div q n : 0 < q -> 0 <= n -> 2 ^ n <= q ->
  Zdigits2 (q / 2 ^ n) = Zdigits2 q - n.
Proof.
  intros Hq Hn Hle.
  assert (0 < q / 2 ^ n) as Hpos.
  { apply Z.div_str_pos. split; [apply Z.pow_pos_nonneg; lia|done]. }
  rewrite !Zdigits2_log2 by lia.
  rewrite <- Z.shiftr_div_pow2 by done. rewrite Z.log2_shiftr by done.
  assert (n <= Z.log2 q); [|lia].
  apply Z.log2_le_pow2; done.
Qed.

Lemma div_small q n : 0 <= q -> 0 <= n -> q < 2 ^ n -> q / 2 ^ n = 0.
Proof. intros. apply Z.div_small. lia. Qed.

Lemma binary_round_aux_spec sx q E l :
  0 <= q ->
  let n := Z.max 0 (fexp64 (Zdigits2 q + E) - E) in
  exists m2,
    q / 2 ^ n <= m2 <= q / 2 ^ n + 1 /\
    (n = 0 -> m2 = round_nearest_even q l) /\
    stands_for sx (binary_round_aux prec emax sx q E l) (E + n) m2.
Proof.
  intros Hq n. unfold binary_round_aux, shr_fexp.
  change (fexp prec emax) with fexp64.
  set (n0 := fexp64 (Zdigits2 q + E) - E) in *.
  destruct (shr_spec (shr_record_of_loc q l) E n0) as (Hm1 & He1 & Hid1).
  { rewrite shr_record_of_loc_m. lia. }
  destruct (shr (shr_record_of_loc q l) E n0) as [mrs' e'] eqn:Hs1. simpl in Hm1, He1, Hid1.
  rewrite shr_record_of_loc_m in Hm1. fold n in Hm1, He1.
  set (m1 := q / 2 ^ n) in *.
  assert (0 <= m1) as Hm1pos.
  { apply Z.div_pos; [lia|]. apply Z.pow_pos_nonneg; lia. }
  set (m2 := round_nearest_even (shr_m mrs') (loc_of_shr_record mrs')).
  assert (m1 <= m2 <= m1 + 1) as Hm2.
  { unfold m2. rewrite Hm1. apply round_nearest_even_bounds. }
  set (n2 := fexp64 (Zdigits2 m2 + e') - e').
  destruct (shr_spec (shr_record_of_loc m2 loc_Exact) e' n2) as (Hm3 & He3 & _).
  { simpl. lia. }
  destruct (shr (shr_record_of_loc m2 loc_Exact) e' n2) as [mrs'' e''] eqn:Hs2.
  simpl in Hm3, He3.
  (* the second shift is exact *)
  assert (shr_m mrs'' * 2 ^ Z.max 0 n2 = m2 /\ (m2 <> 0 -> Z.max 0 n2 <= 1)) as [Hexact Hn2].
  { rewrite Hm3.
    destruct (decide (m1 = 0)) as [Hz|Hnz].
    - (* the mantissa was shifted out *)
      assert (n2 <= 0 \/ m2 = 0) as Hcase.
      { destruct (decide (m2 = 0)) as [|Hm2nz]; [by right|left].
        assert (m2 = 1) as -> by lia. unfold n2. simpl Zdigits2.
        unfold n0, fexp64 in *. lia. }
      destruct Hcase as [Hle| ->].
      + rewrite Z.max_l by lia. rewrite Z.div_1_r. split; lia.
      + rewrite Z.div_0_l; [split; lia|]. apply Z.pow_nonzero; lia.
    - assert (2 ^ n <= q) as Hle.
      { destruct (decide (2 ^ n <= q)); [done|].
        unfold m1 in Hnz. rewrite div_small in Hnz; lia. }
      assert (0 < q) as Hqpos.
      { assert (0 < 2 ^ n) by (apply Z.pow_pos_nonneg; lia). lia. }
      assert (Zdigits2 m1 = Zdigits2 q - n) as Hd1 by (apply Zdigits2_div; lia).
      assert (n0 <= n) as Hn0 by lia.
      assert (m2 = m1 \/ m2 = m1 + 1) as [E2|E2] by lia.
      + assert (n2 <= 0) as Hle2.
        { unfold n2. rewrite E2, Hd1, He1. unfold n0 in Hn0.
          replace (Zdigits2 q - n + (E + n)) with (Zdigits2 q + E) by lia. lia. }
        rewrite Z.max_l by lia. rewrite Z.div_1_r. split; lia.
      + destruct (Zdigits2_succ m1 Hm1pos) as [Hs|[Hs Hpow]].
        * assert (n2 <= 0) as Hle2.
          { unfold n2. rewrite E2, Hs, Hd1, He1. unfold n0 in Hn0.
            replace (Zdigits2 q - n + (E + n)) with (Zdigits2 q + E) by lia. lia. }
          rewrite Z.max_l by lia. rewrite Z.div_1_r. split; lia.
        * assert (n2 <= 1) as Hle2.
          { unfold n2. rewrite E2, Hs, Hd1, He1. unfold n0 in Hn0.
            replace (Zdigits2 q - n + 1 + (E + n)) with (Zdigits2 q + E + 1) by lia.
            unfold fexp64 in *. lia. }
          split; [|lia].
          destruct (decide (n2 <= 0)).
          { rewrite Z.max_l by lia. rewrite Z.div_1_r. lia. }
          assert (n2 = 1) as -> by lia. simpl Z.max.
          rewrite E2, Hpow.
          assert (0 < Zdigits2 m1).
          { rewrite Zdigits2_log2 by lia. pose proof (Z.log2_nonneg m1). lia. }
          assert (2 ^ Zdigits2 m1 = 2 ^ (Zdigits2 m1 - 1) * 2) as ->.
          { rewrite Z.mul_comm, <- Z.pow_succ_r by lia. f_equal. lia. }
          change (2 ^ Z.max 0 1) with 2. rewrite Z.div_mul by lia. lia. }
  exists m2. split; [done|]. split.
  { intros Hn. unfold m2. rewrite Hid1 by lia.
    by rewrite shr_record_of_loc_m, loc_of_shr_record_of_loc. }
  destruct (shr_m mrs'') as [|m|m] eqn:Hm''; simpl.
  - split; [done|]. lia.
  - assert (m2 <> 0).
    { intros Hz. rewrite Hz in Hexact.
      assert (0 < 2 ^ Z.max 0 n2) by (apply Z.pow_pos_nonneg; lia). lia. }
    specialize (Hn2 ltac:(done)).
    destruct (e'' <=? emax - prec) eqn:Hfin; simpl.
    + apply Z.leb_le in Hfin. unfold emax, prec in Hfin.
      split; [done|]. split; [lia|].
      replace (e'' - (E + n)) with (Z.max 0 n2) by lia. done.
    + apply Z.leb_gt in Hfin. unfold emax, prec in Hfin. split; [done|]. lia.
  - assert (0 <= Z.neg m); [|lia].
    rewrite Hm3. apply Z.div_pos; [lia|]. apply Z.pow_pos_nonneg; lia.
Qed.

Lemma pow2_pos_Q e : (0 < 2 ^ e)%Q.
Proof. by apply Qpower_0_lt. Qed.

Lemma stands_for_value f E M :
  stands_for false f E M -> (forall s, f <> S754_infinity s) ->
  (float_value f == inject_Z M * 2 ^ E)%Q.
Proof.
  destruct f as [s|s| |s m e]; simpl.
  - intros [_ ->] _. by rewrite Qmult_0_l.
  - intros _ H. by destruct (H s).
  - done.
  - intros (-> & [H1 H2] & <-) _.
    rewrite inject_Z_mult, Zpower_Qpower by lia.
    rewrite <- Qmult_assoc, <- Qpower_plus by done.
    by replace (e - E + E) with e by lia.
Qed.

(** comparison with an integer, at a non-positive scale *)
Lemma scaled_lt M E d :
  E <= 0 -> (inject_Z M * 2 ^ E < inject_Z d)%Q <-> M < d * 2 ^ (- E).
Proof.
  intros HE.
  assert (inject_Z d == inject_Z (d * 2 ^ (- E)) * 2 ^ E)%Q as ->.
  { rewrite inject_Z_mult, Zpower_Qpower by lia.
    rewrite <- Qmult_assoc, <- Qpower_plus by done.
    replace (- E + E) with 0 by lia. simpl. by rewrite Qmult_1_r. }
  split.
  - intros H. apply Qmult_lt_r in H; [|apply pow2_pos_Q].
    by rewrite <- Zlt_Qlt in H.
  - intros H. apply Qmult_lt_r; [apply pow2_pos_Q|]. by rewrite <- Zlt_Qlt.
Qed.

(** *** Conversion of an integer *)

Lemma Zpos_iter_xO p d : Zpos (Pos.iter xO p d) = Zpos p * 2 ^ Zpos d.
Proof.
  induction d as [|d IH] using Pos.peano_ind.
  - simpl. lia.
  - rewrite Pos.iter_succ, Pos2Z.inj_xO, IH, Pos2Z.inj_succ, Z.pow_succ_r by lia. lia.
Qed.

Lemma binary_round_aux_canonical m E :
  Zdigits2 (Zpos m) = 53 -> -1074 <= E <= 971 ->
  binary_round_aux prec emax false (Zpos m) E loc_Exact = S754_finite false m E.
Proof.
  intros Hd HE. unfold binary_round_aux, shr_fexp.
  change (fexp prec emax) with fexp64. rewrite Hd.
  assert (fexp64 (53 + E) - E = 0) as -> by (unfold fexp64; lia).
  simpl shr. cbn [round_nearest_even shr_m loc_of_shr_record].
  rewrite Hd. assert (fexp64 (53 + E) - E = 0) as -> by (unfold fexp64; lia).
  simpl. unfold emax, prec.
  destruct (E <=? 1024 - 53) eqn:H; [done|]. apply Z.leb_gt in H. lia.
Qed.

Lemma Zdigits2_bounds z : 0 < z -> 2 ^ (Zdigits2 z - 1) <= z < 2 ^ Zdigits2 z.
Proof.
  intros Hz. rewrite Zdigits2_log2 by done.
  replace (Z.log2 z + 1 - 1) with (Z.log2 z) by lia.
  pose proof (Z.log2_spec z Hz). lia.
Qed.

Lemma Zdigits2_unique z k : 0 < k -> 2 ^ (k - 1) <= z < 2 ^ k -> Zdigits2 z = k.
Proof.
  intros Hk Hz.
  assert (0 < z).
  { assert (0 < 2 ^ (k - 1)) by (apply Z.pow_pos_nonneg; lia). lia. }
  rewrite Zdigits2_log2 by done.
  rewrite (Z.log2_unique z (k - 1)); [lia|lia|].
  replace (Z.succ (k - 1)) with k by lia. exact Hz.
Qed.

Lemma Zdigits2_mul_pow2 z k : 0 < z -> 0 <= k -> Zdigits2 (z * 2 ^ k) = Zdigits2 z + k.
Proof.
  intros Hz Hk. pose proof (Zdigits2_bounds z Hz) as [H1 H2].
  assert (0 < Zdigits2 z).
  { rewrite Zdigits2_log2 by done. pose proof (Z.log2_nonneg z). lia. }
  assert (0 < 2 ^ k) by (apply Z.pow_pos_nonneg; lia).
  apply Zdigits2_unique; [lia|].
  replace (Zdigits2 z + k - 1) with (Zdigits2 z - 1 + k) by lia.
  rewrite !Z.pow_add_r by lia. nia.
Qed.

(** An integer below 2^53 is converted exactly, to a float of 53 digits. *)
Lemma float_of_int_small s :
  0 < s < 2 ^ 53 ->
  exists m,
    float_of_int s = Done (S754_finite false m (Zdigits2 s - 53)) /\
    Zpos m = s * 2 ^ (53 - Zdigits2 s) /\ Zdigits2 (Zpos m) = 53.
Proof.
  intros [Hs Hlt]. destruct s as [|p|p]; try lia.
  set (D := Zdigits2 (Zpos p)).
  assert (1 <= D <= 53) as HD.
  { pose proof (Zdigits2_bounds (Zpos p) Hs) as [H1 H2]. fold D in H1, H2.
    assert (0 < D).
    { unfold D. rewrite Zdigits2_log2 by done. pose proof (Z.log2_nonneg (Zpos p)). lia. }
    split; [lia|].
    destruct (decide (D <= 53)); [done|].
    assert (2 ^ 53 <= 2 ^ (D - 1)) by (apply Z.pow_le_mono_r; lia). lia. }
  unfold float_of_int, binary_normalize, binary_round.
  change (fexp prec emax) with fexp64. rewrite Z.add_0_r.
  change (Z.pos (digits2_pos p)) with D.
  assert (fexp64 D = D - 53) as -> by (unfold fexp64; lia).
  unfold shl_align. rewrite Z.sub_0_r.
  destruct (decide (D = 53)) as [E|E].
  - rewrite E. change (53 - 53) with 0. cbv iota beta.
    rewrite binary_round_aux_canonical by (try done; lia).
    exists p. simpl. split; [done|]. rewrite Z.mul_1_r. done.
  - destruct (D - 53) as [|d|d] eqn:Hd; try lia.
    assert (Zdigits2 (Zpos (Pos.iter xO p d)) = 53) as Hdig.
    { rewrite Zpos_iter_xO, Zdigits2_mul_pow2 by lia. fold D. lia. }
    rewrite binary_round_aux_canonical by (try done; lia).
    exists (Pos.iter xO p d). simpl. split; [done|]. split; [|done].
    rewrite Zpos_iter_xO. f_equal. f_equal. lia.
Qed.

Lemma float_of_int_0 : float_of_int 0 = Done (S754_zero false).
Proof. reflexivity. Qed.

Lemma float_of_int_small_value s f :
  0 <= s < 2 ^ 53 -> float_of_int s = Done f -> (float_value f == inject_Z s)%Q.
Proof.
  intros [Hs Hlt]. destruct (decide (s = 0)) as [->|Hne].
  - intros [= <-]. done.
  - destruct (float_of_int_small s ltac:(lia)) as (m & -> & Hm & Hd). intros [= <-].
    simpl. rewrite Hm.
    pose proof (Zdigits2_bounds s ltac:(lia)).
    assert (Zdigits2 s <= 53).
    { destruct (decide (Zdigits2 s <= 53)); [done|].
      assert (2 ^ 53 <= 2 ^ (Zdigits2 s - 1)) by (apply Z.pow_le_mono_r; lia). lia. }
    rewrite inject_Z_mult, Zpower_Qpower by lia.
    rewrite <- Qmult_assoc, <- Qpower_plus by done.
    replace (53 - Zdigits2 s + (Zdigits2 s - 53)) with 0 by lia.
    simpl. by rewrite Qmult_1_r.
Qed.

Local Ltac dlia := Z.to_euclidean_division_equations; lia.

Lemma shiftl_match m s :
  0 <= s ->
  match s with
  | Z.pos _ => Z.shiftl m s
  | 0 => m
  | Z.neg _ => 0
  end = m * 2 ^ s.
Proof.
  intros Hs. destruct s as [|p|p]; try lia.
  by rewrite Z.shiftl_mul_pow2.
Qed.

Lemma sqrt_digits q m' k :
  0 <= q -> 0 < k -> q * q <= m' < (q + 1) * (q + 1) ->
  2 ^ (2 * k - 2) <= m' < 2 ^ (2 * k) -> 2 ^ (k - 1) <= q < 2 ^ k.
Proof.
  intros Hq Hk [H1 H2] [H3 H4].
  assert (0 < 2 ^ (k - 1)) by (apply Z.pow_pos_nonneg; lia).
  assert (2 ^ (2 * k - 2) = 2 ^ (k - 1) * 2 ^ (k - 1)) as E1.
  { rewrite <- Z.pow_add_r by lia. f_equal. lia. }
  assert (2 ^ (2 * k) = 2 ^ k * 2 ^ k) as E2.
  { rewrite <- Z.pow_add_r by lia. f_equal. lia. }
  assert (0 < 2 ^ k) by (apply Z.pow_pos_nonneg; lia).
  split; nia.
Qed.

(** The root of an integer below 2^53: [M] units of [2^F], where [M] is
    the integer root of [s] counted in units of [4^F], or the next
    integer. *)
Lemma float_sqrt_small s m :
  0 < s < 2 ^ 53 ->
  Zpos m = s * 2 ^ (53 - Zdigits2 s) -> Zdigits2 (Zpos m) = 53 ->
  let F := (Zdigits2 s + 1) / 2 - 53 in
  exists q M,
    q <= M <= q + 1 /\ 0 < q /\
    q * q <= s * 2 ^ (- 2 * F) < (q + 1) * (q + 1) /\
    (float_value (float_sqrt (S754_finite false m (Zdigits2 s - 53)))
     == inject_Z M * 2 ^ F)%Q.
Proof.
  intros [Hs Hlt] Hm Hd F.
  set (D := Zdigits2 s) in *.
  assert (1 <= D <= 53) as HD.
  { pose proof (Zdigits2_bounds s Hs) as [H1 H2]. fold D in H1, H2.
    assert (0 < D).
    { unfold D. rewrite Zdigits2_log2 by done. pose proof (Z.log2_nonneg s). lia. }
    split; [lia|].
    destruct (decide (D <= 53)); [done|].
    assert (2 ^ 53 <= 2 ^ (D - 1)) by (apply Z.pow_le_mono_r; lia). lia. }
  unfold float_sqrt, SFsqrt, SFsqrt_core_binary.
  change (fexp prec emax) with fexp64. rewrite Hd, !Z.div2_div.
  assert (Z.min (fexp64 ((53 + (D - 53) + 1) / 2)) ((D - 53) / 2) = F) as ->.
  { unfold fexp64, F. dlia. }
  assert (0 <= D - 53 - 2 * F) as Hsh by (unfold F; dlia).
  rewrite (shiftl_match _ _ Hsh), Hm, <- Z.mul_assoc, <- Z.pow_add_r by lia.
  replace (53 - D + (D - 53 - 2 * F)) with (- 2 * F) by lia.
  set (m' := s * 2 ^ (- 2 * F)).
  assert (2 ^ 104 <= m' < 2 ^ 106) as Hm'.
  { pose proof (Zdigits2_bounds s Hs) as Hb. fold D in Hb.
    assert (Zdigits2 m' = D - 2 * F) as Hdm.
    { unfold m'. rewrite Zdigits2_mul_pow2 by (unfold F; dlia). fold D. lia. }
    assert (0 < m').
    { unfold m'. apply Z.mul_pos_pos; [done|]. apply Z.pow_pos_nonneg; unfold F; dlia. }
    pose proof (Zdigits2_bounds m' ltac:(done)) as [H1 H2]. rewrite Hdm in H1, H2.
    assert (105 <= D - 2 * F <= 106) as HDF by (unfold F; dlia).
    split.
    - etrans; [|exact H1]. apply Z.pow_le_mono_r; lia.
    - eapply Z.lt_le_trans; [exact H2|]. apply Z.pow_le_mono_r; lia. }
  pose proof (Z.sqrtrem_spec m' ltac:(lia)) as Hsq.
  destruct (Z.sqrtrem m') as [q r]. destruct Hsq as [Hsq Hr].
  assert (0 <= q) as Hq0 by lia.
  assert (q * q <= m' < (q + 1) * (q + 1)) as Hqq by nia.
  assert (2 ^ 52 <= q < 2 ^ 53) as Hq.
  { by apply (sqrt_digits q m' 53). }
  set (l := if r =? 0 then loc_Exact else loc_Inexact (if r <=? q then Lt else Gt)).
  destruct (binary_round_aux_spec false q F l ltac:(lia)) as (M & HM & _ & Hst).
  assert (Zdigits2 q = 53) as Hdq by (by apply Zdigits2_unique).
  rewrite Hdq in HM, Hst.
  assert (fexp64 (53 + F) - F = 0) as E0 by (unfold fexp64, F; dlia).
  rewrite E0 in HM, Hst. simpl Z.max in HM, Hst.
  rewrite Z.div_1_r in HM. rewrite Z.add_0_r in Hst.
  exists q, M. split; [done|]. split; [lia|]. split; [done|].
  apply stands_for_value; [done|].
  intros sg E. rewrite E in Hst. destruct Hst as [_ Hst]. unfold F in Hst. dlia.
Qed.

(** The test [(dx**2 + dy**2) ** 0.5 < d] on small numbers. *)
Lemma sqrt_test_small s d :
  0 <= s < 2 ^ 53 -> d <= 2 ^ 26 ->
  exists f,
    float_of_int s = Done f /\
    (Qltb (float_value (float_sqrt f)) (inject_Z d) = true <-> 0 < d /\ s < d * d).
Proof.
  intros [Hs Hlt] Hd. destruct (decide (s = 0)) as [->|Hne].
  - exists (S754_zero false). split; [done|]. rewrite Qltb_true. simpl.
    change 0%Q with (inject_Z 0). rewrite <- Zlt_Qlt. nia.
  - destruct (float_of_int_small s ltac:(lia)) as (m & Hf & Hm & Hdig).
    eexists. split; [exact Hf|].
    destruct (float_sqrt_small s m ltac:(lia) Hm Hdig) as (q & M & HM & Hq & Hqq & Hval).
    set (D := Zdigits2 s) in *. set (F := (D + 1) / 2 - 53) in *.
    pose proof (Zdigits2_bounds s ltac:(lia)) as Hb. fold D in Hb.
    assert (1 <= D <= 53) as HD.
    { assert (0 < D).
      { unfold D. rewrite Zdigits2_log2 by lia. pose proof (Z.log2_nonneg s). lia. }
      split; [lia|].
      destruct (decide (D <= 53)); [done|].
      assert (2 ^ 53 <= 2 ^ (D - 1)) by (apply Z.pow_le_mono_r; lia). lia. }
    assert (F <= 0) as HF by (unfold F; dlia).
    rewrite Qltb_true, Hval. fold D F. rewrite (scaled_lt _ _ _ HF).
    set (K := 2 ^ (- F)) in *.
    assert (0 < K) as HK by (apply Z.pow_pos_nonneg; lia).
    assert (2 ^ (- 2 * F) = K * K) as EK.
    { unfold K. rewrite <- Z.pow_add_r by lia. f_equal. lia. }
    rewrite EK in Hqq. split.
    + intros HMd. split; [nia|]. nia.
    + intros [Hd0 Hsd].
      (* the root is exact enough: K is at least 2d *)
      assert (2 * d <= K) as HKd.
      { assert (d * d <= 2 ^ 26 * 2 ^ 26) by nia.
        assert (s < 2 ^ 52) by (change (2 ^ 26 * 2 ^ 26) with (2 ^ 52) in *; lia).
        assert (D <= 52).
        { destruct (decide (D <= 52)); [done|].
          assert (2 ^ 52 <= 2 ^ (D - 1)) by (apply Z.pow_le_mono_r; lia). lia. }
        assert (27 <= - F) by (unfold F; dlia).
        assert (2 ^ 27 <= K) by (apply Z.pow_le_mono_r; lia).
        change (2 ^ 27) with (2 * 2 ^ 26) in *. lia. }
      nia.
Qed.

(** *** The quotient of two integers *)

Lemma binary_round_aux_sign sx mx ex lx :
  match binary_round_aux prec emax sx mx ex lx with
  | S754_finite s _ _ => s = sx
  | _ => True
  end.
Proof.
  unfold binary_round_aux.
  destruct (shr_fexp prec emax mx ex lx) as [mrs' e'].
  destruct (shr_fexp prec emax _ e' loc_Exact) as [mrs'' e''].
  destruct (shr_m mrs''); [done| |done].
  by destruct (e'' <=? emax - prec).
Qed.

Lemma div_pow2_lower q n :
  0 < q -> 0 <= n <= Zdigits2 q - 1 -> 2 ^ (Zdigits2 q - 1 - n) <= q / 2 ^ n.
Proof.
  intros Hq Hn. pose proof (Zdigits2_bounds q Hq) as [H1 _].
  assert (0 < 2 ^ n) by (apply Z.pow_pos_nonneg; lia).
  apply Z.div_le_lower_bound; [done|].
  rewrite <- Z.pow_add_r by lia.
  by replace (n + (Zdigits2 q - 1 - n)) with (Zdigits2 q - 1) by lia.
Qed.

(** The quotient of a numerator that is not positive by a positive
    denominator is not positive. *)
Lemma true_divide_nonpos a b f :
  a <= 0 -> 0 < b -> true_divide a b = Done f -> (float_value f <= 0)%Q.
Proof.
  intros Ha Hb. unfold true_divide.
  destruct (b =? 0) eqn:Hb0; [apply Z.eqb_eq in Hb0; lia|].
  destruct a as [|a|a]; try lia; destruct b as [|b|b]; try lia; simpl.
  - intros [= <-]. done.
  - destruct (SFdiv_core_binary prec emax (Z.pos a) 0 (Z.pos b) 0) as [[mz ez] lz].
    pose proof (binary_round_aux_sign true mz ez lz) as Hsg.
    destruct (binary_round_aux prec emax true mz ez lz) as [s|s| |s m e]; simpl;
      try (intros [= <-]; done); try done.
    intros [= <-]. subst s. simpl.
    rewrite <- (Qmult_0_l (2 ^ e)). apply Qmult_le_compat_r; [done|].
    apply Qlt_le_weak, pow2_pos_Q.
Qed.

(** The quotient of a numerator by a positive denominator that is not
    greater is at least 1. *)
Lemma true_divide_ge_1 a b f :
  0 < b <= a -> true_divide a b = Done f -> (1 <= float_value f)%Q.
Proof.
  intros [Hb Ha]. unfold true_divide.
  destruct (b =? 0) eqn:Hb0; [apply Z.eqb_eq in Hb0; lia|].
  destruct a as [|a|a]; try lia; destruct b as [|b|b]; try lia.
  unfold exact_int, SFdiv, SFdiv_core_binary.
  change (fexp prec emax) with fexp64. rewrite !Z.add_0_r, !Z.sub_0_r. simpl xorb.
  set (d1 := Zdigits2 (Z.pos a)). set (d2 := Zdigits2 (Z.pos b)).
  set (e' := Z.min (fexp64 (d1 - d2)) 0).
  assert (e' <= 0) as He' by (unfold e'; lia).
  assert (0 <= 0 - e') as Hs0 by lia.
  rewrite (shiftl_match _ _ Hs0).
  set (s := 0 - e') in *.
  assert (0 < 2 ^ s) as Hpow by (apply Z.pow_pos_nonneg; lia).
  pose proof (Z_div_mod (Z.pos a * 2 ^ s) (Z.pos b) ltac:(lia)) as Hdm.
  destruct (Z.div_eucl (Z.pos a * 2 ^ s) (Z.pos b)) as [q r]. destruct Hdm as [Hdm Hr].
  assert (2 ^ s <= q) as Hq by nia.
  destruct (binary_round_aux_spec false q e' (new_location (Z.pos b) r) ltac:(lia))
    as (M & [HM _] & _ & Hst).
  set (n := Z.max 0 (fexp64 (Zdigits2 q + e') - e')) in *.
  assert (s + 1 <= Zdigits2 q) as Hdq.
  { rewrite Zdigits2_log2 by lia.
    assert (s <= Z.log2 q); [|lia]. apply Z.log2_le_pow2; lia. }
  assert (0 <= n <= Zdigits2 q - 1) as Hn.
  { unfold n, fexp64. unfold s in Hdq. lia. }
  pose proof (div_pow2_lower q n ltac:(lia) Hn) as Hlow.
  destruct (binary_round_aux prec emax false q e' (new_location (Z.pos b) r))
    as [sg|sg| |sg m e] eqn:Hres; simpl; try done.
  - intros [= <-]. destruct Hst as [_ ->].
    assert (0 < 2 ^ (Zdigits2 q - 1 - n)) by (apply Z.pow_pos_nonneg; lia). lia.
  - intros [= <-]. destruct Hst as (-> & [He1 He2] & HmM).
    (* m * 2^(e - (e' + n)) >= 2^(digits q - 1 - n), and digits q - 1 + e' >= 0 *)
    assert (2 ^ (Zdigits2 q - 1 - n) <= Z.pos m * 2 ^ (e - (e' + n))) as Hge by lia.
    simpl.
    assert (1 == inject_Z (2 ^ (Zdigits2 q - 1 - n)) * 2 ^ (- (Zdigits2 q - 1 - n)))%Q as E1.
    { rewrite Zpower_Qpower by lia. rewrite <- Qpower_plus by done.
      by replace (Zdigits2 q - 1 - n + - (Zdigits2 q - 1 - n)) with 0 by lia. }
    assert (inject_Z (Z.pos m) * 2 ^ e
            == inject_Z (Z.pos m * 2 ^ (e - (e' + n))) * 2 ^ (e' + n))%Q as E2.
    { rewrite inject_Z_mult, Zpower_Qpower by lia.
      rewrite <- Qmult_assoc, <- Qpower_plus by done.
      by replace (e - (e' + n) + (e' + n)) with e by lia. }
    rewrite E1, E2.
    apply Qle_trans with (inject_Z (2 ^ (Zdigits2 q - 1 - n)) * 2 ^ (e' + n))%Q.
    + apply Qmult_le_l; [rewrite Zpower_Qpower by lia; apply pow2_pos_Q|].
      apply Qpower_le_compat_l; [|done]. unfold s in Hdq. lia.
    + apply Qmult_le_compat_r; [rewrite <- Zle_Qle; exact Hge|].
      apply Qlt_le_weak, pow2_pos_Q.
Qed.

(** *** Overflow *)

Lemma Zdigits2_le_pow2 z k : 0 <= z < 2 ^ k -> 0 <= k -> Zdigits2 z <= k.
Proof.
  intros [Hz Hlt] Hk. destruct (decide (z = 0)) as [->|Hne]; [simpl; lia|].
  rewrite Zdigits2_log2 by lia.
  assert (Z.log2 z < k); [|lia]. apply Z.log2_lt_pow2; lia.
Qed.

(** The conversion of an integer overflows only from 2^1023 on. *)
Lemma float_of_int_Raise s e :
  float_of_int s = Raise e -> e = OverflowError /\ 2 ^ 1023 <= Z.abs s.
Proof.
  unfold float_of_int, binary_normalize, binary_round, shl_align.
  change (fexp prec emax) with fexp64.
  assert (forall sx p,
    finite (let '(mz, ez) :=
              match fexp64 (Z.pos (digits2_pos p) + 0) - 0 with
              | Z.neg d => (Pos.iter xO p d, fexp64 (Z.pos (digits2_pos p) + 0))
              | _ => (p, 0)
              end in binary_round_aux prec emax sx (Z.pos mz) ez loc_Exact) = Raise e ->
    e = OverflowError /\ 2 ^ 1023 <= Z.pos p) as Hp.
  { intros sx p. rewrite Z.add_0_r, Z.sub_0_r.
    change (Z.pos (digits2_pos p)) with (Zdigits2 (Z.pos p)).
    set (D := Zdigits2 (Z.pos p)).
    pose proof (Zdigits2_bounds (Z.pos p) ltac:(lia)) as [Hlo Hhi]. fold D in Hlo, Hhi.
    assert (0 < D).
    { unfold D. rewrite Zdigits2_log2 by lia. pose proof (Z.log2_nonneg (Z.pos p)). lia. }
    destruct (fexp64 D) as [|d|d] eqn:HD.
    - pose proof (binary_round_aux_spec sx (Z.pos p) 0 loc_Exact ltac:(lia)) as (M & _ & _ & Hst).
      fold D in Hst. rewrite Z.add_0_r, Z.sub_0_r, HD in Hst.
      destruct (binary_round_aux prec emax sx (Z.pos p) 0 loc_Exact); simpl; try done.
      simpl in Hst. lia.
    - pose proof (binary_round_aux_spec sx (Z.pos p) 0 loc_Exact ltac:(lia)) as (M & _ & _ & Hst).
      fold D in Hst. rewrite Z.add_0_r, Z.sub_0_r, HD in Hst.
      destruct (binary_round_aux prec emax sx (Z.pos p) 0 loc_Exact); simpl; try done.
      intros [= <-]. split; [done|]. destruct Hst as [_ Hst].
      assert (1024 <= D) by (unfold fexp64 in HD; lia).
      etrans; [|exact Hlo]. apply Z.pow_le_mono_r; lia.
    - assert (D - 53 = Z.neg d) as HD' by (unfold fexp64 in HD; lia).
      pose proof (binary_round_aux_spec sx (Z.pos (Pos.iter xO p d)) (Z.neg d) loc_Exact
                    ltac:(lia)) as (M & _ & _ & Hst).
      rewrite Zpos_iter_xO, Zdigits2_mul_pow2 in Hst by lia. fold D in Hst.
      assert (fexp64 (D + Z.pos d + Z.neg d) - Z.neg d = 0) as E0 by (unfold fexp64; lia).
      rewrite E0 in Hst. rewrite <- Zpos_iter_xO in Hst.
      destruct (binary_round_aux prec emax sx (Z.pos (Pos.iter xO p d)) (Z.neg d) loc_Exact);
        simpl; try done.
      simpl in Hst. lia. }
  destruct s as [|p|p]; [done| |]; intros H; by apply Hp in H.
Qed.

(** The quotient of two integers fails only on a zero divisor, or by
    overflow when the numerator is at least 2^1023. *)
Lemma true_divide_Raise a b e :
  true_divide a b = Raise e ->
  (e = ZeroDivisionError /\ b = 0) \/ (e = OverflowError /\ 2 ^ 1023 <= Z.abs a).
Proof.
  unfold true_divide. destruct (b =? 0) eqn:Hb0.
  { intros [= <-]. left. apply Z.eqb_eq in Hb0. done. }
  apply Z.eqb_neq in Hb0. intros H. right.
  assert (forall sx pa pb,
    finite (let '(mz, ez, lz) := SFdiv_core_binary prec emax (Z.pos pa) 0 (Z.pos pb) 0 in
            binary_round_aux prec emax sx mz ez lz) = Raise e ->
    e = OverflowError /\ 2 ^ 1023 <= Z.pos pa) as Hp.
  { clear. intros sx a b. unfold SFdiv_core_binary.
    change (fexp prec emax) with fexp64. rewrite !Z.add_0_r, !Z.sub_0_r.
    set (d1 := Zdigits2 (Z.pos a)). set (d2 := Zdigits2 (Z.pos b)).
    set (e' := Z.min (fexp64 (d1 - d2)) 0).
    assert (e' <= 0) as He' by (unfold e'; lia).
    assert (0 <= 0 - e') as Hs0 by lia.
    rewrite (shiftl_match _ _ Hs0).
    set (s := 0 - e') in *.
    assert (0 < 2 ^ s) as Hpow by (apply Z.pow_pos_nonneg; lia).
    pose proof (Z_div_mod (Z.pos a * 2 ^ s) (Z.pos b) ltac:(lia)) as Hdm.
    destruct (Z.div_eucl (Z.pos a * 2 ^ s) (Z.pos b)) as [q r]. destruct Hdm as [Hdm Hr].
    assert (0 <= q <= Z.pos a * 2 ^ s) as Hq by nia.
    destruct (binary_round_aux_spec sx q e' (new_location (Z.pos b) r) ltac:(lia))
      as (M & _ & _ & Hst).
    destruct (binary_round_aux prec emax sx q e' (new_location (Z.pos b) r));
      simpl; try done.
    intros [= <-]. split; [done|]. destruct Hst as [_ Hst].
    pose proof (Zdigits2_bounds (Z.pos a) ltac:(lia)) as [Hlo Hhi]. fold d1 in Hlo, Hhi.
    assert (0 < d1).
    { unfold d1. rewrite Zdigits2_log2 by lia. pose proof (Z.log2_nonneg (Z.pos a)). lia. }
    assert (Zdigits2 q <= d1 + s) as Hdq.
    { apply Zdigits2_le_pow2; [|lia]. rewrite Z.pow_add_r by lia. nia. }
    assert (1024 <= d1) by (unfold fexp64, s in *; lia).
    etrans; [|exact Hlo]. apply Z.pow_le_mono_r; lia. }
  destruct a as [|a|a], b as [|b|b]; try done; simpl in H; by apply Hp in H.
Qed.

(** On integers below 2^1023 the quotient by a non-zero integer is a
    float. *)
Lemma true_divide_total a b :
  b <> 0 -> Z.abs a < 2 ^ 1023 -> exists f, true_divide a b = Done f.
Proof.
  intros Hb Ha. destruct (true_divide a b) as [f|e] eqn:H; [eauto|].
  apply true_divide_Raise in H as [[_ ?]|[_ ?]]; lia.
Qed.

End Floats.

(** ** Distances *)

Lemma find_distance_sq_nonneg p1 p2 : 0 <= find_distance_sq p1 p2.
Proof.
  unfold find_distance_sq.
  pose proof (Z.pow_even_nonneg (p_x p1 - p_x p2) 2 ltac:(by exists 1)).
  pose proof (Z.pow_even_nonneg (p_y p1 - p_y p2) 2 ltac:(by exists 1)).
  lia.
Qed.

Lemma sqrt_lt_integer (n d : Z) :
  0 <= n -> (sqrt (IZR n) < IZR d)%R <-> 0 < d /\ n < d * d.
Proof.
  intros Hn. split.
  - intros H.
    assert (0 <= sqrt (IZR n))%R as H0 by apply sqrt_pos.
    assert (0 < IZR d)%R as Hd by lra.
    split; [by apply lt_IZR|].
    apply lt_IZR. rewrite mult_IZR.
    rewrite <- (sqrt_sqrt (IZR n)) by (by apply IZR_le).
    apply Rmult_le_0_lt_compat; done.
  - intros [Hd Hlt].
    rewrite <- (sqrt_square (IZR d)) by (apply IZR_le; lia).
    apply sqrt_lt_1_alt. split; [by apply IZR_le|].
    rewrite <- mult_IZR. by apply IZR_lt.
Qed.

(** The comparison of the Euclidean distance with an integer, on the
    integers. *)
Lemma euclidean_distance_lt p1 p2 d :
  (euclidean_distance p1 p2 < IZR d)%R <-> 0 < d /\ find_distance_sq p1 p2 < d * d.
Proof.
  unfold euclidean_distance.
  apply (sqrt_lt_integer _ _ (find_distance_sq_nonneg p1 p2)).
Qed.

(** Where the sum of the squares is below 2^53 and the radius at most 2^26,
    the test of [step] on floats decides the comparison of the Euclidean
    distance with the radius. *)
Lemma find_distance_lt_exact p1 p2 d :
  find_distance_sq p1 p2 < 2 ^ 53 -> d <= 2 ^ 26 ->
  exists near,
    find_distance_lt p1 p2 d = Done near /\
    (near = true <-> (euclidean_distance p1 p2 < IZR d)%R).
Proof.
  intros Hsq Hd.
  destruct (sqrt_test_small (find_distance_sq p1 p2) d) as (f & Hf & Htest);
    [split; [apply find_distance_sq_nonneg|done]|done|].
  unfold find_distance_lt, find_distance. rewrite Hf. simpl.
  eexists. split; [done|]. by rewrite Htest, euclidean_distance_lt.
Qed.

(** The test fails only when the sum of the squares is at least 2^1023. *)
Lemma find_distance_lt_Raise p1 p2 d e :
  find_distance_lt p1 p2 d = Raise e ->
  e = OverflowError /\ 2 ^ 1023 <= find_distance_sq p1 p2.
Proof.
  unfold find_distance_lt, find_distance. intros H.
  apply bind_Raise in H as [H | (r & _ & H)]; [|done].
  apply bind_Raise in H as [H | (x & _ & H)]; [|done].
  apply float_of_int_Raise in H as [-> H]. split; [done|].
  pose proof (find_distance_sq_nonneg p1 p2). lia.
Qed.

Lemma find_distance_lt_total p1 p2 d :
  find_distance_sq p1 p2 < 2 ^ 1023 -> exists near, find_distance_lt p1 p2 d = Done near.
Proof.
  intros Hsq. destruct (find_distance_lt p1 p2 d) as [near|e] eqn:H; [eauto|].
  apply find_distance_lt_Raise in H as [_ H]. lia.
Qed.

(** Beyond those bounds the test on floats and the comparison of the
    Euclidean distance part.  An agent at (200000000, 20000) is closer to
    the origin than 200000001, but the root is rounded up to 200000001.0 and
    the test fails; an agent at distance 2^53 + 1 is not closer than
    2^53 + 1, but the root is rounded down to 2^53 and the test succeeds. *)
Lemma find_distance_lt_rounds :
  (find_distance_lt (Person St_I 0 0) (Person St_S 200000000 20000) 200000001 = Done false /\
   (euclidean_distance (Person St_I 0 0) (Person St_S 200000000 20000)
      < IZR 200000001)%R) /\
  (find_distance_lt (Person St_I 0 0) (Person St_S (2 ^ 53 + 1) 0) (2 ^ 53 + 1) = Done true /\
   ~ (euclidean_distance (Person St_I 0 0) (Person St_S (2 ^ 53 + 1) 0)
        < IZR (2 ^ 53 + 1))%R).
Proof.
  split; (split; [vm_compute; reflexivity|]); rewrite euclidean_distance_lt.
  - vm_compute. done.
  - intros [_ H]. vm_compute in H. discriminate.
Qed.

(** ** The day loop *)

Lemma last_entry_snoc (l : list Z) (x : Z) : last_entry (l ++ [x]) = x.
Proof. unfold last_entry. apply List.last_last. Qed.

(** What a successful round of the loop does to the engine state. *)
Lemma day_Done v cfg s s' :
  day v cfg s = Done s' ->
  exists ppl inf rec g ppl' g',
    step v (cfg_infect_rate cfg) (cfg_recover_rate cfg) (cfg_infect_distance cfg)
         (people s) (infected s) (cfg_infect_distance cfg) (gen s)
      = Done (ppl, inf, rec, g) /\
    move_all (cfg_width cfg) (cfg_height cfg) (cfg_max_move cfg) ppl g = Done (ppl', g') /\
    people s' = ppl' /\ infected s' = inf /\ gen s' = g' /\
    step_count s' = step_count s + 1 /\
    simulated_I s' = simulated_I s ++ [len inf] /\
    match v with
    | SIR =>
        simulated_R s' = simulated_R s ++ [last_entry (simulated_R s) + rec] /\
        simulated_S s' = simulated_S s ++
          [number_of_people cfg - len inf - (last_entry (simulated_R s) + rec)]
    | SIS =>
        simulated_R s' = simulated_R s /\
        simulated_S s' = simulated_S s ++ [number_of_people cfg - len inf]
    end.
Proof.
  unfold day. intros H.
  apply bind_Done in H as ([[[ppl inf] rec] g] & Hstep & H).
  apply bind_Done in H as ([ppl' g'] & Hmove & H).
  exists ppl, inf, rec, g, ppl', g'.
  destruct v; injection H as <-; simpl; rewrite !last_entry_snoc; auto 10.
Qed.

(** Every round adds one frame, the population after the movement. *)
Lemma day_frames v cfg s s' :
  day v cfg s = Done s' -> frames s' = frames s ++ [people s'].
Proof.
  unfold day. intros H.
  apply bind_Done in H as ([[[ppl inf] rec] g] & _ & H).
  apply bind_Done in H as ([ppl' g'] & _ & H).
  by destruct v; injection H as <-.
Qed.

(** A property kept by every round holds when the loop ends, and the loop
    ends only when its condition fails. *)
Lemma day_loop_invariant (P : sim -> Prop) v cfg :
  (forall s s', P s -> continue cfg s = true -> day v cfg s = Done s' -> P s') ->
  forall fuel s s', P s -> day_loop v cfg fuel s = Some (Done s') ->
    P s' /\ continue cfg s' = false.
Proof.
  intros Hday. induction fuel as [|fuel IH]; intros s s' Hs; simpl;
    destruct (continue cfg s) eqn:Hc; try discriminate;
    try (intros [= <-]; by split).
  destruct (day v cfg s) as [s1|e] eqn:Hd; [|discriminate].
  apply IH. by eapply Hday.
Qed.

(** The loop raises only what a round raises. *)
Lemma day_loop_raises (E : exn -> Prop) v cfg :
  (forall s e, day v cfg s = Raise e -> E e) ->
  forall fuel s e, day_loop v cfg fuel s = Some (Raise e) -> E e.
Proof.
  intros Hday. induction fuel as [|fuel IH]; intros s e; simpl;
    destruct (continue cfg s); try discriminate.
  destruct (day v cfg s) as [s1|e1] eqn:Hd; [apply IH|].
  intros [= <-]. by eapply Hday.
Qed.

(** What follows the loop keeps the state the loop ended in, and needs a
    frame. *)
Lemma save_and_solve_Done v suffix cfg s out :
  save_and_solve v suffix cfg s = Done out ->
  final out = s /\ t out = time_grid s /\ frames s <> [] /\
  output_gif_path out = ("simulations/" ++ simulation_name cfg ++ suffix)%string.
Proof.
  unfold save_and_solve. intros H.
  apply bind_Done in H as ([] & Hsave & H).
  apply bind_Done in H as ([] & _ & H). injection H as <-. simpl.
  repeat split. intros E. by rewrite E in Hsave.
Qed.

(** The parts of a completed run. *)
Lemma simulate_Done v suffix fuel cfg g out :
  simulate v suffix fuel cfg g = Some (Done out) ->
  exists ppl inf g0,
    populate cfg g = Done (ppl, inf, g0) /\
    day_loop v cfg fuel (initial v cfg ppl inf g0) = Some (Done (final out)) /\
    t out = time_grid (final out) /\
    frames (final out) <> [].
Proof.
  unfold simulate. destruct (populate cfg g) as [[[ppl inf] g0]|e]; [|discriminate].
  destruct (set_mode _ _); [|discriminate].
  destruct (day_loop v cfg fuel _) as [[s|e]|] eqn:Hl; try discriminate.
  intros [= H]. apply save_and_solve_Done in H as (<- & Ht & Hf & _).
  exists ppl, inf, g0. auto.
Qed.

(** *** Population conservation in the recorded trajectory *)

Lemma conserved_initial v cfg ppl inf g :
  conserved v (number_of_people cfg) (initial v cfg ppl inf g).
Proof.
  unfold conserved, initial; simpl. repeat split; try by destruct v.
  intros [|d] S_d I_d; simpl; [|done]. intros [= <-] [= <-].
  destruct v; [exists 0; split; [done|]|]; lia.
Qed.

Lemma lookup_snoc_same {A : Type} (l1 l2 : list A) (x y : A) (d : nat) (a b : A) :
  length l1 = length l2 ->
  (l1 ++ [x]) !! d = Some a -> (l2 ++ [y]) !! d = Some b ->
  (l1 !! d = Some a /\ l2 !! d = Some b) \/ (d = length l1 /\ a = x /\ b = y).
Proof.
  intros Hlen Ha Hb.
  destruct (decide (d < length l1)%nat) as [Hd|Hd].
  - left. rewrite lookup_app_l in Ha by done. rewrite lookup_app_l in Hb by lia. done.
  - right. rewrite lookup_app_r in Ha by lia. rewrite lookup_app_r in Hb by lia.
    rewrite <- Hlen in Hb.
    destruct (d - length l1)%nat as [|k] eqn:Hk; simpl in *; [|done].
    injection Ha as <-. injection Hb as <-. split; [lia|done].
Qed.

Lemma conserved_day v cfg s s' :
  conserved v (number_of_people cfg) s -> day v cfg s = Done s' ->
  conserved v (number_of_people cfg) s'.
Proof.
  intros (Hcount & HlenS & HlenR & Hsum) Hd.
  apply day_Done in Hd as (ppl & inf & rec & g & ppl' & g' & _ & _ & _ & _ & _
                           & Hsc & HI & Htraj).
  unfold conserved, len in *. rewrite Hsc, HI, length_app. simpl.
  split; [lia|].
  destruct v; destruct Htraj as [HR HS]; rewrite HR, HS, ?length_app; simpl.
  - repeat split; try lia.
    intros d S_d I_d HSd HId.
    destruct (lookup_snoc_same _ _ _ _ _ _ _ HlenS HSd HId) as [[H1 H2]|(-> & -> & ->)].
    + destruct (Hsum d S_d I_d H1 H2) as (R_d & HRd & Heq).
      exists R_d. split; [|done]. by apply lookup_app_l_Some.
    + eexists. split; [|].
      * rewrite HlenS, <- HlenR, lookup_app_r by lia.
        by rewrite Nat.sub_diag.
      * lia.
  - repeat split; try lia; try done.
    intros d S_d I_d HSd HId.
    destruct (lookup_snoc_same _ _ _ _ _ _ _ HlenS HSd HId) as [[H1 H2]|(-> & -> & ->)].
    + by eapply Hsum.
    + lia.
Qed.

Lemma conserved_run v suffix fuel cfg g out :
  simulate v suffix fuel cfg g = Some (Done out) ->
  conserved v (number_of_people cfg) (final out).
Proof.
  intros H. apply simulate_Done in H as (ppl & inf & g0 & _ & Hloop & _).
  eapply (day_loop_invariant (conserved v (number_of_people cfg))); [| |exact Hloop].
  - intros s s' Hs _. by apply conserved_day.
  - apply conserved_initial.
Qed.

(** C1. Population conservation in the agent-based trajectory: on every
    recorded day [d] of a completed run, [simulated_S[d] + simulated_I[d] +
    simulated_R[d] = number_of_people] in the SIR variant and
    [simulated_S[d] + simulated_I[d] = number_of_people] in the SIS
    variant.  The recorded days are 0, ..., [step_count]. *)
Theorem population_conservation fuel cfg g out d :
  Z.of_nat d <= step_count (final out) ->
  (create_SIR_simulation fuel cfg g = Some (Done out) ->
   exists S_d I_d R_d,
     simulated_S (final out) !! d = Some S_d /\
     simulated_I (final out) !! d = Some I_d /\
     simulated_R (final out) !! d = Some R_d /\
     S_d + I_d + R_d = number_of_people cfg) /\
  (create_SIS_simulation fuel cfg g = Some (Done out) ->
   exists S_d I_d,
     simulated_S (final out) !! d = Some S_d /\
     simulated_I (final out) !! d = Some I_d /\
     S_d + I_d = number_of_people cfg).
Proof.
  intros Hd. split; intros Hrun; apply conserved_run in Hrun;
    destruct Hrun as (Hcount & HlenS & _ & Hsum); unfold len in Hcount.
  - destruct (lookup_lt_is_Some_2 (simulated_I (final out)) d) as [I_d HI]; [lia|].
    destruct (lookup_lt_is_Some_2 (simulated_S (final out)) d) as [S_d HS]; [lia|].
    destruct (Hsum d S_d I_d HS HI) as (R_d & HR & Heq). by exists S_d, I_d, R_d.
  - destruct (lookup_lt_is_Some_2 (simulated_I (final out)) d) as [I_d HI]; [lia|].
    destruct (lookup_lt_is_Some_2 (simulated_S (final out)) d) as [S_d HS]; [lia|].
    exists S_d, I_d. split; [done|]. split; [done|]. exact (Hsum d S_d I_d HS HI).
Qed.

Lemma population_conservation_witness :
  exists out,
    create_SIR_simulation 4 small_config small_rng = Some (Done out) /\
    exists S_d I_d R_d,
      simulated_S (final out) !! 1%nat = Some S_d /\
      simulated_I (final out) !! 1%nat = Some I_d /\
      simulated_R (final out) !! 1%nat = Some R_d /\
      S_d + I_d + R_d = 2.
Proof.
  eexists. split; [vm_compute; reflexivity|].
  apply (population_conservation 4 small_config small_rng _ 1); [vm_compute; discriminate|].
  vm_compute; reflexivity.
Defined.

(** *** Termination of the day loop *)

Lemma continue_true cfg s :
  continue cfg s = true -> infected s <> [] /\ step_count s <= max_days cfg.
Proof.
  unfold continue, len. intros [H1 H2]%andb_prop. split; [|lia].
  intros E. rewrite E in H1. discriminate.
Qed.

Lemma continue_false cfg s :
  continue cfg s = false -> infected s = [] \/ max_days cfg < step_count s.
Proof.
  unfold continue, len. intros [H|H]%andb_false_iff.
  - left. destruct (infected s); [done|].
    rewrite Z.gtb_ltb in H. apply Z.ltb_ge in H. cbn [length] in H. lia.
  - right. lia.
Qed.

(** [max_days + 1 - step_count] rounds of fuel are always enough. *)
Lemma day_loop_terminates v cfg fuel s :
  (Z.to_nat (max_days cfg + 1 - step_count s) <= fuel)%nat ->
  exists r, day_loop v cfg fuel s = Some r.
Proof.
  revert s. induction fuel as [|fuel IH]; intros s Hfuel; simpl;
    destruct (continue cfg s) eqn:Hc; eauto.
  - apply continue_true in Hc as [_ Hc]. lia.
  - apply continue_true in Hc as [_ Hc].
    destruct (day v cfg s) as [s1|e] eqn:Hd; [|eauto].
    apply IH. apply day_Done in Hd as (? & ? & ? & ? & ? & ? & _ & _ & _ & _ & _ & Hsc & _).
    lia.
Qed.

(** More fuel does not change a result. *)
Lemma day_loop_more_fuel v cfg fuel fuel' s r :
  (fuel <= fuel')%nat -> day_loop v cfg fuel s = Some r -> day_loop v cfg fuel' s = Some r.
Proof.
  revert fuel' s. induction fuel as [|fuel IH]; intros fuel' s Hle; simpl.
  - destruct fuel'; simpl; destruct (continue cfg s); done.
  - destruct fuel' as [|fuel']; [lia|]. simpl.
    destruct (continue cfg s); [|done].
    destruct (day v cfg s); [|done]. apply IH. lia.
Qed.

Lemma simulate_terminates v suffix cfg g fuel :
  (Z.to_nat (max_days cfg + 1) <= fuel)%nat ->
  exists r, simulate v suffix fuel cfg g = Some r /\
            simulate v suffix (Z.to_nat (max_days cfg + 1)) cfg g = Some r.
Proof.
  intros Hfuel. unfold simulate.
  destruct (populate cfg g) as [[[ppl inf] g0]|e]; [|eauto].
  destruct (set_mode _ _); [|eauto].
  destruct (day_loop_terminates v cfg (Z.to_nat (max_days cfg + 1))
              (initial v cfg ppl inf g0)) as [r Hr]; [simpl; lia|].
  rewrite Hr, (day_loop_more_fuel _ _ _ _ _ _ Hfuel Hr).
  destruct r; eauto.
Qed.

(** What the loop keeps from round to round. *)
Lemma stops_initial v cfg ppl inf g0 :
  loop_record cfg inf (initial v cfg ppl inf g0).
Proof.
  unfold loop_record, initial, len. simpl.
  split; [lia|]. split; [done|]. split; [done|]. split; [done|].
  split; [lia|]. intros d I_d Hd. lia.
Qed.

Lemma stops_day v cfg inf s s' :
  loop_record cfg inf s -> continue cfg s = true -> day v cfg s = Done s' ->
  loop_record cfg inf s'.
Proof.
  intros (Hsc & Hfr & Hlen & H0 & Hlast & Hpos) Hc Hd.
  apply continue_true in Hc as [Hne Hcap].
  pose proof (day_frames _ _ _ _ Hd) as Hfr'.
  apply day_Done in Hd as (ppl1 & inf1 & rec & g1 & ppl' & g' & _ & _ & _ & Hinf & _
                           & Hsc' & HI & _).
  assert (0 < len (infected s)) as Hposlen.
  { unfold len. destruct (infected s); [done|]. cbn [length]. lia. }
  unfold loop_record, len in *. rewrite Hsc', HI, Hfr', Hinf, !length_app. simpl.
  split; [lia|]. split; [lia|]. split; [lia|]. split; [lia|]. split.
  - intros _. split.
    + destruct (decide (step_count s = 0)) as [E|E].
      * by rewrite <- (H0 E).
      * apply Hlast. lia.
    + rewrite lookup_app_r by lia.
      replace (Z.to_nat (step_count s + 1) - length (simulated_I s))%nat with 0%nat by lia.
      done.
  - intros d I_d Hd Hlook.
    destruct (decide (Z.of_nat d < step_count s)) as [Hlt|Hge].
    + apply (Hpos d); [lia|]. rewrite lookup_app_l in Hlook by lia. done.
    + assert (d = Z.to_nat (step_count s)) as -> by lia.
      rewrite lookup_app_l in Hlook by lia.
      destruct Hlast as [_ Hlast]; [lia|]. rewrite Hlast in Hlook.
      injection Hlook as <-. done.
Qed.

(** A loop that ended without an exception has stopped at the first state
    whose infected list is empty or whose [step_count] exceeds [max_days]. *)
Lemma day_loop_stops v cfg fuel ppl inf g0 s :
  day_loop v cfg fuel (initial v cfg ppl inf g0) = Some (Done s) ->
  loop_record cfg inf s /\ (infected s = [] \/ max_days cfg < step_count s).
Proof.
  intros Hloop.
  apply (day_loop_invariant (loop_record cfg inf)) in Hloop as [Hrec Hc].
  - split; [done|]. by apply continue_false.
  - intros s1 s2. apply stops_day.
  - apply stops_initial.
Qed.

(** C5. Termination of the run loop.  Whatever the configuration and the
    random draws, [max_days + 1] executions of the loop body suffice for the
    two functions to end (with a result or an exception), and allowing more
    changes nothing.  A loop that ended without an exception has stopped as
    soon as the infected list was empty or [step_count] exceeded [max_days]:
    it ends in such a state; the body was run [step_count] times, once per
    frame, and at most [max_days + 1] times; the infected list was not empty
    before the first round, nor after any round but the last one, whose
    lengths are the entries 1, ..., [step_count - 1] of [simulated_I]. *)
Theorem run_loop_terminates cfg g :
  (forall fuel, (Z.to_nat (max_days cfg + 1) <= fuel)%nat ->
     (exists r, create_SIR_simulation fuel cfg g = Some r /\
        create_SIR_simulation (Z.to_nat (max_days cfg + 1)) cfg g = Some r) /\
     (exists r, create_SIS_simulation fuel cfg g = Some r /\
        create_SIS_simulation (Z.to_nat (max_days cfg + 1)) cfg g = Some r)) /\
  (forall v fuel ppl inf g0 s,
     day_loop v cfg fuel (initial v cfg ppl inf g0) = Some (Done s) ->
     (infected s = [] \/ max_days cfg < step_count s) /\
     0 <= step_count s <= Z.max 0 (max_days cfg + 1) /\
     len (frames s) = step_count s /\
     (1 <= step_count s -> inf <> []) /\
     (forall d I_d, 1 <= Z.of_nat d < step_count s ->
        simulated_I s !! d = Some I_d -> 0 < I_d)) /\
  (forall fuel out,
     create_SIR_simulation fuel cfg g = Some (Done out) \/
     create_SIS_simulation fuel cfg g = Some (Done out) ->
     (infected (final out) = [] \/ max_days cfg < step_count (final out)) /\
     1 <= step_count (final out) <= max_days cfg + 1 /\
     len (frames (final out)) = step_count (final out) /\
     (forall d I_d, 1 <= Z.of_nat d < step_count (final out) ->
        simulated_I (final out) !! d = Some I_d -> 0 < I_d)).
Proof.
  assert (forall v c fuel ppl inf g0 s,
     day_loop v c fuel (initial v c ppl inf g0) = Some (Done s) ->
     (infected s = [] \/ max_days c < step_count s) /\
     0 <= step_count s <= Z.max 0 (max_days c + 1) /\
     len (frames s) = step_count s /\
     (1 <= step_count s -> inf <> []) /\
     (forall d I_d, 1 <= Z.of_nat d < step_count s ->
        simulated_I s !! d = Some I_d -> 0 < I_d)) as Hloop.
  { intros v c fuel ppl inf g0 s H.
    apply day_loop_stops in H as [(Hsc & Hfr & _ & _ & Hlast & Hpos) Hstop].
    split; [done|]. split; [done|]. split; [done|]. split; [|done].
    intros H1. by apply Hlast. }
  assert (forall v suffix c fuel out,
     simulate v suffix fuel c g = Some (Done out) ->
     (infected (final out) = [] \/ max_days c < step_count (final out)) /\
     1 <= step_count (final out) <= max_days c + 1 /\
     len (frames (final out)) = step_count (final out) /\
     (forall d I_d, 1 <= Z.of_nat d < step_count (final out) ->
        simulated_I (final out) !! d = Some I_d -> 0 < I_d)) as Hrun.
  { intros v suffix c fuel out H.
    apply simulate_Done in H as (ppl & inf & g0 & _ & H & _ & Hfr).
    apply Hloop in H as (Hstop & Hsc & Hlen & _ & Hpos).
    assert (1 <= step_count (final out)).
    { rewrite <- Hlen. unfold len. destruct (frames (final out)); [done|].
      cbn [length]. lia. }
    split; [done|]. split; [lia|]. split; done. }
  split; [|split].
  - intros fuel Hfuel. split.
    + by apply simulate_terminates.
    + by apply (simulate_terminates SIS "_SIS.gif" (sis_overrides cfg)).
  - intros v fuel ppl inf g0 s. apply Hloop.
  - intros fuel out [H|H].
    + by apply Hrun in H.
    + by apply Hrun in H.
Qed.

Lemma run_loop_terminates_witness :
  (exists r, create_SIR_simulation 9 small_config small_rng = Some r /\
     create_SIR_simulation 4 small_config small_rng = Some r) /\
  exists out,
    create_SIR_simulation 4 small_config small_rng = Some (Done out) /\
    (infected (final out) = [] \/ 3 < step_count (final out)) /\
    1 <= step_count (final out) <= 4 /\
    len (frames (final out)) = step_count (final out) /\
    (forall d I_d, 1 <= Z.of_nat d < step_count (final out) ->
       simulated_I (final out) !! d = Some I_d -> 0 < I_d).
Proof.
  split.
  - apply (proj1 (run_loop_terminates small_config small_rng) 9%nat). vm_compute. lia.
  - eexists. split; [vm_compute; reflexivity|].
    apply (proj2 (proj2 (run_loop_terminates small_config small_rng)) 4%nat).
    left. vm_compute. reflexivity.
Defined.

(** ** Initial placement *)

Lemma randint_Done a b g z g' :
  randint a b g = Done (z, g') ->
  a <= z <= b /\ z = a + raw g mod (b - a + 1) /\ g' = advance g.
Proof.
  unfold randint. destruct (b <? a) eqn:Hab; [discriminate|].
  intros [= <- <-]. apply Z.ltb_ge in Hab.
  pose proof (Z.mod_pos_bound (raw g) (b - a + 1) ltac:(lia)) as Hm.
  set (m := raw g mod (b - a + 1)) in *. repeat split; lia.
Qed.

Lemma randint_Raise a b g e : randint a b g = Raise e -> e = ValueError /\ b < a.
Proof.
  unfold randint. destruct (b <? a) eqn:Hab; [|discriminate].
  intros [= <-]. apply Z.ltb_lt in Hab. done.
Qed.

Lemma place_Done cfg ppl inf g ppl' inf' g' :
  place cfg (ppl, inf, g) = Done (ppl', inf', g') ->
  exists ratio x y,
    seed_ratio cfg = Done ratio /\
    let s := if Qltb (fst (random g)) (float_value ratio) then St_I else St_S in
    0 <= x <= cfg_width cfg /\ 0 <= y <= cfg_height cfg /\
    ppl' = ppl ++ [Person s x y] /\
    inf' = (if bool_decide (s = St_I) then inf ++ [length ppl] else inf) /\
    g' = advance (advance (advance g)).
Proof.
  unfold place, seed_ratio. simpl. intros H.
  apply bind_Done in H as (ratio & Hr & H).
  apply bind_Done in H as ([x g1] & Hx & H).
  apply bind_Done in H as ([y g2] & Hy & H).
  apply randint_Done in Hx as (Hx & _ & ->). apply randint_Done in Hy as (Hy & _ & ->).
  injection H as <- <- <-. exists ratio, x, y. simpl. auto 10.
Qed.

Lemma filter_ext_elem {A : Type} (P1 P2 : A -> Prop)
    `{!forall x, Decision (P1 x)} `{!forall x, Decision (P2 x)} (l : list A) :
  (forall x, x ∈ l -> P1 x <-> P2 x) -> filter P1 l = filter P2 l.
Proof.
  induction l as [|x l IH]; intros Hl; [done|].
  rewrite !filter_cons.
  assert (P1 x <-> P2 x) as Hx by (apply Hl; by left).
  rewrite IH by (intros y Hy; apply Hl; by right).
  destruct (decide (P1 x)), (decide (P2 x)); tauto.
Qed.

Lemma refs_with_snoc {B : Type} `{EqDecision B} (f : person -> B) (b : B) ppl a :
  refs_with f b (ppl ++ [a]) =
  refs_with f b ppl ++ (if bool_decide (f a = b) then [length ppl] else []).
Proof.
  unfold refs_with. rewrite length_app. simpl.
  rewrite Nat.add_1_r, seq_S, filter_app. simpl. f_equal.
  - apply filter_ext_elem. intros k Hk%elem_of_seq.
    rewrite lookup_app_l by lia. done.
  - rewrite filter_cons, filter_nil.
    rewrite lookup_app_r by lia. rewrite Nat.sub_diag. simpl.
    destruct (decide (Some (f a) = Some b)) as [E|E];
      destruct (bool_decide_reflect (f a = b)); congruence.
Qed.

Lemma elem_of_refs_with {B : Type} `{EqDecision B} (f : person -> B) (b : B) ppl k :
  k ∈ refs_with f b ppl <-> exists a, ppl !! k = Some a /\ f a = b.
Proof.
  unfold refs_with. rewrite list_elem_of_filter, elem_of_seq. split.
  - intros [Hk _]. destruct (ppl !! k) as [a|]; [|done].
    injection Hk as <-. eauto.
  - intros (a & Hk & <-). rewrite Hk. split; [done|].
    apply lookup_lt_Some in Hk. lia.
Qed.

Lemma NoDup_refs_with {B : Type} `{EqDecision B} (f : person -> B) (b : B) ppl :
  NoDup (refs_with f b ppl).
Proof. apply NoDup_filter, NoDup_seq. Qed.

Lemma infected_refs_snoc ppl a :
  infected_refs (ppl ++ [a]) =
  infected_refs ppl ++ (if bool_decide (p_state a = St_I) then [length ppl] else []).
Proof. apply refs_with_snoc. Qed.

Lemma placed_place cfg g st st' :
  placed cfg g st -> place cfg st = Done st' ->
  placed cfg g st' /\ length (st'.1.1) = S (length (st.1.1)).
Proof.
  destruct st as [[ppl inf] g1], st' as [[ppl' inf'] g2].
  intros (Htape & Hcur & Hinf & Hag) Hp.
  apply place_Done in Hp as (ratio & x & y & Hr & Hx & Hy & -> & -> & ->). simpl.
  split; [|rewrite length_app; simpl; lia].
  split; [done|]. split; [rewrite length_app; simpl; lia|]. split.
  - rewrite infected_refs_snoc. simpl. rewrite Hinf.
    destruct (bool_decide _); [done|by rewrite app_nil_r].
  - intros k a H. destruct (decide (k < length ppl)%nat) as [Hk|Hk].
    + rewrite lookup_app_l in H by done. by apply Hag.
    + rewrite lookup_app_r in H by lia.
      destruct (k - length ppl)%nat as [|j] eqn:Hj; simpl in H; [|done].
      injection H as <-. simpl. split; [|done].
      exists ratio. split; [done|].
      unfold seeded_state, seed_draw.
      replace (cursor g + 3 * k)%nat with (cursor g1) by lia.
      rewrite <- Htape. by destruct g1.
Qed.

Lemma placed_fold cfg g (l : list nat) st st' :
  placed cfg g st -> foldM (fun st _ => place cfg st) st l = Done st' ->
  placed cfg g st' /\ length (st'.1.1) = (length (st.1.1) + length l)%nat.
Proof.
  revert st. induction l as [|j l IH]; intros st Hst; simpl.
  - intros [= <-]. split; [done|lia].
  - intros H. apply bind_Done in H as (st1 & H1 & H2).
    destruct (placed_place _ _ _ _ Hst H1) as [Hst1 Hlen1].
    destruct (IH _ Hst1 H2) as [Hst' Hlen']. split; [done|lia].
Qed.

Lemma populate_Done cfg g ppl inf g' :
  populate cfg g = Done (ppl, inf, g') ->
  placed cfg g (ppl, inf, g') /\ length ppl = Z.to_nat (number_of_people cfg).
Proof.
  unfold populate. intros H.
  apply (placed_fold cfg g) in H as [H1 H2].
  - split; [done|]. simpl in H2. by rewrite length_seq in H2.
  - simpl. split; [done|]. split; [lia|]. split; [done|]. intros k a Hk. done.
Qed.

(** The entries of day 0 are written before the loop and never touched. *)
Lemma day0_kept v suffix fuel cfg g out :
  simulate v suffix fuel cfg g = Some (Done out) ->
  simulated_I (final out) !! 0%nat = Some (num_infected cfg) /\
  simulated_S (final out) !! 0%nat = Some (number_of_people cfg - num_infected cfg) /\
  (v = SIR -> simulated_R (final out) !! 0%nat = Some 0).
Proof.
  intros H. apply simulate_Done in H as (ppl & inf & g0 & _ & Hloop & _).
  refine (proj1 (day_loop_invariant (fun s =>
    simulated_I s !! 0%nat = Some (num_infected cfg) /\
    simulated_S s !! 0%nat = Some (number_of_people cfg - num_infected cfg) /\
    (v = SIR -> simulated_R s !! 0%nat = Some 0)) v cfg _ fuel _ _ _ Hloop)).
  - intros s s' (HI & HS & HR) _ Hd.
    apply day_Done in Hd as (? & ? & ? & ? & ? & ? & _ & _ & _ & _ & _ & _ & HI' & Ht).
    rewrite HI'. split; [by apply lookup_app_l_Some|].
    destruct v; destruct Ht as [HR' HS']; rewrite HS', HR'.
    + split; [by apply lookup_app_l_Some|]. intros _. apply lookup_app_l_Some. by apply HR.
    + split; [by apply lookup_app_l_Some|]. done.
  - simpl. split; [done|]. split; [done|]. intros ->. done.
Qed.



(** The ratio is a float: [2 / 3] is rounded down, so that the draw equal to
    that float places the agent susceptible, although it is less than two
    thirds, and the next smaller draw places it infected. *)
Lemma seed_ratio_is_rounded :
  (exists ratio,
     seed_ratio thirds_config = Done ratio /\
     (float_value ratio == 6004799503160661 # 2 ^ 53)%Q /\
     (float_value ratio < 2 # 3)%Q /\
     (seed_draw thirds_rng 0 == float_value ratio)%Q) /\
  exists g',
    populate thirds_config thirds_rng
    = Done ([Person St_S 3 4; Person St_I 5 5; Person St_S 6 6], [1%nat], g').
Proof.
  split.
  - eexists. split; [vm_compute; reflexivity|]. vm_compute. done.
  - eexists. vm_compute. reflexivity.
Qed.

(** ** The spatial grid *)

Lemma get_cell_Done x y d : d <> 0 -> get_cell x y d = Done (x / d, y / d).
Proof. intros Hd. unfold get_cell. by rewrite (proj2 (Z.eqb_neq d 0) Hd). Qed.

Lemma get_cell_Raise x y d e : get_cell x y d = Raise e -> e = ZeroDivisionError /\ d = 0.
Proof.
  unfold get_cell. destruct (d =? 0) eqn:Hd; [|discriminate].
  intros [= <-]. by apply Z.eqb_eq in Hd.
Qed.

Lemma populate_grid_snoc people a d :
  populate_grid (people ++ [a]) d =
  grid ← populate_grid people d;
  cell ← get_cell (p_x a) (p_y a) d;
  Done (grid_append grid cell (length people)).
Proof.
  unfold populate_grid. rewrite imap_app, foldM_app. simpl.
  rewrite Nat.add_0_r.
  destruct (foldM _ ∅ (imap pair people)) as [grid|e]; simpl; [|done].
  by destruct (get_cell (p_x a) (p_y a) d).
Qed.

(** The grid built from [people] holds, in each cell, the agents of that
    cell in the order of [people]; a cell nobody is in is missing. *)
Lemma populate_grid_Done people d grid :
  populate_grid people d = Done grid ->
  forall c, default [] (grid !! c) = refs_with (cell_of d) c people.
Proof.
  revert grid. induction people as [|a people IH] using rev_ind; intros grid.
  - intros [= <-] c. by rewrite lookup_empty.
  - rewrite populate_grid_snoc. intros H.
    apply bind_Done in H as (grid0 & H0 & H).
    apply bind_Done in H as (cell & Hcell & H). injection H as <-.
    intros c. rewrite refs_with_snoc, <- (IH grid0 H0).
    assert (d <> 0) as Hd.
    { intros ->. discriminate Hcell. }
    rewrite get_cell_Done in Hcell by done. injection Hcell as <-.
    unfold grid_append. fold (cell_of d a).
    destruct (bool_decide_reflect (cell_of d a = c)) as [->|Hne].
    + by rewrite lookup_insert_eq.
    + rewrite lookup_insert_ne by done. by rewrite app_nil_r.
Qed.

Lemma populate_grid_total people d :
  d <> 0 -> exists grid, populate_grid people d = Done grid.
Proof.
  intros Hd. induction people as [|a people [grid IH]] using rev_ind.
  - by exists ∅.
  - rewrite populate_grid_snoc, IH. simpl. rewrite get_cell_Done by done. simpl. eauto.
Qed.

Lemma populate_grid_Raise people d e :
  populate_grid people d = Raise e -> e = ZeroDivisionError /\ d = 0.
Proof.
  unfold populate_grid. apply (foldM_raises (fun e => e = ZeroDivisionError /\ d = 0)).
  intros grid [k p] e' H. apply bind_Raise in H as [H | (c & _ & H)]; [|done].
  by apply get_cell_Raise in H.
Qed.

Lemma foldM_ext {A B : Type} (f f' : A -> B -> result A) (l : list B) :
  (forall a b, f a b = f' a b) -> forall a, foldM f a l = foldM f' a l.
Proof.
  intros Hf. induction l as [|b l IH]; intros a; simpl; [done|].
  rewrite Hf. destruct (f' a b); simpl; [apply IH|done].
Qed.

(** A fold of folds is the fold over the concatenation. *)
Lemma foldM_bind {A B C : Type} (f : A -> C -> result A) (k : B -> list C) (l : list B) :
  forall a, foldM (fun a b => foldM f a (k b)) a l = foldM f a (l ≫= k).
Proof.
  induction l as [|b l IH]; intros a; simpl; [done|].
  rewrite foldM_app. destruct (foldM f a (k b)); simpl; [apply IH|done].
Qed.

(** The scan of the block goes through [neighbors_of], in that order. *)
Lemma scan_block_neighbors infect_rate infect_distance grid i cell st :
  scan_block infect_rate infect_distance grid i cell st =
  foldM (fun st p => contact infect_rate infect_distance i p st) st (neighbors_of grid cell).
Proof.
  unfold scan_block, neighbors_of.
  rewrite <- (foldM_bind _ (fun dx => dy ← offsets; default [] (grid !! (cell.1 + dx, cell.2 + dy)))).
  apply foldM_ext. intros st1 dx.
  rewrite <- (foldM_bind _ (fun dy => default [] (grid !! (cell.1 + dx, cell.2 + dy)))).
  apply foldM_ext. intros st2 dy.
  by destruct (grid !! _).
Qed.

Lemma elem_of_neighbors_of grid cell k :
  k ∈ neighbors_of grid cell <->
  exists dx dy, dx ∈ offsets /\ dy ∈ offsets /\
    k ∈ default [] (grid !! (cell.1 + dx, cell.2 + dy)).
Proof.
  unfold neighbors_of. rewrite list_elem_of_bind. split.
  - intros (dx & Hk & Hdx). apply list_elem_of_bind in Hk as (dy & Hk & Hdy). eauto.
  - intros (dx & dy & Hdx & Hdy & Hk). exists dx. split; [|done].
    apply list_elem_of_bind. eauto.
Qed.

(** Two integers less than [d] apart fall in the same column of cells or
    in adjacent ones. *)
Lemma cell_near x1 x2 d :
  0 < d -> (x1 - x2) ^ 2 < d * d -> exists dx, dx ∈ offsets /\ x2 / d = x1 / d + dx.
Proof.
  intros Hd Hsq.
  assert (x1 - d < x2 < x1 + d) as [Hlo Hhi] by nia.
  assert (x1 / d - 1 <= x2 / d) as H1.
  { replace (x1 / d - 1) with ((x1 + (-1) * d) / d) by (rewrite Z.div_add by lia; lia).
    apply Z.div_le_mono; lia. }
  assert (x2 / d <= x1 / d + 1) as H2.
  { replace (x1 / d + 1) with ((x1 + 1 * d) / d) by (rewrite Z.div_add by lia; lia).
    apply Z.div_le_mono; lia. }
  exists (x2 / d - x1 / d). split; [|lia].
  unfold offsets.
  assert (x2 / d - x1 / d = -1 \/ x2 / d - x1 / d = 0 \/ x2 / d - x1 / d = 1)
    as [-> | [-> | ->]] by lia; set_solver.
Qed.

(** Two agents less than [d] apart are less than [d] apart along each
    axis. *)
Lemma euclidean_distance_axes a b d :
  (euclidean_distance a b < IZR d)%R ->
  0 < d /\ (p_x a - p_x b) ^ 2 < d * d /\ (p_y a - p_y b) ^ 2 < d * d.
Proof.
  intros [H1 H2]%euclidean_distance_lt. unfold find_distance_sq in H2.
  pose proof (Z.pow_even_nonneg (p_x a - p_x b) 2 ltac:(by exists 1)).
  pose proof (Z.pow_even_nonneg (p_y a - p_y b) 2 ltac:(by exists 1)).
  lia.
Qed.



(** ** The loop over the infected agents *)

Lemma state_at_insert ppl p b s k :
  ppl !! p = Some b ->
  state_at (<[p := set_state s b]> ppl) k = if decide (k = p) then Some s else state_at ppl k.
Proof.
  intros Hp. unfold state_at. destruct (decide (k = p)) as [->|Hne].
  - rewrite list_lookup_insert_eq; [done|]. by eapply lookup_lt_Some.
  - by rewrite list_lookup_insert_ne.
Qed.

Lemma state_at_alter ppl i s k :
  state_at (alter (set_state s) i ppl) k =
  if decide (k = i) then (fun _ => s) <$> state_at ppl k else state_at ppl k.
Proof.
  unfold state_at. destruct (decide (k = i)) as [->|Hne].
  - rewrite list_lookup_alter_eq. by destruct (ppl !! i).
  - by rewrite list_lookup_alter_ne.
Qed.

Lemma consistent_iff ppl L :
  consistent ppl L <-> NoDup L /\ forall k, k ∈ L <-> state_at ppl k = Some St_I.
Proof.
  unfold consistent, infected_refs, state_at.
  assert (forall k, k ∈ refs_with p_state St_I ppl <-> p_state <$> ppl !! k = Some St_I) as Hrefs.
  { intros k. rewrite elem_of_refs_with. split.
    - intros (a & -> & <-). done.
    - destruct (ppl !! k) as [a|]; [|done]. intros [= <-]. eauto. }
  split.
  - intros HP. split.
    + rewrite HP. apply NoDup_refs_with.
    + intros k. rewrite HP. apply Hrefs.
  - intros [Hnd HL]. apply NoDup_Permutation; [done|apply NoDup_refs_with|].
    intros k. rewrite HL. symmetry. apply Hrefs.
Qed.

(** What a contact that does not fail has done: nothing, or a draw after
    the test of a susceptible agent succeeded. *)
Lemma contact_Done infect_rate infect_distance i p st st' :
  contact infect_rate infect_distance i p st = Done st' ->
  st' = st \/
  exists a b,
    sc_people st !! i = Some a /\ sc_people st !! p = Some b /\
    p_state b = St_S /\ find_distance_lt a b infect_distance = Done true /\
    ((Qltb (fst (random (sc_rng st))) infect_rate = false /\
      st' = Scan (sc_people st) (sc_new_infected st) (sc_recover st)
                 (snd (random (sc_rng st)))) \/
     (Qltb (fst (random (sc_rng st))) infect_rate = true /\
      st' = Scan (<[p := set_state St_I b]> (sc_people st))
                 (sc_new_infected st ++ [p]) (sc_recover st)
                 (snd (random (sc_rng st))))).
Proof.
  unfold contact.
  destruct (sc_people st !! i) as [a|]; [|intros [= <-]; by left].
  destruct (sc_people st !! p) as [b|]; [|intros [= <-]; by left].
  destruct (is_state St_S b) eqn:HS; [|intros [= <-]; by left].
  apply bool_decide_eq_true in HS.
  destruct (find_distance_lt a b infect_distance) as [[|]|] eqn:Hnear;
    cbn [mbind result_bind]; [|intros [= <-]; by left|done].
  destruct (random (sc_rng st)) as [u g] eqn:Hr. cbn [fst snd].
  destruct (Qltb u infect_rate) eqn:Hu; intros [= <-]; right; exists a, b; auto 10.
Qed.

Section ScanInvariant.
Variable v : variant.
Variables infect_rate recover_rate : Q.
Variable infect_distance : Z.
Variables (L done todo : list nat) (i : nat).
Hypothesis HL : L = done ++ i :: todo.
Hypothesis Hnodup : NoDup L.

Lemma todo_not_recovered st k :
  scan_inv v L done (i :: todo) st -> k ∈ i :: todo -> k ∈ L /\ k ∉ sc_recover st.
Proof.
  intros Hinv Hk. split.
  - rewrite HL. apply elem_of_app. by right.
  - intros Hrec. eapply elem_of_sublist in Hrec; [|exact (inv_recover _ _ _ _ _ Hinv)].
    rewrite HL in Hnodup. apply NoDup_app in Hnodup as (_ & Hdisj & _).
    by apply (Hdisj k).
Qed.

(** A contact keeps the invariant. *)
Lemma contact_inv p st st' :
  scan_inv v L done (i :: todo) st ->
  contact infect_rate infect_distance i p st = Done st' ->
  scan_inv v L done (i :: todo) st'.
Proof.
  intros Hinv [->|(a & b & _ & Hp & HS & _ & [[_ ->]|[_ ->]])]%contact_Done;
    [done|by destruct Hinv|].
  assert (state_at (sc_people st) p = Some St_S) as HpS.
  { unfold state_at. by rewrite Hp, <- HS. }
  destruct Hinv as [Hrec Hnd Hnew Hst Hrc].
  assert (p ∉ sc_new_infected st) as Hpnew.
  { intros Hin. assert (state_at (sc_people st) p = Some St_I) as E
      by (apply Hst; by right). congruence. }
  assert (p ∈ L -> p ∈ sc_recover st) as HpL.
  { intros Hin. destruct (decide (p ∈ sc_recover st)) as [|Hn]; [done|].
    assert (state_at (sc_people st) p = Some St_I) as E
      by (apply Hst; by left). congruence. }
  constructor; simpl.
  - done.
  - apply NoDup_app. split; [done|]. split; [|apply NoDup_singleton].
    intros k Hk ->%list_elem_of_singleton. done.
  - intros k [Hk | ->%list_elem_of_singleton]%elem_of_app.
    + destruct (Hnew k Hk) as (H1 & H2 & H3). auto.
    + split; [|split].
      * intros Hin.
        destruct (todo_not_recovered st p (ScanInv _ _ _ _ _ Hrec Hnd Hnew Hst Hrc) Hin)
          as [H1 H2]. auto.
      * done.
      * intros Hv Hin. specialize (Hrc p (HpL Hin) Hpnew).
        rewrite Hv in Hrc. simpl in Hrc. congruence.
  - intros k. rewrite (state_at_insert _ _ _ _ _ Hp), elem_of_app, list_elem_of_singleton.
    destruct (decide (k = p)) as [->|Hne].
    + split; auto.
    + rewrite Hst. tauto.
  - intros k Hk Hn. rewrite (state_at_insert _ _ _ _ _ Hp).
    destruct (decide (k = p)) as [->|Hne].
    + exfalso. apply Hn, elem_of_app. right. by apply list_elem_of_singleton.
    + apply Hrc; [done|]. intros Hin. apply Hn, elem_of_app. by left.
Qed.

Lemma scan_block_inv grid cell st st' :
  scan_inv v L done (i :: todo) st ->
  scan_block infect_rate infect_distance grid i cell st = Done st' ->
  scan_inv v L done (i :: todo) st'.
Proof.
  rewrite scan_block_neighbors. apply foldM_invariant.
  intros st1 p st2 _. apply contact_inv.
Qed.

(** The recovery draw moves [i] from [todo] to [done]. *)
Lemma recovery_inv st :
  scan_inv v L done (i :: todo) st ->
  scan_inv v L (done ++ [i]) todo (recovery v recover_rate i st).
Proof.
  intros Hinv. destruct (todo_not_recovered st i Hinv ltac:(by left)) as [HiL Hirec].
  destruct Hinv as [Hrec Hnd Hnew Hst Hrc].
  assert (i ∉ sc_new_infected st) as Hinew.
  { intros Hin. destruct (Hnew i Hin) as (H1 & _). apply H1. by left. }
  assert (state_at (sc_people st) i = Some St_I) as HiI by (apply Hst; by left).
  unfold recovery. destruct (random (sc_rng st)) as [u g].
  destruct (Qltb u recover_rate); constructor; simpl.
  - by apply sublist_app.
  - done.
  - intros k Hk. destruct (Hnew k Hk) as (H1 & H2 & H3).
    split; [|split; [|done]].
    + intros Hin. apply H1. by right.
    + intros Hin. apply elem_of_app. left. auto.
  - intros k. rewrite state_at_alter, elem_of_app, list_elem_of_singleton.
    destruct (decide (k = i)) as [->|Hne].
    + rewrite HiI. simpl. split.
      * intros [= E]. by destruct v.
      * intros [[_ Hn] | Hin]; [|done]. exfalso. apply Hn. by right.
    + rewrite Hst. tauto.
  - intros k [Hk | ->%list_elem_of_singleton]%elem_of_app Hn; rewrite state_at_alter.
    + destruct (decide (k = i)) as [->|Hne]; [done|]. by apply Hrc.
    + rewrite decide_True by done. by rewrite HiI.
  - by apply sublist_inserts_r.
  - done.
  - intros k Hk. destruct (Hnew k Hk) as (H1 & H2 & H3).
    split; [|done]. intros Hin. apply H1. by right.
  - done.
  - done.
Qed.

Lemma visit_inv grid cell_size st st' :
  scan_inv v L done (i :: todo) st ->
  visit v infect_rate recover_rate infect_distance grid cell_size st i = Done st' ->
  scan_inv v L (done ++ [i]) todo st'.
Proof.
  intros Hinv. unfold visit.
  assert (state_at (sc_people st) i = Some St_I) as HiI.
  { apply (inv_state _ _ _ _ _ Hinv). left.
    by apply (todo_not_recovered st i Hinv); left. }
  unfold state_at in HiI.
  destruct (sc_people st !! i) as [a|]; [|done].
  intros H. apply bind_Done in H as (cell & _ & H).
  apply bind_Done in H as (st1 & Hblock & H). injection H as <-.
  apply recovery_inv. by eapply scan_block_inv.
Qed.
End ScanInvariant.

Lemma scan_fold_inv v infect_rate recover_rate infect_distance grid cell_size L :
  NoDup L ->
  forall todo done st st',
    L = done ++ todo ->
    scan_inv v L done todo st ->
    foldM (visit v infect_rate recover_rate infect_distance grid cell_size) st todo = Done st' ->
    scan_inv v L L [] st'.
Proof.
  intros Hnd. induction todo as [|i todo IH]; intros done st st' HL Hinv; simpl.
  - intros [= <-]. rewrite app_nil_r in HL. by subst done.
  - intros H. apply bind_Done in H as (st1 & H1 & H2).
    apply (IH (done ++ [i]) st1); [by rewrite <- app_assoc| |done].
    by eapply visit_inv.
Qed.

Lemma scan_inv_initial v ppl L g :
  consistent ppl L -> scan_inv v L [] L (Scan ppl [] [] g).
Proof.
  intros [Hnd HL]%consistent_iff. constructor; simpl.
  - done.
  - apply NoDup_nil_2.
  - intros k Hk. by apply elem_of_nil in Hk.
  - intros k. rewrite <- HL. split.
    + intros Hk. left. split; [done|]. apply not_elem_of_nil.
    + intros [[Hk _] | Hk]; [done|]. by apply elem_of_nil in Hk.
  - intros k Hk. by apply elem_of_nil in Hk.
Qed.

(** The loop over a consistent list ends with the invariant. *)
Lemma scan_all_inv v infect_rate recover_rate infect_distance ppl L cell_size g st :
  consistent ppl L ->
  scan_all v infect_rate recover_rate infect_distance ppl L cell_size g = Done st ->
  scan_inv v L L [] st.
Proof.
  intros Hc H. unfold scan_all in H. apply bind_Done in H as (grid & _ & H).
  eapply (scan_fold_inv _ _ _ _ _ _ L); [|symmetry; apply app_nil_l| |exact H].
  - by apply consistent_iff in Hc as [? _].
  - by apply scan_inv_initial.
Qed.

(** Whatever the list, the agents that recover are taken from it in
    order. *)
Lemma scan_fold_recover v infect_rate recover_rate infect_distance grid cell_size todo :
  forall st st',
    foldM (visit v infect_rate recover_rate infect_distance grid cell_size) st todo = Done st' ->
    exists rs, sc_recover st' = sc_recover st ++ rs /\ rs `sublist_of` todo.
Proof.
  assert (forall i p st st', contact infect_rate infect_distance i p st = Done st' ->
            sc_recover st' = sc_recover st) as Hcontact.
  { intros i p st st'.
    by intros [->|(a & b & _ & _ & _ & _ & [[_ ->]|[_ ->]])]%contact_Done. }
  induction todo as [|i todo IH]; intros st st'; simpl.
  - intros [= <-]. exists []. by rewrite app_nil_r.
  - intros H. apply bind_Done in H as (st1 & H1 & H2).
    destruct (IH _ _ H2) as (rs & Hrs & Hsub).
    unfold visit in H1. destruct (sc_people st !! i) as [a|].
    + apply bind_Done in H1 as (cell & _ & H1).
      apply bind_Done in H1 as (st0 & Hst0 & H1). injection H1 as <-.
      assert (sc_recover st0 = sc_recover st) as Hblock.
      { rewrite scan_block_neighbors in Hst0. revert Hst0.
        apply (foldM_invariant (fun s => sc_recover s = sc_recover st)); [|done].
        intros s p s' _ Hs Hc. by rewrite (Hcontact _ _ _ _ Hc). }
      unfold recovery in Hrs. destruct (random _) as [u g0].
      destruct (Qltb u recover_rate); simpl in Hrs; rewrite Hblock in Hrs.
      * exists (i :: rs). rewrite Hrs, <- app_assoc. split; [done|]. by apply sublist_skip.
      * exists rs. split; [done|]. by apply sublist_cons.
    + injection H1 as <-. exists rs. split; [done|]. by apply sublist_cons.
Qed.

(** ** The removal of the recovered agents *)

Section Removal.
Variable ppl : list person.
Variable rc : health.

Local Abbreviation val := (value_at ppl).

Lemma list_remove_first r l1 l2 :
  (forall j, j ∈ l1 -> val j <> val r) ->
  list_remove ppl r (l1 ++ r :: l2) = Done (l1 ++ l2).
Proof.
  induction l1 as [|j l1 IH]; intros Hl1; simpl.
  - by rewrite bool_decide_eq_true_2.
  - rewrite bool_decide_eq_false_2 by (apply Hl1; by left).
    rewrite IH; [done|]. intros k Hk. apply Hl1. by right.
Qed.

Lemma list_remove_Done r l l' :
  list_remove ppl r l = Done l' ->
  exists l1 e l2, l = l1 ++ e :: l2 /\ l' = l1 ++ l2 /\ val e = val r.
Proof.
  revert l'. induction l as [|j l IH]; intros l'; simpl; [discriminate|].
  destruct (bool_decide_reflect (ppl !! j = ppl !! r)) as [E|E].
  - intros [= <-]. by exists [], j, l.
  - intros H. apply bind_Done in H as (l0 & H0 & H). injection H as <-.
    destruct (IH _ H0) as (l1 & e & l2 & -> & -> & He). by exists (j :: l1), e, l2.
Qed.

Lemma list_remove_total r l :
  val r ∈ val <$> l -> exists l', list_remove ppl r l = Done l'.
Proof.
  induction l as [|j l IH]; simpl.
  - intros H. by apply elem_of_nil in H.
  - intros H. destruct (bool_decide_reflect (ppl !! j = ppl !! r)) as [E|E]; [eauto|].
    apply elem_of_cons in H as [H|H]; [by symmetry in H|].
    destruct (IH H) as [l' ->]. simpl. eauto.
Qed.

Lemma values_removed l1 e l2 r rs :
  val e = val r ->
  val <$> (r :: rs) ⊆+ val <$> (l1 ++ e :: l2) ->
  val <$> rs ⊆+ val <$> (l1 ++ l2).
Proof.
  intros He. rewrite !fmap_app, !fmap_cons, He.
  intros H. apply (submseteq_app_inv_l _ _ [val r]). simpl.
  etrans; [exact H|]. by rewrite Permutation_middle.
Qed.

(** Removing values that are there succeeds. *)
Lemma remove_all_total rs :
  forall l, val <$> rs ⊆+ val <$> l -> exists l', remove_all ppl l rs = Done l'.
Proof.
  induction rs as [|r rs IH]; intros l Hsub; simpl; [eauto|].
  destruct (list_remove_total r l) as [l0 Hl0].
  { eapply elem_of_submseteq; [|exact Hsub]. rewrite fmap_cons. by left. }
  unfold remove_all in *. simpl. rewrite Hl0. simpl.
  apply list_remove_Done in Hl0 as (l1 & e & l2 & -> & -> & He).
  apply IH. by eapply values_removed.
Qed.
Lemma same_value_same_state e r : val e = val r -> state_at ppl e = state_at ppl r.
Proof. unfold state_at, val. by intros ->. Qed.

Lemma sublist_drop_middle (F l1 l2 : list nat) e :
  F `sublist_of` l1 ++ e :: l2 -> e ∉ F -> F `sublist_of` l1 ++ l2.
Proof.
  intros (F1 & F2 & -> & H1 & H2)%sublist_app_r He.
  apply sublist_app; [done|].
  apply sublist_cons_r in H2 as [H2 | (F' & -> & H2)]; [done|].
  exfalso. apply He, elem_of_app. right. by left.
Qed.

(** The removal loop succeeds; it leaves no agent in the recovered state in
    the list; and when every agent of [rs] is in the recovered state it
    removes exactly the agents of [rs]. *)
Lemma remove_all_spec rs :
  forall l, removal_pre ppl rc l rs ->
  exists l',
    remove_all ppl l rs = Done l' /\
    l' `sublist_of` l /\
    (forall e, e ∈ l' -> state_at ppl e <> Some rc) /\
    ((forall r, r ∈ rs -> state_at ppl r = Some rc) ->
     forall e, e ∈ l' <-> e ∈ l /\ (e ∉ rs)).
Proof.
  induction rs as [|r rs IH]; intros l [Hnd Hord Hcov Hval].
  - exists l. split; [done|]. split; [done|]. split.
    + intros e He Hst. by apply (elem_of_nil e), Hcov.
    + intros _ e. split; [|tauto]. intros He. split; [done|]. apply not_elem_of_nil.
  - unfold remove_all. simpl. fold (remove_all ppl).
    destruct (decide (state_at ppl r = Some rc)) as [Hr|Hr].
    + (* [r] is in the recovered state: the first match is [r] itself *)
      rewrite filter_cons_True in Hord by done.
      apply sublist_cons_l in Hord as (a & b & -> & Hb).
      assert ((r ∉ a) /\ (r ∉ b)) as [Hra Hrb].
      { apply NoDup_app in Hnd as (_ & Hdis & Hndb).
        apply NoDup_cons in Hndb as [Hrb _]. split; [|done].
        intros Hin. apply (Hdis r Hin). by left. }
      assert (forall j, j ∈ a -> val j <> val r) as Hfirst.
      { intros j Hj Hv.
        assert (state_at ppl j = Some rc) as Hjst by (by rewrite (same_value_same_state _ _ Hv)).
        assert (j ∈ r :: rs) as Hjrs
          by (apply Hcov; [apply elem_of_app; by left|done]).
        apply elem_of_cons in Hjrs as [-> | Hjrs]; [done|].
        assert (j ∈ b) as Hjb.
        { eapply elem_of_sublist; [|exact Hb]. by apply list_elem_of_filter. }
        apply NoDup_app in Hnd as (_ & Hdis & _). apply (Hdis j Hj). by right. }
      rewrite (list_remove_first _ _ _ Hfirst). simpl.
      destruct (IH (a ++ b)) as (l' & Hl' & Hsub & Hnone & Hexact).
      { constructor.
        - apply NoDup_app in Hnd as (Ha & Hdis & Hb').
          apply NoDup_cons in Hb' as [_ Hb'].
          apply NoDup_app. split; [done|]. split; [|done].
          intros x Hx Hxb. apply (Hdis x Hx). by right.
        - by apply sublist_inserts_l.
        - intros e He Hst.
          assert (e ∈ r :: rs) as Hers.
          { apply Hcov; [|done]. apply elem_of_app in He as [He|He];
              apply elem_of_app; [by left|right; by right]. }
          apply elem_of_cons in Hers as [-> | Hers]; [|done].
          apply elem_of_app in He as [He|He]; done.
        - by eapply values_removed. }
      exists l'. split; [done|]. split.
      { etrans; [exact Hsub|]. apply sublist_app; [done|]. by apply sublist_cons. }
      split; [done|].
      intros Hall e. rewrite Hexact by (intros r' Hr'; apply Hall; by right).
      rewrite !elem_of_app, !elem_of_cons. split.
      * intros [[He|He] Hn]; (split; [tauto|]); intros [-> | Hin]; done.
      * intros [[He|[-> | He]] Hn]; tauto.
    + (* [r] was infected again: the agent removed is not in the recovered state *)
      rewrite filter_cons_False in Hord by done.
      destruct (list_remove_total r l) as [l0 Hl0].
      { eapply elem_of_submseteq; [|exact Hval]. rewrite fmap_cons. by left. }
      rewrite Hl0. simpl.
      apply list_remove_Done in Hl0 as (l1 & e0 & l2 & -> & -> & He0).
      assert (state_at ppl e0 <> Some rc) as He0st
        by (by rewrite (same_value_same_state _ _ He0)).
      destruct (IH (l1 ++ l2)) as (l' & Hl' & Hsub & Hnone & Hexact).
      { constructor.
        - apply NoDup_app in Hnd as (Ha & Hdis & Hb').
          apply NoDup_cons in Hb' as [_ Hb'].
          apply NoDup_app. split; [done|]. split; [|done].
          intros x Hx Hxb. apply (Hdis x Hx). by right.
        - eapply sublist_drop_middle; [exact Hord|].
          intros [Hst _]%list_elem_of_filter. done.
        - intros e He Hst.
          assert (e ∈ r :: rs) as Hers.
          { apply Hcov; [|done]. apply elem_of_app in He as [He|He];
              apply elem_of_app; [by left|right; by right]. }
          apply elem_of_cons in Hers as [-> | Hers]; done.
        - by eapply values_removed. }
      exists l'. split; [done|]. split.
      { etrans; [exact Hsub|]. apply sublist_app; [done|]. by apply sublist_cons. }
      split; [done|].
      intros Hall. exfalso. apply Hr, Hall. by left.
Qed.
End Removal.

(** ** What the loop over the infected agents keeps, whatever its input *)

Lemma random_nonneg g : (0 <= fst (random g))%Q.
Proof.
  unfold random, Qle. simpl.
  pose proof (Z.mod_pos_bound (raw g) (2 ^ 53) ltac:(lia)). lia.
Qed.

Lemma random_lt_1 g : (fst (random g) < 1)%Q.
Proof.
  unfold random, Qlt. simpl.
  pose proof (Z.mod_pos_bound (raw g) (2 ^ 53) ltac:(lia)). lia.
Qed.

(** A draw is never below a rate that is not positive, and always below a
    rate of one or more. *)
Lemma draw_fails g q : (q <= 0)%Q -> Qltb (fst (random g)) q = false.
Proof.
  intros Hq. destruct (Qltb (fst (random g)) q) eqn:E; [|done].
  apply Qltb_true in E. pose proof (random_nonneg g).
  exfalso. apply (Qlt_irrefl 0). eapply Qle_lt_trans; [eassumption|].
  eapply Qlt_le_trans; eassumption.
Qed.

Lemma draw_succeeds g q : (1 <= q)%Q -> Qltb (fst (random g)) q = true.
Proof.
  intros Hq. apply Qltb_true. eapply Qlt_le_trans; [apply random_lt_1|done].
Qed.

Lemma Forall2_alter_right {A : Type} (R : A -> A -> Prop) (f : A -> A) (l k : list A) i :
  Forall2 R l k ->
  (forall a b, l !! i = Some a -> k !! i = Some b -> R a (f b)) ->
  Forall2 R l (alter f i k).
Proof.
  intros H. revert i. induction H as [|a b l k Hab H IH]; intros i Hf; [constructor|].
  destruct i as [|i]; simpl.
  - constructor; [by apply Hf|done].
  - constructor; [done|]. apply IH. intros a' b' Ha Hb. by apply Hf.
Qed.

Lemma insert_as_alter (ppl : list person) p b s :
  ppl !! p = Some b -> <[p := set_state s b]> ppl = alter (set_state s) p ppl.
Proof.
  revert p. induction ppl as [|a ppl IH]; intros [|p]; simpl; try done.
  - by intros [= ->].
  - intros H. by rewrite IH.
Qed.

(** What one contact does: nothing but perhaps a draw, or the infection of
    a susceptible agent [p] that the test finds within reach of [i]. *)
Lemma contact_cases infect_rate infect_distance i p st st' :
  contact infect_rate infect_distance i p st = Done st' ->
  (sc_people st' = sc_people st /\ sc_new_infected st' = sc_new_infected st /\
   sc_recover st' = sc_recover st /\
   (forall a b, sc_people st !! i = Some a -> sc_people st !! p = Some b ->
      p_state b = St_S -> find_distance_lt a b infect_distance = Done true ->
      Qltb (fst (random (sc_rng st))) infect_rate = false)) \/
  (exists a b,
     sc_people st !! i = Some a /\ sc_people st !! p = Some b /\
     p_state b = St_S /\ find_distance_lt a b infect_distance = Done true /\
     Qltb (fst (random (sc_rng st))) infect_rate = true /\
     sc_people st' = alter (set_state St_I) p (sc_people st) /\
     sc_new_infected st' = sc_new_infected st ++ [p] /\
     sc_recover st' = sc_recover st).
Proof.
  unfold contact. destruct (random (sc_rng st)) as [u g] eqn:Hr.
  destruct (sc_people st !! i) as [a|] eqn:Hi; [|intros [= <-]; left; by repeat split].
  destruct (sc_people st !! p) as [b|] eqn:Hp; [|intros [= <-]; left; by repeat split].
  destruct (is_state St_S b) eqn:HS.
  - destruct (find_distance_lt a b infect_distance) as [[|]|] eqn:Hd;
      cbn [mbind result_bind]; [| |done].
    + destruct (Qltb u infect_rate) eqn:Hu; intros [= <-].
      * right. exists a, b. apply bool_decide_eq_true in HS.
        rewrite (insert_as_alter _ _ _ _ Hp). by repeat split.
      * left. simpl. repeat split; try done; by intros a' b' [= <-] [= <-].
    + intros [= <-]. left. repeat split; try done; intros a' b' [= <-] [= <-]; congruence.
  - intros [= <-]. left. apply bool_decide_eq_false in HS.
    repeat split; try done; intros a' b' [= <-] [= <-] Hst; done.
Qed.

(** What the recovery draw does. *)
Lemma recovery_cases v recover_rate i st :
  let st' := recovery v recover_rate i st in
  sc_new_infected st' = sc_new_infected st /\
  ((Qltb (fst (random (sc_rng st))) recover_rate = false /\
    sc_people st' = sc_people st /\ sc_recover st' = sc_recover st) \/
   (Qltb (fst (random (sc_rng st))) recover_rate = true /\
    sc_people st' = alter (set_state (recovered_state v)) i (sc_people st) /\
    sc_recover st' = sc_recover st ++ [i])).
Proof.
  unfold recovery. destruct (random (sc_rng st)) as [u g] eqn:Hr. simpl.
  destruct (Qltb u recover_rate); simpl; auto.
Qed.

(** A contact keeps the agents it finds. *)
Lemma contact_is_Some infect_rate infect_distance i p k st st' :
  contact infect_rate infect_distance i p st = Done st' ->
  is_Some (sc_people st !! k) -> is_Some (sc_people st' !! k).
Proof.
  intros [(-> & _) | (_ & _ & _ & _ & _ & _ & _ & -> & _)]%contact_cases [a Ha]; [eauto|].
  rewrite list_lookup_alter. destruct (decide (p = k)) as [->|]; rewrite Ha; simpl; eauto.
Qed.

(** A property kept by every contact and by every recovery draw of an agent
    of the list holds at the end of the loop. *)
Lemma scan_fold_invariant v infect_rate recover_rate infect_distance grid cell_size
    (P : scan -> Prop) (L : list nat) :
  (forall i p st st', i ∈ L -> P st ->
     contact infect_rate infect_distance i p st = Done st' -> P st') ->
  (forall i st, i ∈ L -> is_Some (sc_people st !! i) -> P st ->
     P (recovery v recover_rate i st)) ->
  forall todo st st',
    todo ⊆ L -> P st ->
    foldM (visit v infect_rate recover_rate infect_distance grid cell_size) st todo = Done st' ->
    P st'.
Proof.
  intros Hcontact Hrecovery.
  induction todo as [|i todo IH]; intros st st' Hsub HP; simpl.
  - by intros [= <-].
  - intros H. apply bind_Done in H as (st1 & H1 & H2).
    assert (i ∈ L) as Hi by (apply Hsub; by left).
    apply (IH st1 st'); [intros k Hk; apply Hsub; by right| |done].
    unfold visit in H1. destruct (sc_people st !! i) as [a|] eqn:Ha.
    + apply bind_Done in H1 as (cell & _ & H1).
      apply bind_Done in H1 as (st0 & Hst0 & H1). injection H1 as <-.
      rewrite scan_block_neighbors in Hst0.
      apply Hrecovery; [done| |].
      * revert Hst0.
        apply (foldM_invariant (fun s => is_Some (sc_people s !! i))); [|by eauto].
        intros s p s' _ Hs Hc. by eapply contact_is_Some.
      * revert Hst0. apply (foldM_invariant P); [|done].
        intros s p s' _ Hs Hc. by eapply Hcontact.
    + by injection H1 as <-.
Qed.

Lemma scan_all_invariant v infect_rate recover_rate infect_distance (P : scan -> Prop)
    ppl L cell_size g st :
  (forall i p st st', i ∈ L -> P st ->
     contact infect_rate infect_distance i p st = Done st' -> P st') ->
  (forall i st, i ∈ L -> is_Some (sc_people st !! i) -> P st ->
     P (recovery v recover_rate i st)) ->
  P (Scan ppl [] [] g) ->
  scan_all v infect_rate recover_rate infect_distance ppl L cell_size g = Done st ->
  P st.
Proof.
  intros Hc Hr H0 H. unfold scan_all in H. apply bind_Done in H as (grid & _ & H).
  by eapply (scan_fold_invariant _ _ _ _ _ _ P L Hc Hr L).
Qed.

(** The agents at the end of the loop are related to those at its start by
    any relation that contains the two changes the loop makes. *)
Lemma contact_related infect_rate infect_distance (R : person -> person -> Prop)
    ppl i p st st' :
  (forall a b, R a b -> p_state b = St_S -> R a (set_state St_I b)) ->
  Forall2 R ppl (sc_people st) ->
  contact infect_rate infect_distance i p st = Done st' ->
  Forall2 R ppl (sc_people st').
Proof.
  intros Hinf HP [(-> & _) | (a & b & _ & Hp & HS & _ & _ & -> & _)]%contact_cases; [done|].
  apply Forall2_alter_right; [done|].
  intros a0 b0 Ha0 Hb0. rewrite Hp in Hb0. injection Hb0 as <-.
  apply Hinf; [|done]. by eapply Forall2_lookup_lr.
Qed.

Lemma recovery_related v recover_rate (R : person -> person -> Prop) ppl i st :
  (forall a b, R a b -> R a (set_state (recovered_state v) b)) ->
  Forall2 R ppl (sc_people st) ->
  Forall2 R ppl (sc_people (recovery v recover_rate i st)).
Proof.
  intros Hrec HP.
  destruct (recovery_cases v recover_rate i st) as (_ & [(_ & -> & _) | (_ & -> & _)]);
    [done|].
  apply Forall2_alter_right; [done|].
  intros a0 b0 Ha0 Hb0. apply Hrec. by eapply Forall2_lookup_lr.
Qed.

Lemma scan_all_related v infect_rate recover_rate infect_distance
    (R : person -> person -> Prop) ppl L cell_size g st :
  (forall a, R a a) ->
  (forall a b, R a b -> p_state b = St_S -> R a (set_state St_I b)) ->
  (forall a b, R a b -> R a (set_state (recovered_state v) b)) ->
  scan_all v infect_rate recover_rate infect_distance ppl L cell_size g = Done st ->
  Forall2 R ppl (sc_people st).
Proof.
  intros Hrefl Hinf Hrec.
  apply (scan_all_invariant _ _ _ _ (fun st => Forall2 R ppl (sc_people st))).
  - intros i p s s' _ HP. by apply contact_related.
  - intros i s _ _ HP. by apply recovery_related.
  - simpl. by apply Forall_Forall2_diag, Forall_forall.
Qed.

(** Removing takes one element out of the list for each element removed,
    and keeps the order of the others. *)
Lemma remove_all_sublist ppl rs :
  forall l l', remove_all ppl l rs = Done l' ->
    l' `sublist_of` l /\ length l = (length l' + length rs)%nat.
Proof.
  induction rs as [|r rs IH]; intros l l'; unfold remove_all; simpl.
  - intros [= <-]. split; [done|lia].
  - intros H. apply bind_Done in H as (l0 & H0 & H).
    apply list_remove_Done in H0 as (l1 & e & l2 & -> & -> & _).
    apply IH in H as [Hsub Hlen]. split.
    + etrans; [exact Hsub|]. apply sublist_app; [done|]. by apply sublist_cons.
    + rewrite length_app in *. simpl. lia.
Qed.

(** ** Where the agents stand during the loop *)

Lemma same_place_refl a : same_place a a.
Proof. by split. Qed.

Lemma contact_same_place infect_rate infect_distance ppl i p st st' :
  Forall2 same_place ppl (sc_people st) ->
  contact infect_rate infect_distance i p st = Done st' ->
  Forall2 same_place ppl (sc_people st').
Proof. apply contact_related. intros a b Hab _. exact Hab. Qed.

Lemma recovery_same_place v recover_rate ppl i st :
  Forall2 same_place ppl (sc_people st) ->
  Forall2 same_place ppl (sc_people (recovery v recover_rate i st)).
Proof. apply recovery_related. intros a b Hab. exact Hab. Qed.

Lemma scan_block_same_place infect_rate infect_distance ppl grid i cell st st' :
  Forall2 same_place ppl (sc_people st) ->
  scan_block infect_rate infect_distance grid i cell st = Done st' ->
  Forall2 same_place ppl (sc_people st').
Proof.
  rewrite scan_block_neighbors.
  apply (foldM_invariant (fun s => Forall2 same_place ppl (sc_people s))).
  intros s p s' _. apply contact_same_place.
Qed.

Lemma visit_same_place v infect_rate recover_rate infect_distance ppl grid cell_size st i st' :
  Forall2 same_place ppl (sc_people st) ->
  visit v infect_rate recover_rate infect_distance grid cell_size st i = Done st' ->
  Forall2 same_place ppl (sc_people st').
Proof.
  intros HP. unfold visit. destruct (sc_people st !! i) as [a|]; [|by intros [= <-]].
  intros H. apply bind_Done in H as (cell & _ & H).
  apply bind_Done in H as (st0 & Hst0 & H). injection H as <-.
  apply recovery_same_place. by eapply scan_block_same_place.
Qed.

Lemma find_distance_sq_same_place a b a' b' :
  same_place a a' -> same_place b b' -> find_distance_sq a' b' = find_distance_sq a b.
Proof. unfold find_distance_sq. by intros [-> ->] [-> ->]. Qed.

Lemma find_distance_lt_same_place a b a' b' d :
  same_place a a' -> same_place b b' ->
  find_distance_lt a' b' d = find_distance_lt a b d.
Proof.
  intros Ha Hb. unfold find_distance_lt, find_distance.
  by rewrite (find_distance_sq_same_place _ _ _ _ Ha Hb).
Qed.

(** ** The exceptions of the loop *)

(** A fold raises only what one of its rounds raises from a state that the
    rounds before it can leave. *)
Lemma foldM_raises_from {A B : Type} (P : A -> Prop) (E : exn -> Prop)
    (f : A -> B -> result A) (l : list B) :
  (forall a b a', P a -> f a b = Done a' -> P a') ->
  (forall a b e, P a -> f a b = Raise e -> E e) ->
  forall a e, P a -> foldM f a l = Raise e -> E e.
Proof.
  intros Hkeep Hf. induction l as [|b l IH]; intros a e Ha; simpl; [discriminate|].
  intros H. apply bind_Raise in H as [H | (a1 & H1 & H)]; eauto.
Qed.

(** A contact fails only when [find_distance] overflows. *)
Lemma contact_Raise infect_rate infect_distance ppl i p st e :
  Forall2 same_place ppl (sc_people st) ->
  contact infect_rate infect_distance i p st = Raise e ->
  e = OverflowError /\ too_far_apart ppl.
Proof.
  intros HP. unfold contact.
  destruct (sc_people st !! i) as [a|] eqn:Hi; [|done].
  destruct (sc_people st !! p) as [b|] eqn:Hp; [|done].
  destruct (is_state St_S b); [|done].
  destruct (find_distance_lt a b infect_distance) as [[|]|e'] eqn:Hd;
    cbn [mbind result_bind]; [by destruct (random _), (Qltb _ _)|done|].
  intros [= ->]. apply find_distance_lt_Raise in Hd as [-> Hd]. split; [done|].
  destruct (Forall2_lookup_r _ _ _ _ _ HP Hi) as (a0 & Ha0 & Ha).
  destruct (Forall2_lookup_r _ _ _ _ _ HP Hp) as (b0 & Hb0 & Hb).
  exists a0, b0. split; [by eapply list_elem_of_lookup_2|].
  split; [by eapply list_elem_of_lookup_2|].
  by rewrite <- (find_distance_sq_same_place _ _ _ _ Ha Hb).
Qed.

Lemma scan_block_Raise infect_rate infect_distance ppl grid i cell st e :
  Forall2 same_place ppl (sc_people st) ->
  scan_block infect_rate infect_distance grid i cell st = Raise e ->
  e = OverflowError /\ too_far_apart ppl.
Proof.
  rewrite scan_block_neighbors.
  apply (foldM_raises_from (fun s => Forall2 same_place ppl (sc_people s))
           (fun e => e = OverflowError /\ too_far_apart ppl)).
  - intros s p s'. apply contact_same_place.
  - intros s p e'. apply contact_Raise.
Qed.

Lemma visit_Raise v infect_rate recover_rate infect_distance ppl grid cell_size st i e :
  Forall2 same_place ppl (sc_people st) ->
  visit v infect_rate recover_rate infect_distance grid cell_size st i = Raise e ->
  (e = ZeroDivisionError /\ cell_size = 0) \/ (e = OverflowError /\ too_far_apart ppl).
Proof.
  intros HP. unfold visit. destruct (sc_people st !! i) as [a|]; [|done].
  intros H. apply bind_Raise in H as [H | (c & _ & H)].
  - left. by apply get_cell_Raise in H.
  - apply bind_Raise in H as [H | (st0 & _ & H)]; [|done].
    right. by eapply scan_block_Raise.
Qed.

(** ** One call of [step] *)

Section Step.
Variable v : variant.
Variables infect_rate recover_rate : Q.
Variable infect_distance : Z.

Local Abbreviation scan_all' := (scan_all v infect_rate recover_rate infect_distance).
Local Abbreviation step' := (step v infect_rate recover_rate infect_distance).

Lemma scan_all_recover ppl L cell_size g st :
  scan_all' ppl L cell_size g = Done st -> sc_recover st `sublist_of` L.
Proof.
  unfold scan_all. intros H. apply bind_Done in H as (grid & _ & H).
  apply scan_fold_recover in H as (rs & -> & Hrs). done.
Qed.

(** The loop fails only by a division by a zero cell size, or when
    [find_distance] overflows. *)
Lemma scan_all_Raise ppl L cell_size g e :
  scan_all' ppl L cell_size g = Raise e ->
  (e = ZeroDivisionError /\ cell_size = 0) \/ (e = OverflowError /\ too_far_apart ppl).
Proof.
  unfold scan_all. intros H. apply bind_Raise in H as [H | (grid & _ & H)].
  - left. by apply populate_grid_Raise in H.
  - revert H.
    apply (foldM_raises_from (fun s => Forall2 same_place ppl (sc_people s))
             (fun e => (e = ZeroDivisionError /\ cell_size = 0) \/
                       (e = OverflowError /\ too_far_apart ppl))).
    + intros st i st'. apply visit_same_place.
    + intros st i e'. apply visit_Raise.
    + simpl. apply Forall_Forall2_diag, Forall_forall. intros a _. apply same_place_refl.
Qed.

Lemma not_too_far_apart ppl : squares_below (2 ^ 1023) ppl -> ~ too_far_apart ppl.
Proof. intros Hb (a & b & Ha & Hb' & Hsq). specialize (Hb a b Ha Hb'). lia. Qed.

(** The removal loop of [step] never fails: what it removes was taken from
    the list it removes from. *)
Lemma step_removal_total ppl L cell_size g st :
  scan_all' ppl L cell_size g = Done st ->
  exists l', remove_all (sc_people st) L (sc_recover st) = Done l'.
Proof.
  intros H. apply remove_all_total.
  apply sublist_submseteq, fmap_sublist. by eapply scan_all_recover.
Qed.

Lemma step_Done ppl L cell_size g ppl' inf' n g' :
  step' ppl L cell_size g = Done (ppl', inf', n, g') ->
  exists st l',
    scan_all' ppl L cell_size g = Done st /\
    remove_all (sc_people st) L (sc_recover st) = Done l' /\
    ppl' = sc_people st /\ inf' = l' ++ sc_new_infected st /\
    n = len (sc_recover st) /\ g' = sc_rng st.
Proof.
  unfold step. intros H. apply bind_Done in H as (st & Hst & H).
  apply bind_Done in H as (l' & Hl' & H). injection H as <- <- <- <-.
  by exists st, l'.
Qed.

(** [step] raises nothing but [ZeroDivisionError], and only for a zero
    cell size, and [OverflowError], and only when two agents are too far
    apart for [find_distance]. *)
Lemma step_Raise ppl L cell_size g e :
  step' ppl L cell_size g = Raise e ->
  (e = ZeroDivisionError /\ cell_size = 0) \/ (e = OverflowError /\ too_far_apart ppl).
Proof.
  unfold step. intros H. apply bind_Raise in H as [H | (st & Hst & H)].
  - by apply scan_all_Raise in H.
  - destruct (step_removal_total _ _ _ _ _ Hst) as [l' Hl']. by rewrite Hl' in H.
Qed.

Lemma step_total ppl L cell_size g :
  cell_size <> 0 -> squares_below (2 ^ 1023) ppl ->
  exists r, step' ppl L cell_size g = Done r.
Proof.
  intros Hd Hsq. destruct (step' ppl L cell_size g) as [r|e] eqn:H; [eauto|].
  apply step_Raise in H as [[_ ?]|[_ H]]; [done|].
  by apply not_too_far_apart in H.
Qed.

(** From a consistent list the removal loop starts as [removal_pre]
    describes. *)
Lemma scan_inv_removal_pre L st :
  NoDup L -> scan_inv v L L [] st ->
  removal_pre (sc_people st) (recovered_state v) L (sc_recover st).
Proof.
  intros Hnd [Hrec _ _ Hst _]. constructor.
  - done.
  - etrans; [apply sublist_filter|done].
  - intros e He Hrc. destruct (decide (e ∈ sc_recover st)) as [|Hn]; [done|].
    assert (state_at (sc_people st) e = Some St_I) as E by (apply Hst; by left).
    rewrite E in Hrc. by destruct v.
  - by apply sublist_submseteq, fmap_sublist.
Qed.
End Step.

(** In the SIR variant [step] keeps the infected list consistent: from a
    list of exactly the agents in state ['I'] it returns the list of exactly
    the agents in state ['I'] after the call, each once. *)
Lemma step_SIR_consistent infect_rate recover_rate infect_distance
    ppl L cell_size g ppl' inf' n g' :
  consistent ppl L ->
  step SIR infect_rate recover_rate infect_distance ppl L cell_size g
    = Done (ppl', inf', n, g') ->
  consistent ppl' inf'.
Proof.
  intros Hc H. apply step_Done in H as (st & l' & Hscan & Hrem & -> & -> & _ & _).
  pose proof (scan_all_inv _ _ _ _ _ _ _ _ _ Hc Hscan) as Hinv.
  assert (NoDup L) as Hnd by (by apply consistent_iff in Hc as [? _]).
  destruct (remove_all_spec _ _ _ _ (scan_inv_removal_pre _ _ _ Hnd Hinv))
    as (l0 & Hl0 & Hsub & _ & Hexact).
  rewrite Hrem in Hl0. injection Hl0 as <-.
  destruct Hinv as [Hrec Hndnew Hnew Hst Hrc].
  assert (forall k, k ∈ sc_new_infected st -> k ∉ L) as HnewL.
  { intros k Hk. by apply (Hnew k Hk). }
  assert (forall e, e ∈ l' <-> e ∈ L /\ (e ∉ sc_recover st)) as Hl'.
  { apply Hexact. intros r Hr. apply Hrc; [done|].
    intros Hin. apply (HnewL r Hin). eapply elem_of_sublist; [exact Hr|exact Hrec]. }
  apply consistent_iff. split.
  - apply NoDup_app. split; [by eapply sublist_NoDup|]. split; [|done].
    intros x Hx Hxnew. apply (HnewL x Hxnew). by apply Hl'.
  - intros k. rewrite elem_of_app, Hl', Hst. done.
Qed.

(** ** Movement *)

Lemma clamp_bounds c dimension : 2 <= dimension -> 1 <= clamp c dimension <= dimension - 1.
Proof.
  intros Hd. unfold clamp.
  destruct (c <? 1) eqn:H1.
  - destruct (1 >? dimension - 1) eqn:H2; lia.
  - destruct (c >? dimension - 1) eqn:H2; lia.
Qed.

Lemma move_one_Done width height max_move p g p' g' :
  move_one width height max_move p g = Done (p', g') ->
  moved_from width height max_move p p'.
Proof.
  unfold move_one. intros H.
  apply bind_Done in H as ([ox g1] & Hx & H).
  apply bind_Done in H as ([oy g2] & Hy & H). injection H as <- <-.
  apply randint_Done in Hx as (Hx & _ & _). apply randint_Done in Hy as (Hy & _ & _).
  split; [done|]. exists ox, oy. simpl. repeat split; lia.
Qed.

Lemma move_one_Raise width height max_move p g e :
  move_one width height max_move p g = Raise e -> e = ValueError /\ max_move < 0.
Proof.
  unfold move_one. intros H.
  apply bind_Raise in H as [H | ([ox g1] & _ & H)].
  - apply randint_Raise in H as [-> H]. split; [done|lia].
  - apply bind_Raise in H as [H | ([oy g2] & _ & H)]; [|done].
    apply randint_Raise in H as [-> H]. split; [done|lia].
Qed.

(** [move_all] moves every agent and keeps the order, so that references
    stay valid. *)
Lemma move_all_fold width height max_move ppl :
  forall moved g moved' g',
    foldM (fun '(moved, g) p =>
             '(p', g) ← move_one width height max_move p g;
             Done (moved ++ [p'], g)) (moved, g) ppl = Done (moved', g') ->
    exists tail, moved' = moved ++ tail /\
      Forall2 (moved_from width height max_move) ppl tail.
Proof.
  induction ppl as [|p ppl IH]; intros moved g moved' g'; simpl.
  - intros [= <- <-]. exists []. by rewrite app_nil_r.
  - intros H. apply bind_Done in H as ([moved1 g1] & H1 & H2).
    apply bind_Done in H1 as ([p' g0] & Hp & H1). injection H1 as <- <-.
    apply IH in H2 as (tail & -> & Htail).
    exists (p' :: tail). rewrite <- app_assoc. split; [done|].
    constructor; [|done]. by eapply move_one_Done.
Qed.

Lemma move_all_Done width height max_move ppl g ppl' g' :
  move_all width height max_move ppl g = Done (ppl', g') ->
  Forall2 (moved_from width height max_move) ppl ppl'.
Proof.
  unfold move_all. intros H. by apply move_all_fold in H as (tail & -> & H).
Qed.

Lemma move_all_Raise width height max_move ppl g e :
  move_all width height max_move ppl g = Raise e -> e = ValueError /\ max_move < 0.
Proof.
  unfold move_all. apply (foldM_raises (fun e => e = ValueError /\ max_move < 0)).
  intros [moved g0] p e' H.
  apply bind_Raise in H as [H | ([p' g1] & _ & H)]; [|done].
  by apply move_one_Raise in H.
Qed.

Lemma move_all_total width height max_move ppl g :
  0 <= max_move -> exists r, move_all width height max_move ppl g = Done r.
Proof.
  intros Hm. destruct (move_all width height max_move ppl g) as [r|e] eqn:H; [eauto|].
  apply move_all_Raise in H as [_ H]. lia.
Qed.

Lemma move_all_state width height max_move ppl g ppl' g' k :
  move_all width height max_move ppl g = Done (ppl', g') ->
  state_at ppl' k = state_at ppl k.
Proof.
  intros H%move_all_Done. unfold state_at.
  destruct (ppl !! k) as [a|] eqn:Ha.
  - destruct (Forall2_lookup_l _ _ _ _ _ H Ha) as (a' & -> & [Hs _]). simpl. by rewrite Hs.
  - apply lookup_ge_None in Ha. rewrite (Forall2_length _ _ _ H) in Ha.
    apply lookup_ge_None in Ha. by rewrite Ha.
Qed.

Lemma move_all_consistent width height max_move ppl g ppl' g' L :
  move_all width height max_move ppl g = Done (ppl', g') ->
  consistent ppl L -> consistent ppl' L.
Proof.
  intros H. rewrite !consistent_iff. intros [Hnd HL]. split; [done|].
  intros k. by rewrite (move_all_state _ _ _ _ _ _ _ k H).
Qed.

(** After a movement every coordinate is within [1, dimension - 1]. *)
Lemma move_all_bounds width height max_move ppl g ppl' g' k a :
  2 <= width -> 2 <= height ->
  move_all width height max_move ppl g = Done (ppl', g') ->
  ppl' !! k = Some a ->
  1 <= p_x a <= width - 1 /\ 1 <= p_y a <= height - 1.
Proof.
  intros Hw Hh H%move_all_Done Ha.
  destruct (Forall2_lookup_r _ _ _ _ _ H Ha) as (a0 & _ & _ & ox & oy & _ & _ & -> & ->).
  split; by apply clamp_bounds.
Qed.

(** ** Consistency of the infected list along a SIR run *)

Lemma day_SIR_consistent cfg s s' :
  consistent (people s) (infected s) -> day SIR cfg s = Done s' ->
  consistent (people s') (infected s').
Proof.
  intros Hc Hd.
  apply day_Done in Hd as (ppl & inf & rec & g & ppl' & g' & Hstep & Hmove & -> & -> & _).
  eapply move_all_consistent; [exact Hmove|].
  by eapply step_SIR_consistent.
Qed.

Lemma populate_consistent cfg g ppl inf g' :
  populate cfg g = Done (ppl, inf, g') -> consistent ppl inf.
Proof.
  intros H. apply populate_Done in H as [(_ & _ & -> & _) _]. by unfold consistent.
Qed.

(** Along a SIR run the infected list is, after every day, exactly the
    agents in state ['I'], each once. *)
Lemma SIR_run_consistent fuel cfg g out :
  create_SIR_simulation fuel cfg g = Some (Done out) ->
  consistent (people (final out)) (infected (final out)).
Proof.
  intros H. apply simulate_Done in H as (ppl & inf & g0 & Hpop & Hloop & _).
  refine (proj1 (day_loop_invariant (fun s => consistent (people s) (infected s))
                   SIR cfg _ fuel _ _ _ Hloop)).
  - intros s s' Hs _. by apply day_SIR_consistent.
  - simpl. by eapply populate_consistent.
Qed.

(** ** Exceptions of a run *)

Lemma place_Raise cfg st e :
  place cfg st = Raise e ->
  (e = ValueError /\ (cfg_width cfg < 0 \/ cfg_height cfg < 0)) \/
  (e = ZeroDivisionError /\ number_of_people cfg = 0) \/
  (e = OverflowError /\ 2 ^ 1023 <= Z.abs (num_infected cfg)).
Proof.
  destruct st as [[ppl inf] g]. unfold place. destruct (random g) as [u g0]. intros H.
  apply bind_Raise in H as [H | (ratio & _ & H)].
  - right. apply true_divide_Raise in H. tauto.
  - left. apply bind_Raise in H as [H | ([x g1] & _ & H)].
    + apply randint_Raise in H as [-> H]. auto.
    + apply bind_Raise in H as [H | ([y g2] & _ & H)]; [|done].
      apply randint_Raise in H as [-> H]. auto.
Qed.

(** The placement loop fails only in [random.randint], for a negative
    [width] or [height], or in the division, for a [num_infected] too large
    for a float. *)
Lemma populate_Raise cfg g e :
  populate cfg g = Raise e ->
  (e = ValueError /\ (cfg_width cfg < 0 \/ cfg_height cfg < 0)) \/
  (e = OverflowError /\ 2 ^ 1023 <= Z.abs (num_infected cfg)).
Proof.
  unfold populate. intros H.
  destruct (decide (number_of_people cfg = 0)) as [E|E].
  { rewrite E in H. done. }
  revert H.
  apply (foldM_raises (fun e =>
    (e = ValueError /\ (cfg_width cfg < 0 \/ cfg_height cfg < 0)) \/
    (e = OverflowError /\ 2 ^ 1023 <= Z.abs (num_infected cfg)))).
  intros st _ e' [H|[[_ H]|H]]%place_Raise; [by left|done|by right].
Qed.

Lemma populate_total cfg g :
  0 <= cfg_width cfg -> 0 <= cfg_height cfg -> Z.abs (num_infected cfg) < 2 ^ 1023 ->
  exists ppl inf g', populate cfg g = Done (ppl, inf, g').
Proof.
  intros Hw Hh Hn. destruct (populate cfg g) as [[[ppl inf] g']|e] eqn:H; [eauto|].
  apply populate_Raise in H as [[_ H]|[_ H]]; lia.
Qed.

(** With a negative dimension the first placement already fails. *)
Lemma populate_negative cfg g :
  cfg_width cfg < 0 \/ cfg_height cfg < 0 -> 0 < number_of_people cfg ->
  Z.abs (num_infected cfg) < 2 ^ 1023 ->
  populate cfg g = Raise ValueError.
Proof.
  intros Hneg HN Hn. unfold populate.
  destruct (Z.to_nat (number_of_people cfg)) as [|n] eqn:E; [lia|].
  simpl. unfold place at 1. destruct (random g) as [u g0].
  destruct (true_divide_total (num_infected cfg) (number_of_people cfg)) as [ratio ->];
    [lia|done|].
  cbn [mbind result_bind]. unfold randint.
  destruct (cfg_width cfg <? 0) eqn:Hw; [done|]. cbn [mbind result_bind].
  destruct (cfg_height cfg <? 0) eqn:Hh; [done|]. lia.
Qed.

(** The agents are placed close enough for [find_distance]. *)
Lemma squares_below_weaken b b' ppl :
  b <= b' -> squares_below b ppl -> squares_below b' ppl.
Proof. intros Hb H a c Ha Hc. specialize (H a c Ha Hc). lia. Qed.

Lemma populate_squares_below cfg g ppl inf g' :
  populate cfg g = Done (ppl, inf, g') ->
  cfg_width cfg < 2 ^ 31 -> cfg_height cfg < 2 ^ 31 ->
  squares_below (2 ^ 63) ppl.
Proof.
  intros H Hw Hh. apply populate_Done in H as [(_ & _ & _ & Hag) _].
  intros a b [ka Ha]%list_elem_of_lookup_1 [kb Hb]%list_elem_of_lookup_1.
  apply Hag in Ha as (_ & Hxa & Hya). apply Hag in Hb as (_ & Hxb & Hyb).
  unfold find_distance_sq. nia.
Qed.

Lemma day_Raise v cfg s e :
  day v cfg s = Raise e ->
  (e = ZeroDivisionError /\ cfg_infect_distance cfg = 0) \/
  (e = ValueError /\ cfg_max_move cfg < 0) \/
  (e = OverflowError /\ too_far_apart (people s)).
Proof.
  unfold day. intros H.
  apply bind_Raise in H as [H | ([[[ppl inf] rec] g] & _ & H)].
  - apply step_Raise in H. tauto.
  - apply bind_Raise in H as [H | ([ppl' g'] & _ & H)].
    + right. left. by apply move_all_Raise in H.
    + by destruct v.
Qed.

(** A day succeeds when the cell size is not zero, the movement has a
    range, and the agents are close enough for [find_distance]. *)
Lemma day_total v cfg s :
  cfg_infect_distance cfg <> 0 -> 0 <= cfg_max_move cfg ->
  squares_below (2 ^ 1023) (people s) ->
  exists s', day v cfg s = Done s'.
Proof.
  intros Hd Hm Hsq. destruct (day v cfg s) as [s'|e] eqn:H; [eauto|].
  apply day_Raise in H as [[_ H]|[[_ H]|[_ H]]]; [done|lia|].
  by apply not_too_far_apart in H.
Qed.

(** What follows the loop fails without a frame, and in the conversions
    and the division of the model function. *)
Lemma save_and_solve_Raise v suffix cfg s e :
  save_and_solve v suffix cfg s = Raise e ->
  (e = ImageioError /\ frames s = []) \/ e = OverflowError \/ e = ZeroDivisionError.
Proof.
  unfold save_and_solve. intros H.
  apply bind_Raise in H as [H | ([] & _ & H)].
  { left. unfold mimsave in H. destruct (frames s); [|done]. by injection H as <-. }
  right. apply bind_Raise in H as [H | ([] & _ & H)]; [|done].
  unfold odeint in H. apply bind_Raise in H as [H | ([] & _ & H)].
  - left. revert H. apply (foldM_raises (fun e => e = OverflowError)).
    intros [] y e' H. apply bind_Raise in H as [H | (f & _ & H)]; [|done].
    by apply float_of_int_Raise in H as [-> _].
  - unfold circle_probability in H.
    apply bind_Raise in H as [H | (f1 & _ & H)];
      [left; by apply float_of_int_Raise in H as [-> _]|].
    apply bind_Raise in H as [H | (f2 & _ & H)];
      [left; by apply float_of_int_Raise in H as [-> _]|].
    apply bind_Raise in H as [H | (area & _ & H)];
      [left; by apply float_of_int_Raise in H as [-> _]|].
    right. destruct area; [by injection H as <-|done..].
Qed.

(** With a zero [width] or [height] the model function divides by zero, if
    nothing has failed before. *)
Lemma save_and_solve_zero_area v suffix cfg s out :
  cfg_width cfg * cfg_height cfg = 0 -> save_and_solve v suffix cfg s <> Done out.
Proof.
  intros Hz. unfold save_and_solve.
  destruct (mimsave (frames s)) as [[]|]; [|done]. cbn [mbind result_bind].
  unfold odeint.
  destruct (foldM _ _ _) as [[]|]; [|done]. cbn [mbind result_bind].
  unfold circle_probability. cbn [fst snd].
  destruct (float_of_int (cfg_infect_distance cfg)); [|done]. cbn [mbind result_bind].
  by rewrite Hz.
Qed.

(** What a run can raise. *)
Lemma simulate_Raise v suffix fuel cfg g e :
  simulate v suffix fuel cfg g = Some (Raise e) ->
  (e = ValueError /\
   (cfg_width cfg < 0 \/ cfg_height cfg < 0 \/ cfg_max_move cfg < 0)) \/
  e = ZeroDivisionError \/ e = OverflowError \/
  (e = PygameError /\ (cfg_width cfg < 0 \/ cfg_height cfg < 0)) \/
  e = ImageioError.
Proof.
  unfold simulate. destruct (populate cfg g) as [[[ppl inf] g0]|e0] eqn:Hpop.
  - unfold set_mode. destruct (_ || _) eqn:Hneg.
    { intros [= <-]. do 3 right. left. split; [done|].
      apply orb_true_iff in Hneg as [H|H]; apply Z.ltb_lt in H; auto. }
    destruct (day_loop v cfg fuel _) as [[s|e0]|] eqn:Hloop; try discriminate.
    + intros [= H]. apply save_and_solve_Raise in H as [[-> _] | [-> | ->]]; auto 6.
    + intros [= ->].
      apply (day_loop_raises (fun e =>
        (e = ValueError /\
         (cfg_width cfg < 0 \/ cfg_height cfg < 0 \/ cfg_max_move cfg < 0)) \/
        e = ZeroDivisionError \/ e = OverflowError \/
        (e = PygameError /\ (cfg_width cfg < 0 \/ cfg_height cfg < 0)) \/
        e = ImageioError)) in Hloop; [done|].
      intros s e' [[-> _] | [[-> Hm] | [-> _]]]%day_Raise; auto 6.
  - intros [= ->]. apply populate_Raise in Hpop as [[-> H]|[-> _]]; [|auto].
    left. split; [done|tauto].
Qed.

(** The round of the loop that runs the first day. *)
Lemma first_day v cfg fuel ppl inf g s :
  inf <> [] -> 0 <= max_days cfg ->
  day v cfg (initial v cfg ppl inf g) = Done s ->
  step_count s = 1 /\
  day_loop v cfg (S fuel) (initial v cfg ppl inf g) = day_loop v cfg fuel s.
Proof.
  intros Hinf Hmax Hday. split.
  - apply day_Done in Hday as (_ & _ & _ & _ & _ & _ & _ & _ & _ & _ & _ & -> & _). done.
  - cbn [day_loop]. rewrite Hday.
    replace (continue cfg (initial v cfg ppl inf g)) with true; [done|].
    symmetry. unfold continue, len. cbn [infected step_count initial].
    apply andb_true_iff. split; [|by apply Z.leb_le].
    apply Z.gtb_lt. destruct inf; [done|]. simpl. lia.
Qed.

(** C6, as the code has it.  No configuration is rejected with
    [ConfigurationError]: nothing is validated.  Whatever the two rates and
    whatever [num_infected] (below 2^1023 in absolute value), the placement
    loop succeeds when [width] and [height] are not negative, and if it has
    placed an infected agent and [max_days] is not negative the first day is
    run: for a [width] and a [height] that a display can have (below 2^31)
    it succeeds, in SIR for a non-negative [max_move] and a non-zero
    [infect_distance], and the loop goes on from the state it leaves.  A
    negative [width] or [height] with at least one agent makes
    [random.randint] raise [ValueError] in the placement loop, before any
    day is run.  A zero [width] or [height] is not rejected either, and no
    run completes with it. *)
Theorem no_configuration_validation fuel cfg g :
  (create_SIR_simulation fuel cfg g <> Some (Raise ConfigurationError) /\
   create_SIS_simulation fuel cfg g <> Some (Raise ConfigurationError)) /\
  (0 <= cfg_width cfg -> 0 <= cfg_height cfg -> Z.abs (num_infected cfg) < 2 ^ 1023 ->
   exists ppl inf g',
     populate cfg g = Done (ppl, inf, g') /\
     populate (sis_overrides cfg) g = Done (ppl, inf, g') /\
     (cfg_width cfg < 2 ^ 31 -> cfg_height cfg < 2 ^ 31 ->
      inf <> [] -> 0 <= max_days cfg ->
      (0 <= cfg_max_move cfg -> cfg_infect_distance cfg <> 0 ->
       exists s,
         day SIR cfg (initial SIR cfg ppl inf g') = Done s /\ step_count s = 1 /\
         day_loop SIR cfg (S fuel) (initial SIR cfg ppl inf g') = day_loop SIR cfg fuel s) /\
      (exists s,
         day SIS (sis_overrides cfg) (initial SIS (sis_overrides cfg) ppl inf g') = Done s /\
         step_count s = 1 /\
         day_loop SIS (sis_overrides cfg) (S fuel) (initial SIS (sis_overrides cfg) ppl inf g')
           = day_loop SIS (sis_overrides cfg) fuel s))) /\
  (cfg_width cfg < 0 \/ cfg_height cfg < 0 -> 0 < number_of_people cfg ->
   Z.abs (num_infected cfg) < 2 ^ 1023 ->
   populate cfg g = Raise ValueError /\
   create_SIR_simulation fuel cfg g = Some (Raise ValueError) /\
   create_SIS_simulation fuel cfg g = Some (Raise ValueError)) /\
  (cfg_width cfg * cfg_height cfg = 0 -> forall out,
   create_SIR_simulation fuel cfg g <> Some (Done out) /\
   create_SIS_simulation fuel cfg g <> Some (Done out)).
Proof.
  split; [|split; [|split]].
  - split; intros H; apply simulate_Raise in H as [[? _] | [?|[?|[[? _]|?]]]]; done.
  - intros Hw Hh Hn.
    destruct (populate_total cfg g Hw Hh Hn) as (ppl & inf & g' & Hpop).
    exists ppl, inf, g'. split; [done|]. split; [done|].
    intros Hw' Hh' Hinf Hmax.
    pose proof (populate_squares_below _ _ _ _ _ Hpop Hw' Hh') as Hsq.
    apply (squares_below_weaken _ (2 ^ 1023)) in Hsq; [|done]. split.
    + intros Hm Hd.
      destruct (day_total SIR cfg (initial SIR cfg ppl inf g') Hd Hm Hsq) as [s Hs].
      exists s. split; [done|]. by apply first_day.
    + destruct (day_total SIS (sis_overrides cfg)
                  (initial SIS (sis_overrides cfg) ppl inf g')) as [s Hs];
        [done|simpl; lia|done|].
      exists s. split; [done|]. by apply first_day.
  - intros Hneg HN Hn. split; [by apply populate_negative|].
    unfold create_SIR_simulation, create_SIS_simulation, simulate.
    rewrite populate_negative by done.
    rewrite (populate_negative (sis_overrides cfg)) by done. done.
  - intros Hz out.
    split; unfold create_SIR_simulation, create_SIS_simulation, simulate;
      destruct (populate _ g) as [[[ppl inf] g0]|]; try done;
      destruct (set_mode _ _); try done;
      destruct (day_loop _ _ _ _) as [[s|]|]; try done;
      intros [= H]; by apply save_and_solve_zero_area in H.
Qed.

Lemma no_configuration_validation_witness :
  (exists ppl inf g', populate invalid_config small_rng = Done (ppl, inf, g')) /\
  create_SIR_simulation 0 (Config (-1) 10 2 1 (8 # 10) (15 # 100) 10 5 3 "demo") small_rng
    = Some (Raise ValueError) /\
  (forall out, create_SIS_simulation 4 flat_config small_rng <> Some (Done out)).
Proof.
  split; [|split].
  - destruct (proj1 (proj2 (no_configuration_validation 4 invalid_config small_rng)))
      as (ppl & inf & g' & H & _); [vm_compute; (discriminate || reflexivity)..|eauto].
  - apply (proj1 (proj2 (proj2 (no_configuration_validation 0
             (Config (-1) 10 2 1 (8 # 10) (15 # 100) 10 5 3 "demo") small_rng))));
      [left| |]; vm_compute; reflexivity.
  - intros out.
    apply (proj2 (proj2 (proj2 (no_configuration_validation 4 flat_config small_rng)))
             ltac:(reflexivity) out).
Defined.

(** C6, as stated, fails: [invalid_config] has a transmission probability
    of 3/2 and more seeds than people, yet no exception is raised and a
    day is run. *)
Lemma validation_counterexample :
  invalid_configuration invalid_config = true /\
  create_SIR_simulation 4 invalid_config small_rng <> Some (Raise ConfigurationError) /\
  exists out,
    create_SIR_simulation 4 invalid_config small_rng = Some (Done out) /\
    step_count (final out) = 1.
Proof.
  split; [vm_compute; reflexivity|]. split; [vm_compute; discriminate|].
  eexists. split; vm_compute; reflexivity.
Qed.

(** ** Recovery in the SIS variant *)

Lemma recovery_state v recover_rate i st :
  is_Some (sc_people st !! i) ->
  sc_recover (recovery v recover_rate i st) <> sc_recover st ->
  sc_recover (recovery v recover_rate i st) = sc_recover st ++ [i] /\
  state_at (sc_people (recovery v recover_rate i st)) i = Some (recovered_state v).
Proof.
  intros [a Ha]. unfold recovery. destruct (random (sc_rng st)) as [u g].
  destruct (Qltb u recover_rate); simpl; [|done].
  intros _. split; [done|]. rewrite state_at_alter, decide_True by done.
  unfold state_at. by rewrite Ha.
Qed.

(** C4, as the code has it.  In the SIS variant an agent whose recovery
    draw succeeds is set back to ['S'] at once.  From then on it can be
    infected again, in the same call of [step], by an infected agent visited
    after it.  An agent that recovered is absent from the returned list,
    and in state ['S'], exactly when that did not happen; otherwise it is in
    the returned list, in state ['I'].  [L] is a consistent infected list,
    [st] the state at the end of the loop over [L]. *)
Theorem sis_recovery_timing infect_rate recover_rate infect_distance ppl L cell_size g st :
  consistent ppl L ->
  scan_all SIS infect_rate recover_rate infect_distance ppl L cell_size g = Done st ->
  (forall st0 i, is_Some (sc_people st0 !! i) ->
     sc_recover (recovery SIS recover_rate i st0) <> sc_recover st0 ->
     sc_recover (recovery SIS recover_rate i st0) = sc_recover st0 ++ [i] /\
     state_at (sc_people (recovery SIS recover_rate i st0)) i = Some St_S) /\
  exists inf',
    step SIS infect_rate recover_rate infect_distance ppl L cell_size g
      = Done (sc_people st, inf', len (sc_recover st), sc_rng st) /\
    forall i, i ∈ sc_recover st ->
      i ∈ L /\
      (i ∉ sc_new_infected st ->
         state_at (sc_people st) i = Some St_S /\ i ∉ inf') /\
      (i ∈ sc_new_infected st ->
         state_at (sc_people st) i = Some St_I /\ i ∈ inf').
Proof.
  intros Hc Hscan. split; [intros st0 i; apply recovery_state|].
  pose proof (scan_all_inv _ _ _ _ _ _ _ _ _ Hc Hscan) as Hinv.
  assert (NoDup L) as Hnd by (by apply consistent_iff in Hc as [? _]).
  destruct (remove_all_spec _ _ _ _ (scan_inv_removal_pre _ _ _ Hnd Hinv))
    as (l' & Hl' & Hsub & Hnone & _).
  exists (l' ++ sc_new_infected st). split.
  { unfold step. rewrite Hscan. simpl. rewrite Hl'. done. }
  destruct Hinv as [Hrec Hndnew Hnew Hst Hrc].
  intros i Hi. split; [eapply elem_of_sublist; [exact Hi|exact Hrec]|]. split.
  - intros Hn. split; [by apply Hrc|].
    intros [Hin | Hin]%elem_of_app; [|done].
    apply (Hnone i Hin). by apply Hrc.
  - intros Hin. split; [apply Hst; by right|]. apply elem_of_app. by right.
Qed.

Lemma sis_recovery_timing_witness :
  exists st inf',
    scan_all SIS (8 # 10) (15 # 100) 10 pair_people [0; 1]%nat 10 pair_rng = Done st /\
    step SIS (8 # 10) (15 # 100) 10 pair_people [0; 1]%nat 10 pair_rng
      = Done (sc_people st, inf', len (sc_recover st), sc_rng st).
Proof.
  eexists.
  assert (consistent pair_people [0; 1]%nat) as Hc by (vm_compute; reflexivity).
  destruct (sis_recovery_timing (8 # 10) (15 # 100) 10 pair_people [0; 1]%nat 10 pair_rng
              _ Hc ltac:(vm_compute; reflexivity)) as (_ & inf' & Hstep & _).
  exists inf'. split; [vm_compute; reflexivity|exact Hstep].
Defined.

(** C4, as stated, fails: agent 0 of [pair_people] recovers and is infected
    again by agent 1 within the same call of [step]; it ends the call in
    state ['I'] and in the returned list, and is counted as recovered. *)
Lemma sis_reinfected_in_same_step :
  consistent pair_people [0; 1]%nat /\
  exists st g',
    scan_all SIS (8 # 10) (15 # 100) 10 pair_people [0; 1]%nat 10 pair_rng = Done st /\
    sc_recover st = [0%nat] /\ sc_new_infected st = [0%nat] /\
    state_at (sc_people st) 0 = Some St_I /\
    step SIS (8 # 10) (15 # 100) 10 pair_people [0; 1]%nat 10 pair_rng
      = Done (sc_people st, [1; 0]%nat, 1, g').
Proof.
  split; [vm_compute; reflexivity|].
  do 2 eexists. split; [vm_compute; reflexivity|].
  repeat split; vm_compute; reflexivity.
Qed.

(** ** The infected list in the SIS variant *)

(** C2 at a failing input.  The SIS [step] is called on [trio_people] with
    the consistent list [[0; 1; 2]].  Agent 1 recovers and agent 2 infects
    it again, so that [infected.remove] looks for the value [['I', 5, 5]],
    finds agent 0 first and removes it.  The returned list holds agent 1
    twice and misses agent 0, although all three agents are in state ['I'].
    The same happens on the first day of the run of [trio_config]. *)
Theorem sis_infected_list_drifts :
  consistent trio_people [0; 1; 2]%nat /\
  (exists ppl' g',
     step SIS (8 # 10) (15 # 100) 10 trio_people [0; 1; 2]%nat 10 trio_rng
       = Done (ppl', [1; 2; 1]%nat, 1, g') /\
     infected_refs ppl' = [0; 1; 2]%nat /\
     ~ consistent ppl' [1; 2; 1]%nat) /\
  (exists out,
     create_SIS_simulation 1 trio_config trio_run_rng = Some (Done out) /\
     step_count (final out) = 1 /\
     infected (final out) = [1; 2; 1]%nat /\
     infected_refs (people (final out)) = [0; 1; 2]%nat).
Proof.
  split; [vm_compute; reflexivity|]. split.
  - do 2 eexists. split; [vm_compute; reflexivity|]. split; [vm_compute; reflexivity|].
    intros [Hnd _]%consistent_iff.
    apply NoDup_cons in Hnd as [Hnd _]. apply Hnd. set_solver.
  - eexists. split; [vm_compute; reflexivity|]. repeat split; vm_compute; reflexivity.
Qed.

(** ** The options of the SIS variant *)

(** The values sis.py writes are the defaults of its own signature. *)
Lemma sis_overrides_default : sis_overrides default_config = default_config.
Proof. reflexivity. Qed.

Lemma sis_overrides_with_options d m name cfg :
  sis_overrides (with_options d m name cfg) = sis_overrides cfg.
Proof. reflexivity. Qed.

(** C7 at a failing input.  Whatever [infect_distance], [max_move] and
    [simulation_name] the caller passes, [create_SIS_simulation] behaves as
    with 10, 5 and ['simulation1'].  With [wide_config] the caller asks for
    a radius of 20 and no movement: the SIR run infects the agent fifteen
    units away and leaves agent 0 at (10, 10); the SIS run does not infect
    it, moves agent 0, and saves under the name ['simulation1']. *)
Theorem sis_overwrites_options :
  (forall fuel cfg g d m name,
     create_SIS_simulation fuel (with_options d m name cfg) g
     = create_SIS_simulation fuel cfg g) /\
  (exists out,
     create_SIR_simulation 1 wide_config wide_rng = Some (Done out) /\
     people (final out) = [Person St_I 10 10; Person St_I 25 10] /\
     output_gif_path out = "simulations/wide_SIR.gif"%string) /\
  (exists out,
     create_SIS_simulation 1 wide_config wide_rng = Some (Done out) /\
     people (final out) = [Person St_I 5 5; Person St_S 20 5] /\
     output_gif_path out = "simulations/simulation1_SIS.gif"%string).
Proof.
  split; [reflexivity|].
  split; eexists; (split; [vm_compute; reflexivity|]); split; vm_compute; reflexivity.
Qed.

(** ** The time grid of the compartmental model *)

Lemma length_linspace a b n : length (linspace a b n) = n.
Proof.
  destruct n as [|[|n]]; simpl; [done|done|].
  by rewrite length_map, length_seq.
Qed.

(** The grid has one entry per recorded day. *)
Lemma time_grid_length v suffix fuel cfg g out :
  simulate v suffix fuel cfg g = Some (Done out) ->
  length (t out) = length (simulated_I (final out)) /\
  len (t out) = step_count (final out) + 1.
Proof.
  intros H. pose proof (conserved_run _ _ _ _ _ _ H) as (Hcount & _).
  apply simulate_Done in H as (_ & _ & _ & _ & _ & -> & _).
  unfold time_grid, len in *. rewrite length_linspace. lia.
Qed.

(** After at least one day, entry [k] of the grid is the time
    [k * (step_count + 1) / step_count], not day [k]. *)
Lemma time_grid_entry s k q :
  1 <= step_count s -> time_grid s !! k = Some q ->
  (q == inject_Z (Z.of_nat k) * (inject_Z (step_count s + 1) / inject_Z (step_count s)))%Q.
Proof.
  intros Hsc. unfold time_grid.
  destruct (Z.to_nat (step_count s + 1)) as [|[|n]] eqn:Hn; [lia|lia|].
  unfold linspace. rewrite list_lookup_fmap.
  destruct (seq 0 (S (S n)) !! k) as [j|] eqn:Hj; [|done].
  apply lookup_seq in Hj as [-> _]. simpl. intros [= <-].
  replace (Z.of_nat (S n)) with (step_count s) by lia.
  unfold Qminus. change (- 0)%Q with 0%Q. rewrite !Qplus_0_r. reflexivity.
Qed.

(** C8 at a failing input.  The run of [small_config] lasts two days: the
    agent trajectory records days 0, 1 and 2.  The time grid handed to the
    integrator has three entries too, but they are the times 0, 3/2 and 3:
    the grid ends at [step_count + 1], a day after the last simulated one,
    and its entries are a day and a half apart. *)
Theorem model_grid_overshoots :
  exists out,
    create_SIR_simulation 4 small_config small_rng = Some (Done out) /\
    step_count (final out) = 2 /\
    simulated_I (final out) = [1; 1; 0] /\
    Forall2 Qeq (t out) [0; 3 # 2; 3]%Q.
Proof.
  eexists. split; [vm_compute; reflexivity|].
  split; [vm_compute; reflexivity|]. split; [vm_compute; reflexivity|].
  repeat constructor.
Qed.

(** ** The coordinates at placement *)

(** C9 at a failing input.  [random.randint(0, width)] includes [width]:
    with the draws of [edge_rng] the only agent of [edge_config] is placed,
    infected, at (500, 500) in an area of 500 by 500.  It is there when the
    first day begins and during the whole call of [step] of that day, in
    which it recovers; only the movement that follows brings it inside.
    Both runs complete after that day. *)
Theorem placed_on_the_border :
  (exists g',
     populate edge_config edge_rng = Done ([Person St_I 500 500], [0%nat], g') /\
     people (initial SIR edge_config [Person St_I 500 500] [0%nat] g')
       = [Person St_I 500 500] /\
     exists g'',
       step SIR (8 # 10) (15 # 100) 10 [Person St_I 500 500] [0%nat] 10 g'
         = Done ([Person St_R 500 500], [], 1, g'') /\
       step SIS (8 # 10) (15 # 100) 10 [Person St_I 500 500] [0%nat] 10 g'
         = Done ([Person St_S 500 500], [], 1, g'')) /\
  (exists out,
     create_SIR_simulation 1 edge_config edge_rng = Some (Done out) /\
     step_count (final out) = 1 /\
     people (final out) = [Person St_R 495 495]) /\
  (exists out,
     create_SIS_simulation 1 edge_config edge_rng = Some (Done out) /\
     step_count (final out) = 1 /\
     people (final out) = [Person St_S 495 495]) /\
  ~ (500 < cfg_width edge_config) /\ ~ (500 < cfg_height edge_config).
Proof.
  split.
  { eexists. split; [vm_compute; reflexivity|]. split; [reflexivity|].
    eexists. split; vm_compute; reflexivity. }
  split; [eexists; repeat split; vm_compute; reflexivity|].
  split; [eexists; repeat split; vm_compute; reflexivity|].
  split; vm_compute; discriminate.
Qed.

(** * Further properties of the engine *)

(** ** What [step] keeps, whatever its input *)

(** X1. [step] moves nobody and adds or drops nobody: the population it
    returns has the agents of [people], in the same order, each at the place
    it was. *)
Theorem step_keeps_places v infect_rate recover_rate infect_distance
    ppl L cell_size g ppl' inf' n g' :
  step v infect_rate recover_rate infect_distance ppl L cell_size g
    = Done (ppl', inf', n, g') ->
  Forall2 same_place ppl ppl' /\ length ppl' = length ppl.
Proof.
  intros H. apply step_Done in H as (st & l' & Hscan & _ & -> & _).
  assert (Forall2 same_place ppl (sc_people st)) as HF.
  { eapply scan_all_related; [| | |exact Hscan]; by intros. }
  split; [done|]. symmetry. by eapply Forall2_length.
Qed.

Lemma step_keeps_places_witness :
  exists ppl' inf' n g',
    step SIR (8 # 10) (15 # 100) 10 mixed_people [0%nat] 10 mixed_rng
      = Done (ppl', inf', n, g') /\
    Forall2 same_place mixed_people ppl' /\ length ppl' = 3%nat.
Proof.
  do 4 eexists. split; [vm_compute; reflexivity|].
  eapply (step_keeps_places SIR (8 # 10) (15 # 100) 10 mixed_people [0%nat] 10 mixed_rng).
  vm_compute. reflexivity.
Defined.

(** X2. The list [step] returns is the old list without one element for
    each recovery, in the old order, followed by the agents infected during
    the call: its length is [len(infected) - recovered_num +
    len(new_infected)], and [0 <= recovered_num <= len(infected)]. *)
Theorem step_accounting v infect_rate recover_rate infect_distance
    ppl L cell_size g ppl' inf' n g' :
  step v infect_rate recover_rate infect_distance ppl L cell_size g
    = Done (ppl', inf', n, g') ->
  exists st kept,
    scan_all v infect_rate recover_rate infect_distance ppl L cell_size g = Done st /\
    inf' = kept ++ sc_new_infected st /\
    kept `sublist_of` L /\
    sc_recover st `sublist_of` L /\
    n = len (sc_recover st) /\
    len kept = len L - n /\
    len inf' = len L - n + len (sc_new_infected st) /\
    0 <= n <= len L.
Proof.
  intros H. apply step_Done in H as (st & l' & Hscan & Hrem & -> & -> & -> & _).
  apply remove_all_sublist in Hrem as [Hsub Hlen].
  exists st, l'. unfold len. rewrite length_app.
  pose proof (scan_all_recover _ _ _ _ _ _ _ _ _ Hscan) as Hrec.
  repeat split; try done; lia.
Qed.

Lemma step_accounting_witness :
  exists ppl' inf' n g' st kept,
    step SIR (8 # 10) (15 # 100) 10 mixed_people [0%nat] 10 mixed_rng
      = Done (ppl', inf', n, g') /\
    inf' = kept ++ sc_new_infected st /\ len inf' = 1 - n + len (sc_new_infected st).
Proof.
  do 4 eexists.
  destruct (step_accounting SIR (8 # 10) (15 # 100) 10 mixed_people [0%nat] 10 mixed_rng
              _ _ _ _ ltac:(vm_compute; reflexivity))
    as (st & kept & _ & H1 & _ & _ & _ & _ & H2 & _).
  exists st, kept. split; [vm_compute; reflexivity|]. split; [exact H1|exact H2].
Defined.

Lemma populate_grid_zero a ppl : populate_grid (a :: ppl) 0 = Raise ZeroDivisionError.
Proof. reflexivity. Qed.

(** X3. [step] fails in two ways only: by a division by a zero cell
    size, and by an overflow in [find_distance] when the sum of the two
    squares is 2^1023 or more.  With a non-zero cell size and agents closer
    than that it returns, whatever the two lists are (the search of
    [infected.remove] never fails); with a zero cell size and at least one
    agent it raises [ZeroDivisionError]. *)
Theorem step_exceptions v infect_rate recover_rate infect_distance
    ppl L cell_size g :
  (cell_size <> 0 -> squares_below (2 ^ 1023) ppl ->
   exists r, step v infect_rate recover_rate infect_distance ppl L cell_size g = Done r) /\
  (forall e, step v infect_rate recover_rate infect_distance ppl L cell_size g = Raise e ->
     (e = ZeroDivisionError /\ cell_size = 0) \/
     (e = OverflowError /\ too_far_apart ppl)) /\
  (cell_size = 0 -> ppl <> [] ->
   step v infect_rate recover_rate infect_distance ppl L cell_size g
     = Raise ZeroDivisionError).
Proof.
  split; [apply step_total|]. split; [intros e; apply step_Raise|].
  intros -> Hne. destruct ppl as [|a ppl]; [done|].
  unfold step, scan_all. by rewrite populate_grid_zero.
Qed.

Lemma squares_below_mixed : squares_below (2 ^ 53) mixed_people.
Proof.
  intros a b Ha Hb. unfold mixed_people in *.
  repeat (apply elem_of_cons in Ha as [->|Ha]); try (by apply elem_of_nil in Ha);
    repeat (apply elem_of_cons in Hb as [->|Hb]); try (by apply elem_of_nil in Hb);
    vm_compute; reflexivity.
Qed.

Lemma step_exceptions_witness :
  (exists r, step SIR (8 # 10) (15 # 100) 10 mixed_people [0%nat] 10 mixed_rng = Done r) /\
  step SIR (8 # 10) (15 # 100) 10 mixed_people [0%nat] 0 mixed_rng
    = Raise ZeroDivisionError /\
  (step SIR (8 # 10) (15 # 100) (10 ^ 161) distant_people [0%nat] (10 ^ 161) mixed_rng
     = Raise OverflowError /\ too_far_apart distant_people).
Proof.
  split; [|split].
  - apply (proj1 (step_exceptions SIR (8 # 10) (15 # 100) 10
                    mixed_people [0%nat] 10 mixed_rng)); [lia|].
    apply (squares_below_weaken (2 ^ 53)); [vm_compute; discriminate|].
    apply squares_below_mixed.
  - apply (proj2 (proj2 (step_exceptions SIR (8 # 10) (15 # 100) 10
                    mixed_people [0%nat] 0 mixed_rng))); [reflexivity|discriminate].
  - assert (step SIR (8 # 10) (15 # 100) (10 ^ 161) distant_people [0%nat] (10 ^ 161)
              mixed_rng = Raise OverflowError) as H by (vm_compute; reflexivity).
    split; [exact H|].
    destruct (proj1 (proj2 (step_exceptions SIR (8 # 10) (15 # 100) (10 ^ 161)
                distant_people [0%nat] (10 ^ 161) mixed_rng)) _ H) as [[E _]|[_ Hfar]];
      [discriminate E|exact Hfar].
Defined.

(** X4. In the SIR variant nobody goes back: over a call of [step], and
    over a whole day, every agent stays where it is in the order ['S'], ['I'],
    ['R'] or moves forward; a recovered agent stays recovered and an
    infected one never becomes susceptible again. *)
Theorem sir_never_goes_back infect_rate recover_rate infect_distance
    ppl L cell_size g ppl' inf' n g' cfg s s' :
  (step SIR infect_rate recover_rate infect_distance ppl L cell_size g
     = Done (ppl', inf', n, g') ->
   Forall2 later_stage ppl ppl') /\
  (day SIR cfg s = Done s' -> Forall2 later_stage (people s) (people s')).
Proof.
  assert (forall ir rr d p l c g0 st,
            scan_all SIR ir rr d p l c g0 = Done st -> Forall2 later_stage p (sc_people st))
    as Hscan.
  { intros ir rr d p l c g0 st. apply scan_all_related; unfold later_stage.
    - intros a. lia.
    - intros a b Hab Hb. simpl. rewrite Hb in Hab. simpl in Hab. lia.
    - intros a b Hab. simpl. destruct (p_state a); simpl; lia. }
  split.
  - intros H. apply step_Done in H as (st & l' & H & _ & -> & _). by eapply Hscan.
  - intros H.
    apply day_Done in H as (p1 & inf & rec & g1 & p2 & g2 & Hstep & Hmove & <- & _).
    apply step_Done in Hstep as (st & l' & Hst & _ & -> & _).
    apply Hscan in Hst. apply move_all_Done in Hmove.
    apply Forall2_same_length_lookup. split.
    + rewrite (Forall2_length _ _ _ Hst). by eapply Forall2_length.
    + intros k a c Ha Hc.
      destruct (Forall2_lookup_l _ _ _ _ _ Hst Ha) as (b & Hb & Hab).
      destruct (Forall2_lookup_l _ _ _ _ _ Hmove Hb) as (c' & Hc' & [Hbc _]).
      rewrite Hc in Hc'. injection Hc' as <-.
      unfold later_stage in *. by rewrite Hbc.
Qed.

Lemma sir_never_goes_back_witness :
  exists ppl' inf' n g',
    step SIR (8 # 10) (15 # 100) 10 mixed_people [0%nat] 10 mixed_rng
      = Done (ppl', inf', n, g') /\
    Forall2 later_stage mixed_people ppl'.
Proof.
  do 4 eexists. split; [vm_compute; reflexivity|].
  eapply (proj1 (sir_never_goes_back (8 # 10) (15 # 100) 10 mixed_people [0%nat] 10
                   mixed_rng _ _ _ _ small_config (initial SIR small_config [] [] mixed_rng)
                   (initial SIR small_config [] [] mixed_rng))).
  vm_compute. reflexivity.
Defined.

(** Every agent infected during the loop has passed the test of [step]
    against an agent of the list; in the SIR variant it was susceptible at
    the start. *)
Lemma scan_all_contacts v infect_rate recover_rate infect_distance ppl L cell_size g st p :
  scan_all v infect_rate recover_rate infect_distance ppl L cell_size g = Done st ->
  p ∈ sc_new_infected st ->
  exists i a b,
    i ∈ L /\ ppl !! i = Some a /\ ppl !! p = Some b /\
    find_distance_lt a b infect_distance = Done true /\
    (v = SIR -> p_state b = St_S).
Proof.
  intros Hscan. revert p.
  set (R := fun a b : person => same_place a b /\ (v = SIR -> later_stage a b)).
  apply (scan_all_invariant _ _ _ _ (fun st =>
    Forall2 R ppl (sc_people st) /\
    forall p, p ∈ sc_new_infected st ->
      exists i a b,
        i ∈ L /\ ppl !! i = Some a /\ ppl !! p = Some b /\
        find_distance_lt a b infect_distance = Done true /\
        (v = SIR -> p_state b = St_S))) in Hscan; [by destruct Hscan| | |].
  - intros i q s s' Hi [HF Hnew] Hc.
    apply contact_cases in Hc
      as [(-> & -> & _) | (a & b & Ha & Hb & HS & Hd & _ & -> & -> & _)]; [done|].
    destruct (Forall2_lookup_r _ _ _ _ _ HF Ha) as (a0 & Ha0 & [Haa _]).
    destruct (Forall2_lookup_r _ _ _ _ _ HF Hb) as (b0 & Hb0 & [Hbb Hst]).
    split.
    + apply Forall2_alter_right; [done|].
      intros x y Hx Hy. rewrite Hb0 in Hx. rewrite Hb in Hy.
      injection Hx as <-. injection Hy as <-.
      split; [done|]. intros Hv. specialize (Hst Hv).
      unfold later_stage in *. simpl. rewrite HS in Hst. simpl in Hst. lia.
    + intros p [Hp | ->%list_elem_of_singleton]%elem_of_app; [by apply Hnew|].
      exists i, a0, b0. repeat split; try done.
      * by rewrite <- (find_distance_lt_same_place a0 b0 a b).
      * intros Hv. specialize (Hst Hv). unfold later_stage in Hst.
        rewrite HS in Hst. destruct (p_state b0); simpl in Hst; [done|lia|lia].
  - intros i s Hi _ [HF Hnew].
    destruct (recovery_cases v recover_rate i s) as (-> & [(_ & -> & _) | (_ & -> & _)]);
      [done|].
    split; [|done]. apply Forall2_alter_right; [done|].
    intros x y Hx Hy. destruct (Forall2_lookup_lr _ _ _ _ _ _ HF Hx Hy) as [Hxy Hst].
    split; [done|]. intros ->. unfold later_stage. simpl.
    destruct (p_state x); simpl; lia.
  - simpl. split.
    + apply Forall_Forall2_diag, Forall_forall. intros a _. split; [done|].
      intros _. unfold later_stage. lia.
    + intros p Hp. by apply elem_of_nil in Hp.
Qed.




(** X6. With an [infect_rate] of zero or less nobody is infected: the list
    [step] returns is a part of the old list, in the old order, and every
    agent in state ['I'] afterwards was in state ['I'] before. *)
Theorem no_transmission v infect_rate recover_rate infect_distance
    ppl L cell_size g ppl' inf' n g' :
  (infect_rate <= 0)%Q ->
  step v infect_rate recover_rate infect_distance ppl L cell_size g
    = Done (ppl', inf', n, g') ->
  inf' `sublist_of` L /\
  forall k, state_at ppl' k = Some St_I -> state_at ppl k = Some St_I.
Proof.
  intros Hrate H. apply step_Done in H as (st & l' & Hscan & Hrem & -> & -> & _).
  apply (scan_all_invariant _ _ _ _ (fun st =>
    sc_new_infected st = [] /\
    forall k, state_at (sc_people st) k = Some St_I -> state_at ppl k = Some St_I))
    in Hscan.
  - destruct Hscan as [-> Hst]. rewrite app_nil_r.
    split; [|done]. by apply remove_all_sublist in Hrem as [? _].
  - intros i q s s' _ HP Hc.
    apply contact_cases in Hc
      as [(-> & -> & _) | (_ & _ & _ & _ & _ & _ & Hu & _)]; [done|].
    by rewrite (draw_fails _ _ Hrate) in Hu.
  - intros i s _ _ [Hnew Hst].
    destruct (recovery_cases v recover_rate i s) as (-> & [(_ & -> & _) | (_ & -> & _)]);
      [done|].
    split; [done|]. intros k. rewrite state_at_alter.
    destruct (decide (k = i)) as [->|]; [|apply Hst].
    destruct (state_at (sc_people s) i); simpl; [|done]. intros [= E]. by destruct v.
  - done.
Qed.

Lemma no_transmission_witness :
  exists ppl' inf' n g',
    step SIR 0 (15 # 100) 10 mixed_people [0%nat] 10 mixed_rng = Done (ppl', inf', n, g') /\
    inf' `sublist_of` [0%nat].
Proof.
  do 4 eexists. split; [vm_compute; reflexivity|].
  eapply (no_transmission SIR 0 (15 # 100) 10 mixed_people [0%nat] 10 mixed_rng).
  - done.
  - vm_compute. reflexivity.
Defined.

(** With a [recover_rate] of zero or less nobody recovers. *)
Lemma scan_all_no_recovery v infect_rate recover_rate infect_distance ppl L cell_size g st :
  (recover_rate <= 0)%Q ->
  scan_all v infect_rate recover_rate infect_distance ppl L cell_size g = Done st ->
  sc_recover st = [] /\
  forall k, state_at ppl k = Some St_I -> state_at (sc_people st) k = Some St_I.
Proof.
  intros Hrate.
  apply (scan_all_invariant _ _ _ _ (fun st =>
    sc_recover st = [] /\
    forall k, state_at ppl k = Some St_I -> state_at (sc_people st) k = Some St_I)).
  - intros i q s s' _ [Hrec Hst] Hc.
    apply contact_cases in Hc
      as [(-> & _ & -> & _) | (_ & b & _ & Hb & HS & _ & _ & -> & _ & ->)]; [done|].
    split; [done|]. intros k Hk. rewrite state_at_alter.
    destruct (decide (k = q)) as [->|]; [|by apply Hst].
    rewrite (Hst q Hk). done.
  - intros i s _ _ HP.
    destruct (recovery_cases v recover_rate i s) as (_ & [(_ & -> & ->) | (Hu & _)]);
      [done|].
    by rewrite (draw_fails _ _ Hrate) in Hu.
  - done.
Qed.

Lemma step_no_recovery v infect_rate recover_rate infect_distance
    ppl L cell_size g ppl' inf' n g' :
  (recover_rate <= 0)%Q ->
  step v infect_rate recover_rate infect_distance ppl L cell_size g
    = Done (ppl', inf', n, g') ->
  n = 0 /\ L `prefix_of` inf' /\
  forall k, state_at ppl k = Some St_I -> state_at ppl' k = Some St_I.
Proof.
  intros Hrate H. apply step_Done in H as (st & l' & Hscan & Hrem & -> & -> & -> & _).
  apply scan_all_no_recovery in Hscan as [Hrec Hst]; [|done].
  rewrite Hrec in *. injection Hrem as <-.
  split; [done|]. split; [by eexists|done].
Qed.

(** X7. With a [recover_rate] of zero or less nobody recovers:
    [recovered_num] is 0, the returned list starts with the whole old list,
    and every agent in state ['I'] stays in state ['I']. *)
Theorem no_recovery v infect_rate recover_rate infect_distance
    ppl L cell_size g ppl' inf' n g' :
  (recover_rate <= 0)%Q ->
  step v infect_rate recover_rate infect_distance ppl L cell_size g
    = Done (ppl', inf', n, g') ->
  n = 0 /\ L `prefix_of` inf' /\
  forall k, state_at ppl k = Some St_I -> state_at ppl' k = Some St_I.
Proof. apply step_no_recovery. Qed.

Lemma no_recovery_witness :
  exists ppl' inf' g',
    step SIR (8 # 10) 0 10 mixed_people [0%nat] 10 mixed_rng = Done (ppl', inf', 0, g') /\
    [0%nat] `prefix_of` inf'.
Proof.
  do 3 eexists. split; [vm_compute; reflexivity|].
  eapply (no_recovery SIR (8 # 10) 0 10 mixed_people [0%nat] 10 mixed_rng).
  - done.
  - vm_compute. reflexivity.
Defined.

(** X8. An epidemic in which nobody recovers runs into the cap, and the cap
    is [max_days + 1] days: with a [recover_rate] of zero or less and at
    least one agent placed infected, a completed run of either variant ends
    with [step_count = max_days + 1] and a non-empty infected list. *)
Theorem endless_epidemic_hits_cap fuel cfg g out ppl inf g0 :
  (cfg_recover_rate cfg <= 0)%Q -> -1 <= max_days cfg ->
  populate cfg g = Done (ppl, inf, g0) -> inf <> [] ->
  create_SIR_simulation fuel cfg g = Some (Done out) \/
  create_SIS_simulation fuel cfg g = Some (Done out) ->
  step_count (final out) = max_days cfg + 1 /\ infected (final out) <> [].
Proof.
  intros Hrate Hmax Hpop Hinf Hrun.
  assert (exists v c suffix,
            simulate v suffix fuel c g = Some (Done out) /\
            cfg_recover_rate c = cfg_recover_rate cfg /\ max_days c = max_days cfg /\
            populate c g = populate cfg g) as (v & c & suffix & H & Hr & Hm & Hp).
  { destruct Hrun as [H|H].
    - by exists SIR, cfg, "_SIR.gif"%string.
    - by exists SIS, (sis_overrides cfg), "_SIS.gif"%string. }
  apply simulate_Done in H as (ppl1 & inf1 & g1 & Hpop1 & Hloop & _).
  rewrite Hp, Hpop in Hpop1. injection Hpop1 as <- <- <-.
  pose proof (day_loop_stops _ _ _ _ _ _ _ Hloop) as [[Hbound _] Hstop].
  apply (day_loop_invariant (fun s => infected s <> [])) in Hloop as [Hne _].
  - rewrite Hm in *. split; [|done]. destruct Hstop as [?|?]; [done|lia].
  - intros s s' Hs _ Hd.
    apply day_Done in Hd as (p1 & i1 & rec & g2 & p2 & g3 & Hstep & _ & _ & -> & _).
    apply step_no_recovery in Hstep as (_ & [k ->] & _); [|by rewrite Hr].
    destruct (infected s); [done|discriminate].
  - done.
Qed.

Lemma endless_epidemic_hits_cap_witness :
  exists out,
    create_SIR_simulation 4 endless_config small_rng = Some (Done out) /\
    step_count (final out) = 4 /\ infected (final out) <> [].
Proof.
  eexists. split; [vm_compute; reflexivity|].
  eapply (endless_epidemic_hits_cap 4 endless_config small_rng).
  - done.
  - vm_compute. discriminate.
  - vm_compute. reflexivity.
  - discriminate.
  - left. vm_compute. reflexivity.
Defined.

(** ** Certain recovery and certain transmission *)

Lemma scan_block_recover infect_rate infect_distance grid i cell st st' :
  scan_block infect_rate infect_distance grid i cell st = Done st' ->
  sc_recover st' = sc_recover st.
Proof.
  rewrite scan_block_neighbors.
  apply (foldM_invariant (fun s => sc_recover s = sc_recover st)); [|done].
  intros s p s' _ Hs Hc.
  by apply contact_cases in Hc
    as [(_ & _ & -> & _) | (_ & _ & _ & _ & _ & _ & _ & _ & _ & ->)].
Qed.

(** With a [recover_rate] of one or more every agent visited recovers. *)
Lemma scan_fold_recover_all v infect_rate recover_rate infect_distance grid cell_size ppl :
  (1 <= recover_rate)%Q ->
  forall todo st st',
    Forall2 same_place ppl (sc_people st) ->
    (forall i, i ∈ todo -> is_Some (ppl !! i)) ->
    foldM (visit v infect_rate recover_rate infect_distance grid cell_size) st todo = Done st' ->
    sc_recover st' = sc_recover st ++ todo.
Proof.
  intros Hrate. induction todo as [|i todo IH]; intros st st' HF Hvalid; simpl.
  - intros [= <-]. by rewrite app_nil_r.
  - intros H. apply bind_Done in H as (st1 & H1 & H2).
    destruct (Hvalid i ltac:(by left)) as [a0 Ha0].
    destruct (Forall2_lookup_l _ _ _ _ _ HF Ha0) as (a & Ha & _).
    unfold visit in H1. rewrite Ha in H1.
    apply bind_Done in H1 as (cell & _ & H1).
    apply bind_Done in H1 as (st0 & Hst0 & H1). injection H1 as <-.
    rewrite (IH _ _ (recovery_same_place _ _ _ _ _
                       (scan_block_same_place _ _ _ _ _ _ _ _ HF Hst0))
               ltac:(intros k Hk; apply Hvalid; by right) H2).
    destruct (recovery_cases v recover_rate i st0) as (_ & [(Hu & _) | (_ & _ & ->)]).
    + by rewrite (draw_succeeds _ _ Hrate) in Hu.
    + by rewrite (scan_block_recover _ _ _ _ _ _ _ Hst0), <- app_assoc.
Qed.

(** X9. With a [recover_rate] of one or more every infected agent recovers
    on the day: in the SIR variant, from a consistent infected list,
    [recovered_num] is the length of the list, every agent of the list ends
    in state ['R'] and outside the returned list, which holds the agents
    infected during the call and nobody else. *)
Theorem certain_recovery infect_rate recover_rate infect_distance
    ppl L cell_size g ppl' inf' n g' :
  consistent ppl L -> (1 <= recover_rate)%Q ->
  step SIR infect_rate recover_rate infect_distance ppl L cell_size g
    = Done (ppl', inf', n, g') ->
  n = len L /\
  (forall i, i ∈ L -> state_at ppl' i = Some St_R /\ i ∉ inf') /\
  (forall p, p ∈ inf' -> state_at ppl p = Some St_S /\ state_at ppl' p = Some St_I).
Proof.
  intros Hc Hrate H.
  pose proof (step_SIR_consistent _ _ _ _ _ _ _ _ _ _ _ Hc H) as Hc'.
  apply step_Done in H as (st & l' & Hscan & Hrem & -> & -> & -> & _).
  pose proof (scan_all_inv _ _ _ _ _ _ _ _ _ Hc Hscan) as [Hrec Hndnew Hnew Hst Hrc].
  apply consistent_iff in Hc as [Hnd HL]. apply consistent_iff in Hc' as [Hnd' HL'].
  assert (sc_recover st = L) as HrecL.
  { pose proof Hscan as Hfold. unfold scan_all in Hfold.
    apply bind_Done in Hfold as (grid & _ & Hfold).
    apply (scan_fold_recover_all _ _ _ _ _ _ ppl Hrate) in Hfold; [done| |].
    - simpl. by apply Forall_Forall2_diag, Forall_forall.
    - intros i Hi%HL. unfold state_at in Hi. by destruct (ppl !! i). }
  assert (forall i, i ∈ L -> state_at (sc_people st) i = Some St_R) as HR.
  { intros i Hi. apply (Hrc i); [by rewrite HrecL|].
    intros Hin. by apply (Hnew i Hin). }
  split; [by rewrite HrecL|]. split.
  - intros i Hi. split; [by apply HR|].
    intros Hin%HL'. rewrite (HR i Hi) in Hin. done.
  - intros p Hp. pose proof Hp as HpI%HL'. split; [|done].
    apply Hst in HpI as [[Hin _] | Hin].
    + apply HL' in Hp. rewrite (HR p Hin) in Hp. done.
    + destruct (scan_all_contacts _ _ _ _ _ _ _ _ _ _ Hscan Hin)
        as (_ & _ & b & _ & _ & Hb & _ & HS).
      unfold state_at. rewrite Hb. simpl. by rewrite HS.
Qed.

Lemma certain_recovery_witness :
  exists ppl' inf' n g',
    step SIR (8 # 10) 1 10 mixed_people [0%nat] 10 mixed_rng = Done (ppl', inf', n, g') /\
    n = 1 /\ state_at ppl' 0 = Some St_R.
Proof.
  do 4 eexists. split; [vm_compute; reflexivity|].
  assert (consistent mixed_people [0%nat]) as Hc by (vm_compute; reflexivity).
  assert ((1 <= 1)%Q) as Hrate by done.
  destruct (certain_recovery (8 # 10) 1 10 mixed_people [0%nat] 10 mixed_rng _ _ _ _ Hc
              Hrate ltac:(vm_compute; reflexivity)) as (Hn & Hall & _).
  split; [exact Hn|]. apply (Hall 0%nat). by left.
Defined.

(** The agents the block scan goes through include every agent within
    reach. *)
Lemma neighbors_cover ppl d grid i p a b :
  populate_grid ppl d = Done grid ->
  ppl !! i = Some a -> ppl !! p = Some b ->
  (euclidean_distance a b < IZR d)%R ->
  p ∈ neighbors_of grid (cell_of d a).
Proof.
  intros Hgrid Hi Hp Hdist.
  apply euclidean_distance_axes in Hdist as (Hd & Hx & Hy).
  destruct (cell_near _ _ _ Hd Hx) as (dx & Hdx & Ex).
  destruct (cell_near _ _ _ Hd Hy) as (dy & Hdy & Ey).
  apply elem_of_neighbors_of. exists dx, dy. split; [done|]. split; [done|].
  simpl. rewrite <- Ex, <- Ey. fold (cell_of d b).
  rewrite (populate_grid_Done _ _ _ Hgrid). apply elem_of_refs_with. eauto.
Qed.

(** The states change only for the agents that recovered or were
    infected. *)
Lemma scan_all_unchanged v infect_rate recover_rate infect_distance ppl L cell_size g st k :
  scan_all v infect_rate recover_rate infect_distance ppl L cell_size g = Done st ->
  k ∉ sc_recover st -> k ∉ sc_new_infected st ->
  state_at (sc_people st) k = state_at ppl k.
Proof.
  intros Hscan. revert k.
  apply (scan_all_invariant v infect_rate recover_rate infect_distance (fun st => forall k,
    k ∉ sc_recover st -> k ∉ sc_new_infected st ->
    state_at (sc_people st) k = state_at ppl k) ppl L cell_size g st); [| |done|done].
  - intros i q s s' _ HP Hc k.
    apply contact_cases in Hc
      as [(-> & -> & -> & _) | (_ & _ & _ & _ & _ & _ & _ & -> & -> & ->)]; [apply HP|].
    intros Hr Hn. rewrite state_at_alter.
    destruct (decide (k = q)) as [->|].
    + exfalso. apply Hn, elem_of_app. right. by apply list_elem_of_singleton.
    + apply HP; [done|]. intros Hin. apply Hn, elem_of_app. by left.
  - intros i s _ _ HP k.
    destruct (recovery_cases v recover_rate i s)
      as (-> & [(_ & -> & ->) | (_ & -> & ->)]); [apply HP|].
    intros Hr Hn. rewrite state_at_alter.
    destruct (decide (k = i)) as [->|].
    + exfalso. apply Hr, elem_of_app. right. by apply list_elem_of_singleton.
    + apply HP; [|done]. intros Hin. apply Hr, elem_of_app. by left.
Qed.

Section CertainTransmission.
Variable v : variant.
Variables infect_rate recover_rate : Q.
Variable d : Z.
Variables (ppl : list person) (L : list nat) (i p : nat) (a b : person).
Hypothesis Hrate : (1 <= infect_rate)%Q.
Hypothesis Hi : ppl !! i = Some a.
Hypothesis Hp : ppl !! p = Some b.
Hypothesis Hreach : find_distance_lt a b d = Done true.
Hypothesis HpL : p ∉ L.

Local Abbreviation not_S st := (state_at (sc_people st) p <> Some St_S).

Lemma contact_keeps_not_S j q st st' :
  not_S st -> contact infect_rate d j q st = Done st' -> not_S st'.
Proof.
  intros Hn [(-> & _) | (_ & _ & _ & _ & _ & _ & _ & -> & _)]%contact_cases; [done|].
  rewrite state_at_alter. destruct (decide (p = q)); [|done].
  by destruct (state_at (sc_people st) p).
Qed.

Lemma recovery_keeps_not_S j st :
  j ∈ L -> not_S st -> not_S (recovery v recover_rate j st).
Proof.
  intros Hj Hn.
  destruct (recovery_cases v recover_rate j st) as (_ & [(_ & -> & _) | (_ & -> & _)]);
    [done|].
  rewrite state_at_alter. destruct (decide (p = j)) as [->|]; done.
Qed.

(** The contact of [i] with [p] leaves [p] infected if it was
    susceptible. *)
Lemma contact_infects st st' :
  Forall2 same_place ppl (sc_people st) ->
  contact infect_rate d i p st = Done st' -> not_S st'.
Proof.
  intros HF Hc.
  destruct (Forall2_lookup_l _ _ _ _ _ HF Hi) as (a' & Ha' & Haa).
  destruct (Forall2_lookup_l _ _ _ _ _ HF Hp) as (b' & Hb' & Hbb).
  apply contact_cases in Hc
    as [(-> & _ & _ & Hno) | (_ & _ & _ & _ & _ & _ & _ & -> & _)].
  - unfold state_at. rewrite Hb'. simpl. intros [= HS].
    specialize (Hno a' b' Ha' Hb' HS).
    rewrite (find_distance_lt_same_place a b a' b') in Hno by done.
    rewrite (draw_succeeds _ _ Hrate) in Hno. by specialize (Hno Hreach).
  - rewrite state_at_alter, decide_True by done.
    unfold state_at. by rewrite Hb'.
Qed.

Lemma contacts_infect l :
  p ∈ l -> forall st st',
  Forall2 same_place ppl (sc_people st) ->
  foldM (fun st q => contact infect_rate d i q st) st l = Done st' ->
  not_S st'.
Proof.
  induction l as [|q l IH]; intros Hin st st' HF; [by apply elem_of_nil in Hin|].
  simpl. intros H. apply bind_Done in H as (st1 & H1 & H2).
  destruct (decide (q = p)) as [->|Hne].
  - revert H2. apply (foldM_invariant (fun s => not_S s)).
    + intros s q s' _ Hs. by apply contact_keeps_not_S.
    + by eapply contact_infects.
  - apply (IH ltac:(apply elem_of_cons in Hin as [?|?]; [congruence|done]) st1); [|done].
    by eapply contact_same_place.
Qed.

Lemma visits_infect grid :
  p ∈ neighbors_of grid (cell_of d a) ->
  forall todo st st',
    todo ⊆ L -> i ∈ todo ->
    Forall2 same_place ppl (sc_people st) ->
    foldM (visit v infect_rate recover_rate d grid d) st todo = Done st' ->
    not_S st'.
Proof.
  intros Hcover. induction todo as [|j todo IH]; intros st st' Hsub Hin HF; simpl.
  - by apply elem_of_nil in Hin.
  - intros H. apply bind_Done in H as (st1 & H1 & H2).
    assert (j ∈ L) as Hj by (apply Hsub; by left).
    assert (todo ⊆ L) as Hsub' by (intros k Hk; apply Hsub; by right).
    pose proof (visit_same_place _ _ _ _ _ _ _ _ _ _ HF H1) as HF1.
    assert (j = i -> not_S st1) as Hn1.
    { unfold visit in H1. destruct (sc_people st !! j) as [a'|] eqn:Ha'.
      - apply bind_Done in H1 as (cell & Hcell & H1).
        apply bind_Done in H1 as (st0 & Hst0 & H1). injection H1 as <-.
        intros ->. apply recovery_keeps_not_S; [done|].
        rewrite scan_block_neighbors in Hst0.
        assert (cell = cell_of d a) as ->.
        { destruct (Forall2_lookup_l _ _ _ _ _ HF Hi) as (a'' & Ha'' & [Hx Hy]).
          rewrite Ha' in Ha''. injection Ha'' as <-.
          unfold get_cell in Hcell. destruct (d =? 0); [done|].
          injection Hcell as <-. unfold cell_of. by rewrite Hx, Hy. }
        exact (contacts_infect _ Hcover st st0 HF Hst0).
      - injection H1 as <-. intros ->.
        destruct (Forall2_lookup_l _ _ _ _ _ HF Hi) as (a'' & Ha'' & _). congruence. }
    destruct (decide (j = i)) as [E|E].
    + apply (scan_fold_invariant _ _ _ _ _ _ (fun s => not_S s) L) in H2; auto.
      * intros k q s s' _ Hs. by apply contact_keeps_not_S.
      * intros k s Hk _. by apply recovery_keeps_not_S.
    + apply (IH st1); try done. apply elem_of_cons in Hin as [?|?]; [congruence|done].
Qed.
End CertainTransmission.

(** X10. With an [infect_rate] of one or more, transmission is certain: when
    the cell size is the contact radius, at most 2^26, and the infected
    list is consistent, every susceptible agent at a Euclidean distance less
    than [infect_distance] from an agent of the list ends the call in state
    ['I'] and in the returned list. *)
Theorem certain_transmission v infect_rate recover_rate d ppl L g ppl' inf' n g' i p a b :
  consistent ppl L -> (1 <= infect_rate)%Q -> d <= 2 ^ 26 ->
  step v infect_rate recover_rate d ppl L d g = Done (ppl', inf', n, g') ->
  i ∈ L -> ppl !! i = Some a -> ppl !! p = Some b -> p_state b = St_S ->
  (euclidean_distance a b < IZR d)%R ->
  state_at ppl' p = Some St_I /\ p ∈ inf'.
Proof.
  intros Hc Hrate Hd26 H Hi Ha Hb HS Hdist.
  assert (find_distance_lt a b d = Done true) as Hreach.
  { pose proof Hdist as [Hd Hsq]%euclidean_distance_lt.
    destruct (find_distance_lt_exact a b d) as (near & Hnear & Hiff); [nia|done|].
    rewrite Hnear. f_equal. by apply Hiff. }
  apply step_Done in H as (st & l' & Hscan & Hrem & -> & -> & _).
  pose proof (scan_all_inv _ _ _ _ _ _ _ _ _ Hc Hscan) as [Hrec Hndnew Hnew Hst Hrc].
  apply consistent_iff in Hc as [Hnd HL].
  assert (p ∉ L) as HpL.
  { intros Hin%HL. unfold state_at in Hin. rewrite Hb in Hin. simpl in Hin. congruence. }
  assert (state_at (sc_people st) p <> Some St_S) as HnotS.
  { pose proof Hscan as Hfold. unfold scan_all in Hfold.
    apply bind_Done in Hfold as (grid & Hgrid & Hfold).
    eapply (visits_infect v infect_rate recover_rate d ppl L i p a b Hrate Ha Hb Hreach HpL
              grid); [|done|exact Hi| |exact Hfold].
    - by eapply neighbors_cover.
    - simpl. apply Forall_Forall2_diag, Forall_forall. intros x _. apply same_place_refl. }
  assert (p ∈ sc_new_infected st) as Hnew_p.
  { destruct (decide (p ∈ sc_new_infected st)) as [|Hn]; [done|]. exfalso.
    apply HnotS. rewrite (scan_all_unchanged _ _ _ _ _ _ _ _ _ _ Hscan); [|  |done].
    - unfold state_at. by rewrite Hb, <- HS.
    - intros Hin. apply HpL. by eapply elem_of_sublist. }
  split; [apply Hst; by right|]. apply elem_of_app. by right.
Qed.

Lemma certain_transmission_witness :
  exists ppl' inf' n g',
    step SIR 1 (15 # 100) 10 mixed_people [0%nat] 10 mixed_rng = Done (ppl', inf', n, g') /\
    state_at ppl' 1 = Some St_I /\ 1%nat ∈ inf'.
Proof.
  do 4 eexists. split; [vm_compute; reflexivity|].
  assert (consistent mixed_people [0%nat]) as Hc by (vm_compute; reflexivity).
  eapply (certain_transmission SIR 1 (15 # 100) 10 mixed_people [0%nat] mixed_rng
            _ _ _ _ 0%nat 1%nat (Person St_I 4 4) (Person St_S 7 4) Hc).
  - done.
  - vm_compute. discriminate.
  - vm_compute. reflexivity.
  - set_solver.
  - reflexivity.
  - reflexivity.
  - reflexivity.
  - apply euclidean_distance_lt. vm_compute. done.
Defined.

(** ** The SIR trajectory and the true counts *)

(** X11. In sir.py the infected list never drifts: [step] turns a
    consistent list into a consistent list, so that along a run the list
    holds, after every day, exactly the agents in state ['I'], each once. *)
Theorem sir_infected_list_consistent infect_rate recover_rate infect_distance
    ppl L cell_size g ppl' inf' n g' fuel cfg g0 out :
  (consistent ppl L ->
   step SIR infect_rate recover_rate infect_distance ppl L cell_size g
     = Done (ppl', inf', n, g') ->
   consistent ppl' inf') /\
  (create_SIR_simulation fuel cfg g0 = Some (Done out) ->
   consistent (people (final out)) (infected (final out))).
Proof.
  split.
  - apply step_SIR_consistent.
  - apply SIR_run_consistent.
Qed.

Lemma sir_infected_list_consistent_witness :
  exists out,
    create_SIR_simulation 4 small_config small_rng = Some (Done out) /\
    consistent (people (final out)) (infected (final out)).
Proof.
  eexists. split; [vm_compute; reflexivity|].
  eapply (proj2 (sir_infected_list_consistent (8 # 10) (15 # 100) 10 [] [] 10 small_rng
                   [] [] 0 small_rng 4 small_config small_rng _)).
  vm_compute. reflexivity.
Defined.

Lemma elem_of_refs_state s ppl k :
  k ∈ refs_with p_state s ppl <-> state_at ppl k = Some s.
Proof.
  rewrite elem_of_refs_with. unfold state_at. split.
  - intros (a & -> & <-). done.
  - destruct (ppl !! k) as [a|]; [|done]. intros [= <-]. eauto.
Qed.

Lemma refs_with_state_ext s ppl ppl' :
  length ppl' = length ppl ->
  (forall k, state_at ppl' k = state_at ppl k) ->
  refs_with p_state s ppl' = refs_with p_state s ppl.
Proof.
  intros Hlen Hst. unfold refs_with. rewrite Hlen.
  apply filter_ext_elem. intros k _. fold (state_at ppl' k) (state_at ppl k).
  by rewrite Hst.
Qed.

Lemma refs_with_none s ppl :
  (forall k, state_at ppl k <> Some s) -> refs_with p_state s ppl = [].
Proof.
  intros H. destruct (refs_with p_state s ppl) as [|k l] eqn:E; [done|].
  exfalso. apply (H k), elem_of_refs_state. rewrite E. by left.
Qed.

(** Every agent is in one of the three states. *)
Lemma count_state_total ppl :
  len ppl = count_state St_S ppl + count_state St_I ppl + count_state St_R ppl.
Proof.
  unfold count_state, len. induction ppl as [|a ppl IH] using rev_ind; [done|].
  rewrite !refs_with_snoc, !length_app. simpl.
  destruct (p_state a); simpl; lia.
Qed.

Lemma consistent_count ppl L : consistent ppl L -> len L = count_state St_I ppl.
Proof. unfold consistent, count_state, len, infected_refs. by intros ->. Qed.

(** What [step] returns, in numbers. *)
Lemma step_lengths v infect_rate recover_rate infect_distance
    ppl L cell_size g ppl' inf' n g' :
  step v infect_rate recover_rate infect_distance ppl L cell_size g
    = Done (ppl', inf', n, g') ->
  0 <= n <= len L /\ exists m, 0 <= m /\ len inf' = len L - n + m.
Proof.
  intros H. apply step_Done in H as (st & l' & Hscan & Hrem & -> & -> & -> & _).
  apply remove_all_sublist in Hrem as [_ Hlen].
  pose proof (sublist_length _ _ (scan_all_recover _ _ _ _ _ _ _ _ _ Hscan)) as Hrec.
  unfold len. split; [lia|].
  exists (Z.of_nat (length (sc_new_infected st))). rewrite length_app. lia.
Qed.

(** In the SIR variant the agents in state ['R'] after [step] are those
    that were, and those that recovered. *)
Lemma step_SIR_recovered infect_rate recover_rate infect_distance
    ppl L cell_size g ppl' inf' n g' :
  consistent ppl L ->
  step SIR infect_rate recover_rate infect_distance ppl L cell_size g
    = Done (ppl', inf', n, g') ->
  count_state St_R ppl' = count_state St_R ppl + n /\ length ppl' = length ppl.
Proof.
  intros Hc H. apply step_Done in H as (st & l' & Hscan & Hrem & -> & -> & -> & _).
  pose proof (scan_all_inv _ _ _ _ _ _ _ _ _ Hc Hscan) as [Hrec Hndnew Hnew Hst Hrc].
  apply consistent_iff in Hc as [Hnd HL].
  assert (Forall2 same_place ppl (sc_people st)) as HF.
  { eapply scan_all_related; [| | |exact Hscan]; by intros. }
  split; [|symmetry; by eapply Forall2_length].
  unfold count_state, len. rewrite <- Nat2Z.inj_add, <- length_app. f_equal.
  apply Permutation_length, NoDup_Permutation.
  - apply NoDup_refs_with.
  - apply NoDup_app. split; [apply NoDup_refs_with|]. split; [|eapply sublist_NoDup; [exact Hnd|exact Hrec]].
    intros k Hk%elem_of_refs_state Hin.
    assert (k ∈ L) as HkL%HL by (eapply elem_of_sublist; [exact Hin|exact Hrec]). congruence.
  - intros k. rewrite elem_of_app, !elem_of_refs_state. split.
    + intros HR. destruct (decide (k ∈ sc_recover st)) as [|Hn]; [by right|]. left.
      rewrite <- (scan_all_unchanged _ _ _ _ _ _ _ _ _ k Hscan); [done|done|].
      intros Hin. assert (state_at (sc_people st) k = Some St_I) as E
        by (apply Hst; by right). congruence.
    + intros [HR | Hin].
      * rewrite (scan_all_unchanged _ _ _ _ _ _ _ _ _ k Hscan); [done| |].
        -- intros Hin. assert (k ∈ L) as HkL%HL by (eapply elem_of_sublist; [exact Hin|exact Hrec]). congruence.
        -- intros Hin.
           destruct (scan_all_contacts _ _ _ _ _ _ _ _ _ _ Hscan Hin)
             as (_ & _ & b & _ & _ & Hb & _ & HS).
           unfold state_at in HR. rewrite Hb in HR. simpl in HR.
           rewrite HS in HR by done. done.
      * apply Hrc; [done|]. intros Hnew_k. apply (Hnew k Hnew_k); [done|].
        eapply elem_of_sublist; [exact Hin|exact Hrec].
Qed.

Lemma last_entry_lookup (l : list Z) d x :
  l !! d = Some x -> S d = length l -> last_entry l = x.
Proof.
  intros Hd Hlen. destruct l as [|y l] using rev_ind; [done|].
  rewrite last_entry_snoc. rewrite length_app in Hlen. simpl in Hlen.
  rewrite lookup_app_r in Hd by lia.
  replace (d - length l)%nat with 0%nat in Hd by lia. by injection Hd.
Qed.


Lemma sir_counts_initial cfg g ppl inf g0 :
  populate cfg g = Done (ppl, inf, g0) -> sir_counts cfg (initial SIR cfg ppl inf g0).
Proof.
  intros H. pose proof (populate_consistent _ _ _ _ _ H) as Hc.
  apply populate_Done in H as [(_ & _ & _ & Hag) Hlen].
  split; [done|]. split; [done|]. split; simpl; [|lia].
  unfold count_state. rewrite refs_with_none; [done|].
  intros k HR. unfold state_at in HR.
  destruct (ppl !! k) as [a|] eqn:Ha; [|done]. injection HR as HR.
  destruct (Hag k a Ha) as [(ratio & _ & Hs) _]. rewrite Hs in HR.
  unfold seeded_state in HR. by destruct (Qltb _ _).
Qed.

Lemma sir_counts_day cfg s s' :
  sir_counts cfg s -> day SIR cfg s = Done s' -> sir_counts cfg s'.
Proof.
  intros (Hc & Hlen & HR & _) Hd.
  pose proof (day_SIR_consistent _ _ _ Hc Hd) as Hc'.
  apply day_Done in Hd as (p1 & i1 & rec & g1 & p2 & g2 & Hstep & Hmove & <- & <- & _
                           & Hsc & HI & HR' & HS').
  destruct (step_SIR_recovered _ _ _ _ _ _ _ _ _ _ _ Hc Hstep) as [Hcount Hlen1].
  pose proof (Forall2_length _ _ _ (move_all_Done _ _ _ _ _ _ _ Hmove)) as Hlen2.
  split; [done|]. split; [lia|]. split.
  - rewrite HR', last_entry_snoc, HR, <- Hcount. unfold count_state.
    rewrite (refs_with_state_ext St_R p1 (people s')); [done|lia|].
    intros k. by eapply move_all_state.
  - intros _. rewrite HI, HS', HR', !last_entry_snoc. done.
Qed.

(** X12. From the first day on, the last entries of the SIR trajectory are
    the true counts: when a completed run of sir.py has lasted at least one
    day, the last entries of [simulated_S], [simulated_I] and [simulated_R]
    are the numbers of agents in state ['S'], ['I'] and ['R'] at the end. *)
Theorem sir_last_entries_are_true_counts fuel cfg g out :
  create_SIR_simulation fuel cfg g = Some (Done out) ->
  1 <= step_count (final out) ->
  last_entry (simulated_S (final out)) = count_state St_S (people (final out)) /\
  last_entry (simulated_I (final out)) = count_state St_I (people (final out)) /\
  last_entry (simulated_R (final out)) = count_state St_R (people (final out)).
Proof.
  intros H Hsc. apply simulate_Done in H as (ppl & inf & g0 & Hpop & Hloop & _).
  apply (day_loop_invariant (fun s =>
           sir_counts cfg s /\ (1 <= step_count s -> 0 < number_of_people cfg)))
    in Hloop as [[(Hc & Hlen & HR & Hlast) HN] _].
  - destruct (Hlast Hsc) as [HI HS]. specialize (HN Hsc).
    rewrite (consistent_count _ _ Hc) in HI.
    pose proof (count_state_total (people (final out))) as Htot.
    unfold len in Htot. rewrite Hlen in Htot. lia.
  - intros s s' [Hs _] Hcont Hd. split; [by eapply sir_counts_day|]. intros _.
    destruct Hs as (Hc & Hlen & _). apply continue_true in Hcont as [Hne _].
    apply consistent_iff in Hc as [_ HL].
    destruct (infected s) as [|k l] eqn:E; [done|].
    assert (state_at (people s) k = Some St_I) as Hk by (apply HL; by left).
    unfold state_at in Hk. destruct (people s !! k) as [a|] eqn:Ha; [|done].
    apply lookup_lt_Some in Ha. lia.
  - split; [by eapply sir_counts_initial|]. simpl. lia.
Qed.

Lemma sir_last_entries_are_true_counts_witness :
  exists out,
    create_SIR_simulation 4 small_config small_rng = Some (Done out) /\
    last_entry (simulated_S (final out)) = count_state St_S (people (final out)) /\
    last_entry (simulated_I (final out)) = count_state St_I (people (final out)) /\
    last_entry (simulated_R (final out)) = count_state St_R (people (final out)).
Proof.
  eexists. split; [vm_compute; reflexivity|].
  apply (sir_last_entries_are_true_counts 4 small_config small_rng).
  - vm_compute. reflexivity.
  - vm_compute. discriminate.
Defined.

Lemma nondecreasing_snoc k (l : list Z) y :
  nondecreasing_from k l ->
  (forall d x, (k <= d)%nat -> l !! d = Some x -> S d = length l -> x <= y) ->
  nondecreasing_from k (l ++ [y]).
Proof.
  intros Hl Hy d x y' Hk Hd HSd.
  destruct (decide (S d < length l)%nat) as [Hlt|Hge].
  - rewrite lookup_app_l in Hd by lia. rewrite lookup_app_l in HSd by lia. by eapply Hl.
  - assert (S d = length l) as E.
    { apply lookup_lt_Some in HSd. rewrite length_app in HSd. simpl in HSd. lia. }
    rewrite lookup_app_l in Hd by lia. rewrite lookup_app_r in HSd by lia.
    rewrite E, Nat.sub_diag in HSd. injection HSd as <-. by eapply Hy.
Qed.

Lemma nonincreasing_snoc k (l : list Z) y :
  nonincreasing_from k l ->
  (forall d x, (k <= d)%nat -> l !! d = Some x -> S d = length l -> y <= x) ->
  nonincreasing_from k (l ++ [y]).
Proof.
  intros Hl Hy d x y' Hk Hd HSd.
  destruct (decide (S d < length l)%nat) as [Hlt|Hge].
  - rewrite lookup_app_l in Hd by lia. rewrite lookup_app_l in HSd by lia. by eapply Hl.
  - assert (S d = length l) as E.
    { apply lookup_lt_Some in HSd. rewrite length_app in HSd. simpl in HSd. lia. }
    rewrite lookup_app_l in Hd by lia. rewrite lookup_app_r in HSd by lia.
    rewrite E, Nat.sub_diag in HSd. injection HSd as <-. by eapply Hy.
Qed.

(** X13. The SIR trajectory is monotone where it can be: in a completed run
    of sir.py the entries of [simulated_R] are non-negative and never
    decrease, and from day 1 on the entries of [simulated_S] never
    increase. *)
Theorem sir_trajectory_monotone fuel cfg g out :
  create_SIR_simulation fuel cfg g = Some (Done out) ->
  nondecreasing_from 0 (simulated_R (final out)) /\
  (forall d r, simulated_R (final out) !! d = Some r -> 0 <= r) /\
  nonincreasing_from 1 (simulated_S (final out)).
Proof.
  intros H. apply simulate_Done in H as (ppl & inf & g0 & Hpop & Hloop & _).
  apply (day_loop_invariant (fun s =>
    (conserved SIR (number_of_people cfg) s /\ 0 <= step_count s) /\
    nondecreasing_from 0 (simulated_R s) /\
    (forall d r, simulated_R s !! d = Some r -> 0 <= r) /\
    nonincreasing_from 1 (simulated_S s) /\
    (1 <= step_count s ->
     last_entry (simulated_I s) = len (infected s) /\
     last_entry (simulated_S s)
     = number_of_people cfg - last_entry (simulated_I s) - last_entry (simulated_R s))))
    in Hloop as [(_ & HR & Hpos & HS & _) _]; [done| |].
  - intros s s' ([Hcons Hsc0] & HR & Hpos & HS & Hlast) _ Hd.
    pose proof (conserved_day _ _ _ _ Hcons Hd) as Hcons'.
    destruct Hcons as (Hcount & HlenS & HlenR & _). unfold len in Hcount.
    apply day_Done in Hd as (p1 & i1 & rec & g1 & p2 & g2 & Hstep & _ & _ & -> & _
                             & Hsc & HI & HR' & HS').
    apply step_lengths in Hstep as [Hrec (m & Hm & Hlen)].
    split; [split; [done|lia]|]. rewrite HR', HS', HI. split; [|split; [|split]].
    + apply nondecreasing_snoc; [done|]. intros d x _ Hd HSd.
      rewrite (last_entry_lookup _ _ _ Hd HSd). lia.
    + intros d r [[_ Hd] | [_ <-]]%lookup_snoc_Some; [by eapply Hpos|].
      destruct (lookup_lt_is_Some_2 (simulated_R s) (length (simulated_R s) - 1))
        as [x Hx]; [lia|].
      rewrite (last_entry_lookup _ _ _ Hx ltac:(lia)). specialize (Hpos _ _ Hx). lia.
    + apply nonincreasing_snoc; [done|]. intros d x Hk Hd HSd.
      destruct Hlast as [HlastI HlastS]; [lia|].
      rewrite (last_entry_lookup _ _ _ Hd HSd) in HlastS. lia.
    + intros _. by rewrite !last_entry_snoc.
  - split; [split; [apply conserved_initial|simpl; lia]|]. simpl.
    split; [|split; [|split]].
    + intros [|d] x y _ Hx Hy; simpl in *; done.
    + intros [|d] r Hr; simpl in *; [|done]. injection Hr as <-. lia.
    + intros [|d] x y Hk Hx Hy; simpl in *; done.
    + lia.
Qed.

Lemma sir_trajectory_monotone_witness :
  exists out,
    create_SIR_simulation 4 small_config small_rng = Some (Done out) /\
    nondecreasing_from 0 (simulated_R (final out)) /\
    (forall d r, simulated_R (final out) !! d = Some r -> 0 <= r) /\
    nonincreasing_from 1 (simulated_S (final out)).
Proof.
  eexists. split; [vm_compute; reflexivity|].
  apply (sir_trajectory_monotone 4 small_config small_rng). vm_compute. reflexivity.
Defined.

(** ** The seed *)

Lemma seed_ratio_nonpos cfg ratio :
  0 < number_of_people cfg -> num_infected cfg <= 0 ->
  seed_ratio cfg = Done ratio -> (float_value ratio <= 0)%Q.
Proof. intros HN Hni. by apply true_divide_nonpos. Qed.

Lemma seed_ratio_ge_1 cfg ratio :
  0 < number_of_people cfg -> number_of_people cfg <= num_infected cfg ->
  seed_ratio cfg = Done ratio -> (1 <= float_value ratio)%Q.
Proof. intros HN Hni. by apply true_divide_ge_1. Qed.

Lemma refs_with_all {B : Type} `{EqDecision B} (f : person -> B) (b : B) ppl :
  (forall k a, ppl !! k = Some a -> f a = b) -> refs_with f b ppl = seq 0 (length ppl).
Proof.
  intros H. induction ppl as [|a ppl IH] using rev_ind; [done|].
  rewrite refs_with_snoc, length_app, IH. simpl.
  - rewrite bool_decide_eq_true_2.
    + by rewrite Nat.add_1_r, seq_S.
    + apply (H (length ppl)). by rewrite lookup_app_r, Nat.sub_diag by lia.
  - intros k a' Hk. apply (H k). by apply lookup_app_l_Some.
Qed.

(** What the placement loop does at the two ends of the seed. *)
Lemma populate_extremes cfg g ppl inf g' :
  populate cfg g = Done (ppl, inf, g') ->
  (num_infected cfg <= 0 ->
   inf = [] /\ forall k a, ppl !! k = Some a -> p_state a = St_S) /\
  (number_of_people cfg <= num_infected cfg ->
   inf = seq 0 (length ppl) /\ forall k a, ppl !! k = Some a -> p_state a = St_I).
Proof.
  intros H. apply populate_Done in H as [(_ & _ & -> & Hag) Hlen].
  assert (forall k a, ppl !! k = Some a -> 0 < number_of_people cfg) as HN.
  { intros k a Hk%lookup_lt_Some. lia. }
  split; intros Hni.
  - assert (forall k a, ppl !! k = Some a -> p_state a = St_S) as HS.
    { intros k a Hk. destruct (Hag k a Hk) as [(ratio & Hratio & ->) _].
      unfold seeded_state, seed_draw.
      rewrite draw_fails; [done|].
      eapply seed_ratio_nonpos; [by eapply HN|done|done]. }
    split; [|done]. apply refs_with_none. intros k Hk. unfold state_at in Hk.
    destruct (ppl !! k) as [a|] eqn:Ha; [|done]. injection Hk as Hk.
    rewrite (HS k a Ha) in Hk. done.
  - assert (forall k a, ppl !! k = Some a -> p_state a = St_I) as HI.
    { intros k a Hk. destruct (Hag k a Hk) as [(ratio & Hratio & ->) _].
      unfold seeded_state, seed_draw.
      rewrite draw_succeeds; [done|].
      eapply seed_ratio_ge_1; [by eapply HN|done|done]. }
    split; [|done]. by apply refs_with_all.
Qed.

(** X14. Without a seed there is no epidemic, and no result: when
    [num_infected] is zero or less the placement loop places every agent
    susceptible and leaves the infected list empty, so that the [while] loop
    runs no day; no frame having been recorded, [imageio.mimsave] raises,
    and no run of either variant completes.  With a [width] and a [height]
    that a display can have that exception is what the run ends in. *)
Theorem zero_seed_run fuel cfg g :
  num_infected cfg <= 0 ->
  (forall ppl inf g', populate cfg g = Done (ppl, inf, g') ->
     inf = [] /\ (forall k a, ppl !! k = Some a -> p_state a = St_S) /\
     forall v c,
       day_loop v c fuel (initial v c ppl inf g') = Some (Done (initial v c ppl inf g')) /\
       frames (initial v c ppl inf g') = []) /\
  (forall out,
     create_SIR_simulation fuel cfg g <> Some (Done out) /\
     create_SIS_simulation fuel cfg g <> Some (Done out)) /\
  (0 <= cfg_width cfg < 2 ^ 31 -> 0 <= cfg_height cfg < 2 ^ 31 ->
   - 2 ^ 1023 < num_infected cfg ->
   create_SIR_simulation fuel cfg g = Some (Raise ImageioError) /\
   create_SIS_simulation fuel cfg g = Some (Raise ImageioError)).
Proof.
  intros Hni.
  assert (forall c ppl inf g', num_infected c <= 0 ->
            populate c g = Done (ppl, inf, g') ->
            inf = [] /\ (forall k a, ppl !! k = Some a -> p_state a = St_S) /\
            forall v c',
              day_loop v c' fuel (initial v c' ppl inf g')
                = Some (Done (initial v c' ppl inf g')) /\
              frames (initial v c' ppl inf g') = []) as Hplaced.
  { intros c ppl inf g' Hc Hpop. apply populate_extremes in Hpop as [Hzero _].
    destruct (Hzero Hc) as [-> HS]. split; [done|]. split; [done|].
    intros v c'. split; [|done]. by destruct fuel. }
  assert (forall v suffix c, num_infected c <= 0 ->
            (forall out, simulate v suffix fuel c g <> Some (Done out)) /\
            (0 <= cfg_width c -> 0 <= cfg_height c -> - 2 ^ 1023 < num_infected c ->
             simulate v suffix fuel c g = Some (Raise ImageioError))) as Hrun.
  { intros v suffix c Hc. split.
    - intros out H. apply simulate_Done in H as (ppl & inf & g0 & Hpop & Hloop & _ & Hfr).
      destruct (Hplaced _ _ _ _ Hc Hpop) as (-> & _ & Hl).
      destruct (Hl v c) as [Hl1 Hl2]. rewrite Hl1 in Hloop.
      injection Hloop as Hloop. by rewrite <- Hloop in Hfr.
    - intros Hw Hh Hlow.
      destruct (populate_total c g Hw Hh ltac:(lia)) as (ppl & inf & g0 & Hpop).
      destruct (Hplaced _ _ _ _ Hc Hpop) as (-> & _ & Hl).
      unfold simulate. rewrite Hpop. unfold set_mode.
      rewrite (proj2 (Z.ltb_ge _ _) Hw), (proj2 (Z.ltb_ge _ _) Hh). cbn [orb].
      by rewrite (proj1 (Hl v c)). }
  split; [intros ppl inf g'; by apply Hplaced|]. split.
  - intros out. split.
    + by apply (Hrun SIR "_SIR.gif"%string cfg).
    + by apply (Hrun SIS "_SIS.gif"%string (sis_overrides cfg)).
  - intros [Hw _] [Hh _] Hlow. split.
    + by apply (Hrun SIR "_SIR.gif"%string cfg).
    + by apply (Hrun SIS "_SIS.gif"%string (sis_overrides cfg)).
Qed.

Lemma zero_seed_run_witness :
  create_SIR_simulation 0 zero_seed_config small_rng = Some (Raise ImageioError) /\
  create_SIS_simulation 0 zero_seed_config small_rng = Some (Raise ImageioError).
Proof.
  apply (proj2 (proj2 (zero_seed_run 0 zero_seed_config small_rng
                         ltac:(vm_compute; discriminate))));
    [split|split|]; vm_compute; (discriminate || reflexivity).
Defined.

(** X15. The placement loop: on success it has created
    [max(0, number_of_people)] agents, each with coordinates in
    [0, width] x [0, height], ends included, and the initial infected list is
    consistent; with [num_infected >= number_of_people] every agent is placed
    infected, and the list holds every agent in order. *)
Theorem placement_spec cfg g ppl inf g' :
  populate cfg g = Done (ppl, inf, g') ->
  length ppl = Z.to_nat (number_of_people cfg) /\
  (forall k a, ppl !! k = Some a ->
     0 <= p_x a <= cfg_width cfg /\ 0 <= p_y a <= cfg_height cfg) /\
  consistent ppl inf /\
  (number_of_people cfg <= num_infected cfg ->
   inf = seq 0 (length ppl) /\ forall k a, ppl !! k = Some a -> p_state a = St_I).
Proof.
  intros H. pose proof (populate_consistent _ _ _ _ _ H) as Hc.
  pose proof (populate_extremes _ _ _ _ _ H) as [_ Hfull].
  apply populate_Done in H as [(_ & _ & _ & Hag) Hlen].
  split; [done|]. split; [|by split].
  intros k a Hk. by destruct (Hag k a Hk) as (_ & ? & ?).
Qed.

Lemma placement_spec_witness :
  exists ppl inf g',
    populate full_seed_config small_rng = Done (ppl, inf, g') /\
    length ppl = 2%nat /\ consistent ppl inf /\ inf = seq 0 (length ppl).
Proof.
  do 3 eexists. split; [vm_compute; reflexivity|].
  destruct (placement_spec full_seed_config small_rng _ _ _ ltac:(vm_compute; reflexivity))
    as (H1 & _ & H2 & H3).
  split; [exact H1|]. split; [exact H2|]. apply H3. vm_compute. discriminate.
Defined.

(** ** Movement, continued *)

Lemma clamp_near c offset dimension max_move :
  1 <= c <= dimension - 1 -> - max_move <= offset <= max_move ->
  - max_move <= clamp (c + offset) dimension - c <= max_move.
Proof.
  intros Hc Ho. unfold clamp.
  destruct (c + offset <? 1) eqn:H1.
  - destruct (1 >? dimension - 1) eqn:H2; lia.
  - destruct (c + offset >? dimension - 1) eqn:H2; lia.
Qed.

Lemma clamp_collapse c dimension : dimension <= 1 -> clamp c dimension = dimension - 1.
Proof.
  intros Hd. unfold clamp.
  destruct (c <? 1) eqn:H1.
  - destruct (1 >? dimension - 1) eqn:H2; lia.
  - destruct (c >? dimension - 1) eqn:H2; lia.
Qed.

(** X16. [move_all] moves every agent and changes nothing else: the agents
    come back in the same order and in the same states; when both dimensions
    are at least 2 every coordinate ends in [1, dimension - 1]; and an agent
    that was already inside that range has moved by at most [max_move] along
    each axis. *)
Theorem movement_spec width height max_move ppl g ppl' g' :
  move_all width height max_move ppl g = Done (ppl', g') ->
  length ppl' = length ppl /\
  (forall k, state_at ppl' k = state_at ppl k) /\
  (2 <= width -> 2 <= height ->
   forall k a', ppl' !! k = Some a' ->
     1 <= p_x a' <= width - 1 /\ 1 <= p_y a' <= height - 1) /\
  (forall k a a', ppl !! k = Some a -> ppl' !! k = Some a' ->
     (1 <= p_x a <= width - 1 -> - max_move <= p_x a' - p_x a <= max_move) /\
     (1 <= p_y a <= height - 1 -> - max_move <= p_y a' - p_y a <= max_move)).
Proof.
  intros H. pose proof (move_all_Done _ _ _ _ _ _ _ H) as HF.
  split; [symmetry; by eapply Forall2_length|].
  split; [intros k; by eapply move_all_state|]. split.
  - intros Hw Hh k a' Ha'. by eapply move_all_bounds.
  - intros k a a' Ha Ha'.
    destruct (Forall2_lookup_lr _ _ _ _ _ _ HF Ha Ha')
      as (_ & ox & oy & Hox & Hoy & -> & ->).
    split; intros Hin; by apply clamp_near.
Qed.

Lemma movement_spec_witness :
  exists ppl' g',
    move_all 50 50 5 mixed_people move_rng = Done (ppl', g') /\
    length ppl' = 3%nat /\
    (forall k a', ppl' !! k = Some a' -> 1 <= p_x a' <= 49 /\ 1 <= p_y a' <= 49).
Proof.
  do 2 eexists. split; [vm_compute; reflexivity|].
  destruct (movement_spec 50 50 5 mixed_people move_rng _ _ ltac:(vm_compute; reflexivity))
    as (H1 & _ & H2 & _).
  split; [exact H1|]. apply H2; lia.
Defined.

Lemma move_all_negative width height max_move a ppl g :
  max_move < 0 -> move_all width height max_move (a :: ppl) g = Raise ValueError.
Proof.
  intros Hm. unfold move_all. simpl. unfold move_one, randint.
  by rewrite (proj2 (Z.ltb_lt max_move (max_move * -1))) by lia.
Qed.

(** X17. The edges of [move_all].  With a negative [max_move] and at least
    one agent it raises [ValueError] (the range of [random.randint] is
    empty); with nobody to move it returns at once, whatever [max_move];
    with a non-negative [max_move] it never fails.  In an area less than two
    units wide every agent ends at [x = width - 1], whatever it drew, and
    likewise for the height. *)
Theorem movement_edges width height max_move ppl g :
  (max_move < 0 -> ppl <> [] ->
   move_all width height max_move ppl g = Raise ValueError) /\
  move_all width height max_move [] g = Done ([], g) /\
  (0 <= max_move -> exists r, move_all width height max_move ppl g = Done r) /\
  (forall ppl' g' k a', move_all width height max_move ppl g = Done (ppl', g') ->
     ppl' !! k = Some a' ->
     (width <= 1 -> p_x a' = width - 1) /\ (height <= 1 -> p_y a' = height - 1)).
Proof.
  split; [|split; [done|split; [apply move_all_total|]]].
  - intros Hm Hne. destruct ppl as [|a ppl]; [done|]. by apply move_all_negative.
  - intros ppl' g' k a' H%move_all_Done Ha'.
    destruct (Forall2_lookup_r _ _ _ _ _ H Ha') as (a & _ & _ & ox & oy & _ & _ & -> & ->).
    split; intros Hd; by apply clamp_collapse.
Qed.

Lemma movement_edges_witness :
  move_all 50 50 (-1) mixed_people move_rng = Raise ValueError /\
  (exists r, move_all 50 50 0 mixed_people move_rng = Done r) /\
  (exists ppl' g',
     move_all 1 50 5 mixed_people move_rng = Done (ppl', g') /\
     forall k a', ppl' !! k = Some a' -> p_x a' = 0).
Proof.
  split; [|split].
  - apply (proj1 (movement_edges 50 50 (-1) mixed_people move_rng)); [lia|discriminate].
  - apply (proj1 (proj2 (proj2 (movement_edges 50 50 0 mixed_people move_rng)))). lia.
  - do 2 eexists. split; [vm_compute; reflexivity|].
    intros k a' Ha'.
    eapply (proj2 (proj2 (proj2 (movement_edges 1 50 5 mixed_people move_rng))));
      [vm_compute; reflexivity|exact Ha'|lia].
Defined.

(** ** The grid, continued *)

Lemma populate_grid_no_empty_cell ppl d grid cell :
  populate_grid ppl d = Done grid -> grid !! cell <> Some [].
Proof.
  revert grid. induction ppl as [|a ppl IH] using rev_ind; intros grid.
  - intros [= <-]. by rewrite lookup_empty.
  - rewrite populate_grid_snoc. intros H.
    apply bind_Done in H as (grid0 & H0 & H).
    apply bind_Done in H as (c & _ & H). injection H as <-.
    unfold grid_append. destruct (decide (c = cell)) as [->|Hne].
    + rewrite lookup_insert_eq. intros [= E]. by apply app_nil in E as [_ ?].
    + rewrite lookup_insert_ne by done. by apply IH.
Qed.

(** X18. The grid is a partition of the population by cell: on success
    every cell of the grid holds, in the order of [people] and without
    repetition, exactly the agents whose coordinates divided by the cell size
    (rounding down) give that cell; no cell of the grid is empty, so that
    [cell in grid] holds exactly for the cells somebody is in; and for a
    positive cell size the cell of an agent contains the agent. *)
Theorem grid_partition ppl cell_size grid :
  populate_grid ppl cell_size = Done grid ->
  (forall cell ps, grid !! cell = Some ps ->
     ps <> [] /\ NoDup ps /\ ps = refs_with (cell_of cell_size) cell ppl) /\
  (forall cell, is_Some (grid !! cell) <->
     exists k a, ppl !! k = Some a /\ cell_of cell_size a = cell) /\
  (forall k a, ppl !! k = Some a ->
     exists ps, grid !! cell_of cell_size a = Some ps /\ k ∈ ps) /\
  (0 < cell_size -> forall k a, ppl !! k = Some a ->
     cell_size * (cell_of cell_size a).1 <= p_x a
       < cell_size * ((cell_of cell_size a).1 + 1) /\
     cell_size * (cell_of cell_size a).2 <= p_y a
       < cell_size * ((cell_of cell_size a).2 + 1)).
Proof.
  intros H. pose proof (populate_grid_Done _ _ _ H) as Hcells.
  pose proof (fun cell => populate_grid_no_empty_cell _ _ _ cell H) as Hne.
  assert (forall cell ps, grid !! cell = Some ps ->
            ps = refs_with (cell_of cell_size) cell ppl) as Hps.
  { intros cell ps Hc. by rewrite <- Hcells, Hc. }
  assert (forall k a, ppl !! k = Some a ->
            exists ps, grid !! cell_of cell_size a = Some ps /\ k ∈ ps) as Hin.
  { intros k a Hk.
    assert (k ∈ default [] (grid !! cell_of cell_size a)) as Hmem.
    { rewrite Hcells. apply elem_of_refs_with. eauto. }
    destruct (grid !! cell_of cell_size a) as [ps|]; [eauto|].
    by apply elem_of_nil in Hmem. }
  split; [|split; [|split; [done|]]].
  - intros cell ps Hc. split; [|split; [|by apply Hps]].
    + intros ->. by apply (Hne cell).
    + rewrite (Hps _ _ Hc). apply NoDup_refs_with.
  - intros cell. split.
    + intros [ps Hc]. destruct ps as [|k rest]; [by destruct (Hne cell)|].
      assert (k ∈ refs_with (cell_of cell_size) cell ppl) as Hk.
      { rewrite <- (Hps _ _ Hc). by left. }
      apply elem_of_refs_with in Hk. eauto.
    + intros (k & a & Hk & <-). destruct (Hin k a Hk) as (ps & -> & _). eauto.
  - intros Hc k a Hk. unfold cell_of. simpl.
    pose proof (Z.mul_div_le (p_x a) cell_size Hc).
    pose proof (Z.mul_succ_div_gt (p_x a) cell_size Hc).
    pose proof (Z.mul_div_le (p_y a) cell_size Hc).
    pose proof (Z.mul_succ_div_gt (p_y a) cell_size Hc). lia.
Qed.

Lemma grid_partition_witness :
  exists grid,
    populate_grid mixed_people 10 = Done grid /\
    (forall cell, is_Some (grid !! cell) <->
       exists k a, mixed_people !! k = Some a /\ cell_of 10 a = cell) /\
    (forall k a, mixed_people !! k = Some a ->
       exists ps, grid !! cell_of 10 a = Some ps /\ k ∈ ps).
Proof.
  eexists. split; [vm_compute; reflexivity|].
  destruct (grid_partition mixed_people 10 _ ltac:(vm_compute; reflexivity))
    as (_ & H1 & H2 & _).
  split; [exact H1|exact H2].
Defined.

(** X19. The grid and the cell size zero: [populate_grid] returns for every
    non-zero cell size, a negative one included, and for an empty
    population it returns the empty grid whatever the cell size; with a cell
    size of zero and at least one agent it raises [ZeroDivisionError], and
    it raises nothing else. *)
Theorem grid_errors ppl cell_size :
  (cell_size <> 0 -> exists grid, populate_grid ppl cell_size = Done grid) /\
  populate_grid [] cell_size = Done ∅ /\
  (cell_size = 0 -> ppl <> [] -> populate_grid ppl cell_size = Raise ZeroDivisionError) /\
  (forall e, populate_grid ppl cell_size = Raise e ->
     e = ZeroDivisionError /\ cell_size = 0 /\ ppl <> []).
Proof.
  split; [apply populate_grid_total|]. split; [done|]. split.
  - intros -> Hne. destruct ppl as [|a ppl]; [done|]. apply populate_grid_zero.
  - intros e H. pose proof (populate_grid_Raise _ _ _ H) as [-> ->].
    split; [done|]. split; [done|]. by intros ->.
Qed.

Lemma grid_errors_witness :
  (exists grid, populate_grid mixed_people (-10) = Done grid) /\
  populate_grid mixed_people 0 = Raise ZeroDivisionError.
Proof.
  split.
  - apply (proj1 (grid_errors mixed_people (-10))). lia.
  - apply (proj1 (proj2 (proj2 (grid_errors mixed_people 0)))); [reflexivity|discriminate].
Defined.

(** ** The animation *)

(** X20. The animation of a completed run: the upper limit of the ordinates
    is [number_of_people]; every frame gives each line as many abscissas as
    ordinates, for the three simulated lists and for any model list with one
    entry per point of the time grid; and no frame draws the last recorded
    day: frame [f] draws the days before [f], and the last frame is
    [step_count]. *)
Theorem animation_frames_spec (A : Type) v suffix fuel cfg g out (model : list A) f :
  simulate v suffix fuel cfg g = Some (Done out) ->
  length model = length (t out) ->
  f ∈ animation_frames (simulated_S (final out)) ->
  ylim_top v (simulated_S (final out)) (simulated_I (final out)) (simulated_R (final out))
    = Some (number_of_people cfg) /\
  Z.of_nat f <= step_count (final out) /\
  length (set_data f (simulated_S (final out))).1 = length (set_data f (simulated_S (final out))).2 /\
  length (set_data f (simulated_I (final out))).1 = length (set_data f (simulated_I (final out))).2 /\
  length (set_data f model).1 = length (set_data f model).2 /\
  (forall d x, (set_data f (simulated_I (final out))).2 !! d = Some x ->
     Z.of_nat d < step_count (final out) /\ simulated_I (final out) !! d = Some x).
Proof.
  intros H Hmodel Hf.
  pose proof (day0_kept _ _ _ _ _ _ H) as (HI0 & HS0 & HR0).
  pose proof (time_grid_length _ _ _ _ _ _ H) as [Ht Hlen].
  pose proof (conserved_run _ _ _ _ _ _ H) as (Hcount & HlenS & HlenR & _).
  unfold animation_frames in Hf. apply elem_of_seq in Hf as [_ Hf]. simpl in Hf.
  unfold len in *. unfold set_data. simpl.
  rewrite !length_seq, !length_take.
  split; [|split; [lia|split; [lia|split; [lia|split; [lia|]]]]].
  - unfold ylim_top. rewrite HS0, HI0. destruct v; simpl.
    + rewrite HR0 by done. simpl. f_equal. lia.
    + f_equal. lia.
  - intros d x Hd. apply lookup_take_Some in Hd as [Hd Hlt]. split; [lia|done].
Qed.

Lemma animation_frames_spec_witness :
  exists out,
    create_SIR_simulation 4 small_config small_rng = Some (Done out) /\
    ylim_top SIR (simulated_S (final out)) (simulated_I (final out))
      (simulated_R (final out)) = Some 2 /\
    Z.of_nat 2 <= step_count (final out).
Proof.
  eexists. split; [vm_compute; reflexivity|].
  destruct (animation_frames_spec Q SIR "_SIR.gif" 4 small_config small_rng _
              [0%Q; 0%Q; 0%Q] 2%nat ltac:(vm_compute; reflexivity) eq_refl)
    as (H1 & H2 & _).
  - vm_compute. set_solver.
  - split; [exact H1|exact H2].
Defined.

(** ** The animated label *)

Section GifLabel.
Import AnimatedGIFLabel.

Lemma gif_init n first :
  (n = 0%nat -> init n first = inl RuntimeError) /\
  (n <> 0%nat -> exists l, init n first = inr l /\ playing_or_paused l /\ frames l = n).
Proof.
  unfold init. split.
  - by intros ->.
  - intros Hn. rewrite (proj2 (Nat.eqb_neq n 0) Hn).
    unfold config_image. simpl. rewrite (proj2 (Nat.ltb_lt 0 n)) by lia.
    eexists. split; [done|]. split; [|done].
    unfold playing_or_paused. simpl.
    split; [lia|]. split; [done|].
    exists first. split; [done|]. split; [apply union_empty_r_L|lia].
Qed.

Lemma gif_schedule l :
  (current_frame l < frames l)%nat -> image l = current_frame l ->
  is_paused l = false -> timers l = ∅ ->
  playing_or_paused (schedule_next_frame l) /\
  frames (schedule_next_frame l) = frames l /\
  current_frame (schedule_next_frame l) = current_frame l.
Proof.
  intros Hcf Hi Hp Ht. unfold schedule_next_frame, playing_or_paused. rewrite Hp. simpl.
  rewrite Hp. split; [|done]. split; [done|]. split; [done|].
  exists (fresh l). split; [done|]. split; [|lia].
  rewrite Ht. apply union_empty_r_L.
Qed.

Lemma gif_pause l :
  playing_or_paused l ->
  playing_or_paused (pause l) /\ is_paused (pause l) = true /\
  frames (pause l) = frames l /\ current_frame (pause l) = current_frame l.
Proof.
  intros (Hcf & Hi & Hstate). unfold pause.
  destruct (is_paused l) eqn:Hp.
  - split; [|done]. unfold playing_or_paused. by rewrite Hp.
  - destruct Hstate as (id & Hid & Ht & _). simpl. rewrite Hid. simpl.
    split; [|done]. unfold playing_or_paused. simpl.
    split; [done|]. split; [done|]. split; [done|].
    rewrite Ht. apply difference_diag_L.
Qed.

Lemma gif_handle e l :
  playing_or_paused l ->
  exists l', handle e l = inr l' /\ playing_or_paused l' /\ frames l' = frames l.
Proof.
  intros Hl. pose proof Hl as (Hcf & Hi & Hstate). destruct e as [id| | |]; simpl.
  - destruct (decide (id ∈ timers l)) as [Hin|]; [|eauto].
    destruct (is_paused l) eqn:Hp.
    { destruct Hstate as [_ Ht]. rewrite Ht in Hin. by apply not_elem_of_empty in Hin. }
    destruct Hstate as (id' & Hid & Ht & Hfresh).
    unfold animate. simpl.
    destruct (frames l =? 0)%nat eqn:Hn; [apply Nat.eqb_eq in Hn; lia|].
    unfold config_image. simpl.
    pose proof (Nat.mod_upper_bound (current_frame l + 1) (frames l) ltac:(lia)) as Hk.
    rewrite (proj2 (Nat.ltb_lt _ _) Hk).
    eexists. split; [done|].
    match goal with |- playing_or_paused (schedule_next_frame ?x) /\ _ =>
      destruct (gif_schedule x) as (H1 & H2 & _) end; simpl; try done.
    rewrite Ht in Hin. apply elem_of_singleton in Hin as ->.
    rewrite Ht. apply difference_diag_L.
  - destruct (gif_pause l Hl) as (H1 & _ & H2 & _). eauto.
  - unfold resume. destruct (is_paused l) eqn:Hp; [|eauto].
    destruct Hstate as [_ Ht].
    eexists. split; [done|].
    match goal with |- playing_or_paused (schedule_next_frame ?x) /\ _ =>
      destruct (gif_schedule x) as (H1 & H2 & _) end; simpl; done.
  - destruct (gif_pause l Hl) as ((Hcf' & Hi' & Hstate') & Hp' & Hn' & _).
    unfold refresh, config_image. simpl. rewrite Hp' in Hstate'.
    destruct Hstate' as [_ Ht']. rewrite (proj2 (Nat.ltb_lt 0 _)) by lia.
    eexists. split; [done|].
    match goal with |- playing_or_paused (schedule_next_frame ?x) /\ _ =>
      destruct (gif_schedule x) as (H1 & H2 & _) end; simpl; try done; try lia.
Qed.

Lemma gif_handle_all es l :
  playing_or_paused l ->
  exists l', handle_all es l = inr l' /\ playing_or_paused l' /\ frames l' = frames l.
Proof.
  revert l. induction es as [|e es IH]; intros l Hl; simpl; [eauto|].
  destruct (gif_handle e l Hl) as (l1 & -> & Hl1 & Hfr1).
  destruct (IH l1 Hl1) as (l' & H1 & H2 & H3).
  exists l'. split; [done|]. split; [done|]. by rewrite H3.
Qed.

(** X21. The animated label never fails once built: [__init__] raises
    [RuntimeError] exactly for a GIF without frames; after it, whatever
    sequence of timer firings and of calls to [pause], [resume] and
    [refresh] follows, no call raises, the frame shown is always a frame of
    the GIF, and the label waits for exactly one timer while it plays and
    for none while it is paused, so that the animation never runs twice as
    fast. *)
Theorem gif_label_safe n first es :
  (n = 0%nat -> init n first = inl RuntimeError) /\
  (n <> 0%nat ->
   exists l0 l,
     init n first = inr l0 /\ handle_all es l0 = inr l /\
     playing_or_paused l /\ frames l = n).
Proof.
  destruct (gif_init n first) as [H0 Hn]. split; [done|].
  intros Hne. destruct (Hn Hne) as (l0 & Hinit & Hl0 & Hfr).
  destruct (gif_handle_all es l0 Hl0) as (l & Hl & Hwf & Hfr').
  exists l0, l. split; [done|]. split; [done|]. split; [done|]. by rewrite Hfr'.
Qed.

Lemma gif_label_safe_witness :
  exists l0 l,
    init 3 0 = inr l0 /\
    handle_all [Fire 0; Pause; Fire 1; Resume; Resume; Refresh; Fire 3] l0 = inr l /\
    playing_or_paused l /\ frames l = 3%nat.
Proof.
  apply (proj2 (gif_label_safe 3 0 [Fire 0; Pause; Fire 1; Resume; Resume; Refresh; Fire 3])).
  discriminate.
Defined.
End GifLabel.

Section GifLabelPlay.
Import AnimatedGIFLabel.

Lemma gif_tick l :
  playing_or_paused l -> is_paused l = false ->
  exists l',
    tick l = inr l' /\ playing_or_paused l' /\ is_paused l' = false /\
    frames l' = frames l /\
    current_frame l' = ((current_frame l + 1) mod frames l)%nat.
Proof.
  intros (Hcf & Hi & Hstate) Hp. rewrite Hp in Hstate.
  destruct Hstate as (id & Hid & Ht & Hfresh).
  unfold tick. rewrite Hid. simpl.
  rewrite decide_True by (rewrite Ht; by apply elem_of_singleton).
  unfold animate. simpl.
  destruct (frames l =? 0)%nat eqn:Hn; [apply Nat.eqb_eq in Hn; lia|].
  unfold config_image. simpl.
  pose proof (Nat.mod_upper_bound (current_frame l + 1) (frames l) ltac:(lia)) as Hk.
  rewrite (proj2 (Nat.ltb_lt _ _) Hk).
  eexists. split; [done|].
  match goal with |- playing_or_paused (schedule_next_frame ?x) /\ _ =>
    destruct (gif_schedule x) as (H1 & H2 & H3) end; simpl; try done.
  - rewrite Ht. apply difference_diag_L.
  - split; [done|]. split; [|by split].
    unfold schedule_next_frame. simpl. by rewrite Hp.
Qed.

(** X22. Left alone, the label shows the frames in order and starts over
    after the last one: after [k] firings of its timer a label built on a
    GIF of [n] frames shows frame [k mod n], and is still playing. *)
Theorem gif_label_cycles n first k :
  n <> 0%nat ->
  exists l0 l,
    init n first = inr l0 /\ ticks k l0 = inr l /\
    current_frame l = (k mod n)%nat /\ image l = (k mod n)%nat /\
    is_paused l = false.
Proof.
  intros Hn. destruct (proj2 (gif_init n first) Hn) as (l0 & Hinit & Hl0 & Hfr).
  exists l0.
  assert (current_frame l0 = 0%nat /\ is_paused l0 = false) as [Hcf0 Hp0].
  { unfold init in Hinit. rewrite (proj2 (Nat.eqb_neq n 0) Hn) in Hinit.
    unfold config_image in Hinit. simpl in Hinit.
    rewrite (proj2 (Nat.ltb_lt 0 n)) in Hinit by lia. by injection Hinit as <-. }
  assert (exists l, ticks k l0 = inr l /\ playing_or_paused l /\ is_paused l = false /\
                    frames l = n /\ current_frame l = (k mod n)%nat)
    as (l & Hl & Hwf & Hp & Hfr' & Hcf).
  { induction k as [|k (l & Hl & Hwf & Hp & Hfr' & Hcf)]; simpl.
    - exists l0. rewrite Nat.Div0.mod_0_l.
      split; [done|]. split; [done|]. split; [done|]. by split.
    - rewrite Hl. destruct (gif_tick l Hwf Hp) as (l' & -> & Hwf' & Hp' & Hfr'' & Hcf').
      exists l'. split; [done|]. split; [done|]. split; [done|].
      split; [by rewrite Hfr''|].
      rewrite Hcf', Hcf, Hfr', Nat.Div0.add_mod_idemp_l. f_equal. lia. }
  exists l. destruct Hwf as (_ & Hi & _).
  split; [done|]. split; [done|]. split; [done|]. split; [by rewrite Hi|done].
Qed.

Lemma gif_label_cycles_witness :
  exists l0 l,
    init 3 0 = inr l0 /\ ticks 7 l0 = inr l /\
    current_frame l = 1%nat /\ image l = 1%nat /\ is_paused l = false.
Proof. apply (gif_label_cycles 3 0 7). discriminate. Defined.

(** X23. A paused label stays as it is: [pause] cancels the timer the label
    waits for, so that no timer firing changes anything until [resume],
    which continues from the frame the label was paused on; pausing twice is
    pausing once. *)
Theorem gif_pause_holds l ids :
  playing_or_paused l ->
  handle_all (Fire <$> ids) (pause l) = inr (pause l) /\
  pause (pause l) = pause l /\
  current_frame (pause l) = current_frame l /\
  is_paused (resume (pause l)) = false /\
  current_frame (resume (pause l)) = current_frame l /\
  playing_or_paused (resume (pause l)).
Proof.
  intros Hl. destruct (gif_pause l Hl) as (Hwf & Hp & Hfr & Hcf).
  pose proof Hwf as (Hcf' & Hi' & Hstate). rewrite Hp in Hstate.
  destruct Hstate as [Hid Ht].
  split; [|split; [|split; [done|]]].
  - induction ids as [|id ids IH]; simpl; [done|].
    rewrite decide_False; [done|]. rewrite Ht. apply not_elem_of_empty.
  - unfold pause at 1. by rewrite Hp.
  - unfold resume. rewrite Hp.
    match goal with |- context [schedule_next_frame ?x] =>
      destruct (gif_schedule x) as (H1 & H2 & H3) end; simpl; done.
Qed.

Lemma gif_pause_holds_witness :
  exists l0,
    init 3 0 = inr l0 /\
    handle_all (Fire <$> [0; 1; 2]%nat) (pause l0) = inr (pause l0) /\
    current_frame (resume (pause l0)) = current_frame l0.
Proof.
  destruct (proj2 (gif_init 3 0) ltac:(discriminate)) as (l0 & Hinit & Hl0 & _).
  exists l0. split; [exact Hinit|].
  destruct (gif_pause_holds l0 [0; 1; 2]%nat Hl0) as (H1 & _ & _ & _ & H2 & _).
  split; [exact H1|exact H2].
Defined.
End GifLabelPlay.
